(** * JSON Linter: a shallow embedding of [src/App.jsx]

    The component keeps the document in a CodeMirror editor and offers
    Validate / Format / Minify / Sort Keys, three live metrics (size, lines,
    keys) and a debounced validation on edit.  This file embeds the pure
    parts ([sortKeysDeep], [extractLineCol], the key count of [updateKpis])
    as functions, and the handlers as transformers of an explicit state.

    Conventions.
    - A JavaScript string is the list of its UTF-16 code units ([jsstring]).
    - A parsed JSON value is [JsonValue]; an object is the list of its own
      enumerable string-keyed properties in the order [Object.keys] and
      [JSON.stringify] enumerate them.
    - Host functions the component calls but does not define
      ([window.jsonlint.parse], [JSON.parse], [JSON.stringify],
      [String.prototype.localeCompare]) are the fields of a [Host], and so
      is what the component cannot know of the editor's layout: every
      theorem about the component holds for all hosts.
    - A call that can end with an exception returns a [completion]; the
      state it leaves is the one at the moment of the exception.
    - Work that completes later (a fetch, a file read, a clipboard write)
      is an event of its own, carrying what the environment answered.
    - The engine of the specification (Parser, Serializer) is not code of
      the repository.  The serializer is [JSON.stringify] as ECMAScript
      defines it; the parser is written from section 4.1. *)

From Stdlib Require Import List NArith ZArith Lia Bool String Ascii Sorted.
From Stdlib Require Import DecimalString DecimalN.
From Stdlib Require Import PrimFloat SpecFloat.
Import ListNotations.


(* ================================================================== *)
(** * Strings *)

(** UTF-16 code units; a well-formed unit is below 65536, which nothing
    below depends on. *)
Definition jsstring := list N.

(** A string literal of the source with ASCII contents. *)
Definition js (s : string) : jsstring :=
  map N_of_ascii (list_ascii_of_string s).

(** The same with every apostrophe of [s] standing for a double quote, to
    write JSON text: [jsq "{'a':1}"] is the text [{"a":1}]. *)
Definition jsq (s : string) : jsstring :=
  map (fun c => if N.eqb c 39 then 34%N else c) (js s).

Arguments js s : simpl never.
Arguments jsq s : simpl never.

(** [a === b] on strings. *)
Fixpoint str_eqb (a b : jsstring) : bool :=
  match a, b with
  | [], [] => true
  | x :: a', y :: b' => N.eqb x y && str_eqb a' b'
  | _, _ => false
  end.

Definition is_digit (c : N) : bool := (N.leb 48 c) && (N.leb c 57).

(** Decimal value of a string of digits, [None] when another unit occurs. *)
Fixpoint digits_value (acc : N) (s : jsstring) : option N :=
  match s with
  | [] => Some acc
  | c :: t =>
      if is_digit c then digits_value (acc * 10 + (c - 48))%N t else None
  end.

(** [String(n)] for a non-negative integer. *)
Definition decimal (n : N) : jsstring :=
  js (NilEmpty.string_of_uint (N.to_uint n)).

(** ECMAScript array index: a key that is the canonical decimal string of
    an integer in [0, 2^32 - 2].  Own properties with such keys are
    enumerated first, in ascending numeric order, whatever their insertion
    order. *)
Definition array_index (k : jsstring) : option N :=
  match digits_value 0 k with
  | Some n =>
      if N.leb n 4294967294 && str_eqb k (decimal n) then Some n else None
  | None => None
  end.

Definition is_index (k : jsstring) : bool :=
  match array_index k with Some _ => true | None => false end.

(** Code points of a string: a leading surrogate followed by a trailing one
    is one supplementary code point, every other unit stands for itself. *)
Fixpoint codepoints (s : jsstring) : list N :=
  match s with
  | [] => []
  | h :: t =>
      match t with
      | l :: t' =>
          if (N.leb 55296 h && N.leb h 56319 && N.leb 56320 l && N.leb l 57343)%bool
          then (65536 + (h - 55296) * 1024 + (l - 56320))%N :: codepoints t'
          else h :: codepoints t
      | [] => [h]
      end
  end.

(** Lexicographic order on lists of numbers. *)
Fixpoint lex_compare (a b : list N) : comparison :=
  match a, b with
  | [], [] => Eq
  | [], _ :: _ => Lt
  | _ :: _, [] => Gt
  | x :: a', y :: b' =>
      match N.compare x y with
      | Eq => lex_compare a' b'
      | c => c
      end
  end.

(** Ascending code point order, the order the specification names. *)
Definition codepoint_le (a b : jsstring) : bool :=
  match lex_compare (codepoints a) (codepoints b) with
  | Gt => false
  | _ => true
  end.

(** Order by UTF-16 code unit, as [<] compares strings in JavaScript. *)
Definition codeunit_compare (a b : jsstring) : Z :=
  match lex_compare a b with
  | Lt => (-1)%Z
  | Eq => 0%Z
  | Gt => 1%Z
  end.

(* ================================================================== *)
(** * Values *)

(** What [JSON.parse] and [jsonlint.parse] return.  [JObject] lists the own
    properties in enumeration order. *)
#[warnings="-register-all"]
Inductive JsonValue : Type :=
| JNull
| JBool (b : bool)
| JNumber (n : float)
| JString (s : jsstring)
| JArray (elems : list JsonValue)
| JObject (props : list (jsstring * JsonValue)).

Definition object := list (jsstring * JsonValue).

Definition Object_keys (o : object) : list jsstring := map fst o.

(** ** Ordinary objects *)

(** [o[k]] for an own property. *)
Fixpoint get_prop (k : jsstring) (o : object) : option JsonValue :=
  match o with
  | [] => None
  | (k', v) :: t => if str_eqb k k' then Some v else get_prop k t
  end.

Definition has_prop (k : jsstring) (o : object) : bool :=
  match get_prop k o with Some _ => true | None => false end.

(** Assignment to an existing own property keeps its place. *)
Fixpoint update_prop (k : jsstring) (v : JsonValue) (o : object) : object :=
  match o with
  | [] => []
  | (k', v') :: t =>
      if str_eqb k k' then (k', v) :: t else (k', v') :: update_prop k v t
  end.

(** A new array-index key [k] (of numeric value [i]) goes before the first
    property that is a larger index or no index at all. *)
Fixpoint insert_index (i : N) (k : jsstring) (v : JsonValue) (o : object) : object :=
  match o with
  | [] => [(k, v)]
  | (k', v') :: t =>
      match array_index k' with
      | Some j =>
          if N.ltb i j then (k, v) :: o else (k', v') :: insert_index i k v t
      | None => (k, v) :: o
      end
  end.

Definition proto_key : jsstring := js "__proto__".

(** [o[k] = v] on an object created by [{}], whose prototype chain ends in
    [Object.prototype].  The key [__proto__] reaches the accessor of
    [Object.prototype]: the prototype is replaced (or nothing happens) and no
    own property is created.  The prototype is invisible to [Object.keys],
    to property reads of own keys and to [JSON.stringify], so it is not
    part of the model. *)
Definition obj_set (o : object) (k : jsstring) (v : JsonValue) : object :=
  if str_eqb k proto_key then o
  else if has_prop k o then update_prop k v o
  else
    match array_index k with
    | Some i => insert_index i k v o
    | None => o ++ [(k, v)]
    end.

(* ================================================================== *)
(** * Sort Keys: [sortKeysDeep] *)

Section SortKeys.

(** [a.localeCompare(b)]: negative, zero or positive.  Its value is chosen by
    the host's collation. *)
Variable localeCompare : jsstring -> jsstring -> Z.

(** The comparator handed to [sort]: [(a, b) => a.localeCompare(b)]; [a]
    may stay before [b] when the result is not positive. *)
Definition cmp_le (a b : jsstring) : bool := Z.leb (localeCompare a b) 0.

(** [Array.prototype.sort] is stable, and for a consistent comparator its
    result is fixed by that: insertion from the right, each key placed
    before the first key it does not exceed. *)
Fixpoint sort_insert (x : jsstring) (l : list jsstring) : list jsstring :=
  match l with
  | [] => [x]
  | y :: t => if cmp_le x y then x :: l else y :: sort_insert x t
  end.

Fixpoint sort (l : list jsstring) : list jsstring :=
  match l with
  | [] => []
  | x :: t => sort_insert x (sort t)
  end.

(** One round of the [forEach] of [sortKeysDeep]: [sorted[k] = ...].  [done]
    holds the properties of [value] with [sortKeysDeep] already applied to
    each, so that [get_prop k done] is [sortKeysDeep(value[k])]; the
    recursion is then structural.  [k] comes from [Object.keys(value)], so
    the read never misses. *)
Definition assign (done sorted : object) (k : jsstring) : object :=
  match get_prop k done with
  | Some v => obj_set sorted k v
  | None => sorted
  end.

Definition assign_all (done : object) (ks : list jsstring) : object :=
  fold_left (assign done) ks [].

(** [sortKeysDeep], lines 167-180. *)
Fixpoint sortKeysDeep (value : JsonValue) : JsonValue :=
  match value with
  | JArray elems => JArray (map sortKeysDeep elems)
  | JObject props =>
      let done := map (fun kv => let '(k, v) := kv in (k, sortKeysDeep v)) props in
      JObject (assign_all done (sort (Object_keys props)))
  | _ => value
  end.

End SortKeys.

(* ================================================================== *)
(** * The editor and the component's state *)

(** JavaScript white space and line terminators: what [trim] strips and
    what [\s] matches. *)
Definition is_space (c : N) : bool :=
  existsb (N.eqb c)
    [9; 10; 11; 12; 13; 32; 160; 5760; 8232; 8233; 8239; 8287; 12288; 65279]%N
  || (N.leb 8192 c && N.leb c 8202).

Fixpoint dropWhile (p : N -> bool) (s : jsstring) : jsstring :=
  match s with
  | [] => []
  | c :: t => if p c then dropWhile p t else s
  end.

(** [text.trim()]. *)
Definition trim (s : jsstring) : jsstring :=
  rev (dropWhile is_space (rev (dropWhile is_space s))).

(** [new Blob([text]).size]: the length of the UTF-8 encoding, an unpaired
    surrogate being encoded as U+FFFD. *)
Fixpoint byteSize (s : jsstring) : N :=
  match s with
  | [] => 0
  | h :: t =>
      if N.ltb h 128 then 1 + byteSize t
      else if N.ltb h 2048 then 2 + byteSize t
      else
        match t with
        | l :: t' =>
            if (N.leb 55296 h && N.leb h 56319 && N.leb 56320 l && N.leb l 57343)%bool
            then 4 + byteSize t'
            else 3 + byteSize t
        | [] => 3
        end
  end%N.

(** CodeMirror keeps the document as lines: [setValue] splits the text at
    every [\r\n], [\r] or [\n], [lineCount] is the number of lines and
    [getValue] joins them with [\n].  (CodeMirror is a dependency, not code
    of the component; this is its documented behaviour.) *)
Fixpoint splitLines_from (cur : jsstring) (s : jsstring) : list jsstring :=
  match s with
  | [] => [rev cur]
  | c :: t =>
      if N.eqb c 10 then rev cur :: splitLines_from [] t
      else if N.eqb c 13 then
        match t with
        | d :: t' =>
            if N.eqb d 10 then rev cur :: splitLines_from [] t'
            else rev cur :: splitLines_from [] t
        | [] => [rev cur; []]
        end
      else splitLines_from (c :: cur) t
  end.

Definition splitLines (s : jsstring) : list jsstring := splitLines_from [] s.

Fixpoint joinLines (ls : list jsstring) : jsstring :=
  match ls with
  | [] => []
  | [l] => l
  | l :: rest => l ++ 10%N :: joinLines rest
  end.

(** [cm.lineCount()] when the editor holds [text]. *)
Definition lineCount (text : jsstring) : N := N.of_nat (List.length (splitLines text)).

(** The exception [jsonlint.parse] throws, as the specification's
    ParseError: a message and, when the parser supplies them, a position in
    fields of its own. *)
Module ParseError.
Record t : Type := make {
  message : jsstring;
  line : option N;
  column : option N
}.
End ParseError.

Inductive outcome : Type :=
| Returns (obj : JsonValue)
| Throws (e : ParseError.t).

(** [statusType]: [null], ['success'] or ['danger']. *)
Inductive StatusType : Type := no_type | success | danger.

(** The "Keys" metric: a count, or the dash shown when nothing is known. *)
Inductive KeysKpi : Type := Count (n : N) | Unknown.

(** The editor ([doc], [cursor]), the React state, and the pending timeout
    of the change handler ([timer]: milliseconds left, [None] when no
    callback is scheduled). *)
Record state : Type := mkState {
  doc : jsstring;
  cursor : Z * Z;
  status : jsstring;
  statusType : StatusType;
  size : N;
  lines : N;
  keys : KeysKpi;
  indent : N;
  autoValidate : bool;
  timer : option N
}.

Definition setStatus (m : jsstring) (s : state) : state :=
  mkState (doc s) (cursor s) m (statusType s) (size s) (lines s) (keys s)
          (indent s) (autoValidate s) (timer s).

Definition setStatusType (t : StatusType) (s : state) : state :=
  mkState (doc s) (cursor s) (status s) t (size s) (lines s) (keys s)
          (indent s) (autoValidate s) (timer s).

Definition setSize (n : N) (s : state) : state :=
  mkState (doc s) (cursor s) (status s) (statusType s) n (lines s) (keys s)
          (indent s) (autoValidate s) (timer s).

Definition setLines (n : N) (s : state) : state :=
  mkState (doc s) (cursor s) (status s) (statusType s) (size s) n (keys s)
          (indent s) (autoValidate s) (timer s).

Definition setKeys (k : KeysKpi) (s : state) : state :=
  mkState (doc s) (cursor s) (status s) (statusType s) (size s) (lines s) k
          (indent s) (autoValidate s) (timer s).

Definition setTimer (t : option N) (s : state) : state :=
  mkState (doc s) (cursor s) (status s) (statusType s) (size s) (lines s) (keys s)
          (indent s) (autoValidate s) t.

(** The cursor of the editor is put at [pos]. *)
Definition setCursor (pos : Z * Z) (s : state) : state :=
  mkState (doc s) pos (status s) (statusType s) (size s) (lines s) (keys s)
          (indent s) (autoValidate s) (timer s).

(** The document after [cm.setValue(text)], before any handler runs: the
    lines of [text], the selection at the start. *)
Definition replaceDoc (text : jsstring) (s : state) : state :=
  mkState (joinLines (splitLines text)) (0, 0)%Z (status s) (statusType s)
          (size s) (lines s) (keys s) (indent s) (autoValidate s) (timer s).

(** ** [extractLineCol], lines 102-109 *)

Definition lower (c : N) : N :=
  if N.leb 65 c && N.leb c 90 then (c + 32)%N else c.

(** The rest of [s] after the ASCII word [w], letter case ignored (the [i]
    flag: no character outside ASCII is equal to an ASCII letter under the
    canonicalisation of a non-Unicode pattern). *)
Fixpoint after_word (w s : jsstring) : option jsstring :=
  match w, s with
  | [], _ => Some s
  | _ :: _, [] => None
  | a :: w', c :: s' => if N.eqb (lower c) a then after_word w' s' else None
  end.

Fixpoint takeWhile (p : N -> bool) (s : jsstring) : jsstring :=
  match s with
  | [] => []
  | c :: t => if p c then c :: takeWhile p t else []
  end.

(** [/w\s+(\d+)/i] anchored at the start of [s]: the captured digits. *)
Definition match_here (w s : jsstring) : option jsstring :=
  match after_word w s with
  | None => None
  | Some r =>
      match takeWhile is_space r with
      | [] => None
      | _ :: _ =>
          match takeWhile is_digit (dropWhile is_space r) with
          | [] => None
          | ds => Some ds
          end
      end
  end.

(** [errMsg.match(/w\s+(\d+)/i)]: the capture of the leftmost match. *)
Fixpoint regex_match (w s : jsstring) : option jsstring :=
  match match_here w s with
  | Some ds => Some ds
  | None =>
      match s with
      | [] => None
      | _ :: t => regex_match w t
      end
  end.

(** The integer a run of decimal digits denotes. *)
Fixpoint digits_integer (acc : Z) (ds : jsstring) : Z :=
  match ds with
  | [] => acc
  | c :: t => digits_integer (acc * 10 + (Z.of_N c - 48)) t
  end.

(** The numbers [extractLineCol] computes are doubles: an integer, or
    [Infinity] when the digits denote more than a double can hold. *)
Inductive number : Type :=
| Finite (z : Z)
| Infinity.

(** The double nearest to the integer [z], for [z] from -1 on.  Below 2^53
    it is [z] itself.  From there on a double keeps the 53 leading bits:
    the bits below them are rounded to nearest, a tie going to the even
    significand, and what reaches 2^1024 is [Infinity]. *)
Definition to_double (z : Z) : number :=
  if (z <? 2 ^ 53)%Z then Finite z
  else
    let e := (Z.log2 z - 52)%Z in
    let q := (z / 2 ^ e)%Z in
    let r := (z mod 2 ^ e)%Z in
    let half := (2 ^ (e - 1))%Z in
    let q' := if (half <? r)%Z || ((r =? half)%Z && Z.odd q) then (q + 1)%Z else q in
    let m := (q' * 2 ^ e)%Z in
    if (2 ^ 1024 <=? m)%Z then Infinity else Finite m.

(** [Number(digits)] for a run of decimal digits: the double nearest to the
    integer they denote.  (From 21 significant digits on ECMAScript allows
    an engine to round less exactly; the engines in use round to
    nearest.) *)
Definition Number_of_digits (ds : jsstring) : number :=
  to_double (digits_integer 0 ds).

(** [x - 1] on these doubles. *)
Definition minus_one (x : number) : number :=
  match x with
  | Finite z => to_double (z - 1)
  | Infinity => Infinity
  end.

Definition extractLineCol (errMsg : jsstring) : option number * option number :=
  let line :=
    match regex_match (js "line") errMsg with
    | Some ds => Some (minus_one (Number_of_digits ds))
    | None => None
    end in
  let col :=
    match regex_match (js "column") errMsg with
    | Some ds => Some (minus_one (Number_of_digits ds))
    | None => None
    end in
  (line, col).

(** [col || 0]: 0 for [null], and for 0. *)
Definition or_zero (col : option number) : number :=
  match col with
  | Some c => c
  | None => Finite 0
  end.

(** The length of line [l] of the editor when it holds [text]. *)
Definition line_length (text : jsstring) (l : Z) : Z :=
  Z.of_nat (List.length (nth (Z.to_nat l) (splitLines text) [])).

(** Where [cm.setCursor({line, ch})] puts the cursor when the editor holds
    [text]: CodeMirror clips the position to the document.  A line past
    the end becomes the end of the last line, a column past the end of its
    line the end of that line, a column below 0 the start of the line.
    (CodeMirror is a dependency; this is its [clipPos].) *)
Definition clipPos (text : jsstring) (line ch : number) : Z * Z :=
  let last := (Z.of_N (lineCount text) - 1)%Z in
  match line with
  | Finite l =>
      if (l <? 0)%Z then (0, 0)%Z
      else if (last <? l)%Z then (last, line_length text last)
      else
        (l,
         match ch with
         | Finite c =>
             if (line_length text l <? c)%Z then line_length text l
             else if (c <? 0)%Z then 0%Z
             else c
         | Infinity => line_length text l
         end)
  | Infinity => (last, line_length text last)
  end.

(** The tick mark of the status messages, U+2713. *)
Definition check_mark : jsstring := [10003%N].

(** How a call ends: it returns a value, or an exception leaves it. *)
Inductive completion (A : Type) : Type :=
| Returned (x : A)
| Thrown.

Arguments Returned {A} x.
Arguments Thrown {A}.

(** The host: [window.jsonlint.parse] (loaded from a CDN), [JSON.parse]
    ([None] when it throws), [JSON.stringify(value, null, space)] ([None]
    when [space] is omitted), [a.localeCompare(b)], and the layout of the
    editor as far as the component depends on it: [shows_end text] tells
    whether the editor, holding [text], displays the document down to its
    end. *)
Record Host : Type := mkHost {
  jsonlint_parse : jsstring -> outcome;
  JSON_parse : jsstring -> option JsonValue;
  JSON_stringify : JsonValue -> option N -> jsstring;
  localeCompare : jsstring -> jsstring -> Z;
  shows_end : jsstring -> bool
}.

Section Component.

Variable host : Host.

(** The key count of [updateKpis], lines 91-99, from the outcome of
    [JSON.parse(text)] ([None]: it threw). *)
Definition keysCount (parsed : option JsonValue) : KeysKpi :=
  match parsed with
  | Some (JArray elems) => Count (N.of_nat (List.length elems))
  | Some (JObject props) => Count (N.of_nat (List.length (Object_keys props)))
  | Some _ => Count 0
  | None => Unknown
  end.

(** [updateKpis], lines 87-100. *)
Definition updateKpis (s : state) : state :=
  let text := doc s in
  let s := setSize (byteSize text) s in
  let s := setLines (lineCount text) s in
  setKeys (keysCount (JSON_parse host text)) s.

(** [scrollToError], lines 111-115: the state it leaves, or [None] when
    it throws.  [cm.scrollIntoView] makes the editor compute the lines to
    display, and for that CodeMirror fetches the line asked for when it
    lies above the lines displayed, or below them with the end of the
    document out of view.  A line below 0 is always above: the fetch fails
    with "There is no line ... in the document", the exception leaves
    [scrollToError] and [setCursor] is not reached.  A line past the end
    does the same unless the editor displays the document to its end.
    Otherwise [setCursor] moves the cursor; [focus] leaves the state as
    modelled alone. *)
Definition scrollToError (line ch : number) (s : state) : option state :=
  let last := (Z.of_N (lineCount (doc s)) - 1)%Z in
  let reached :=
    match line with
    | Finite l =>
        if (l <? 0)%Z then false
        else if (l <=? last)%Z then true
        else shows_end host (doc s)
    | Infinity => shows_end host (doc s)
    end in
  if reached then Some (setCursor (clipPos (doc s) line ch) s) else None.

(** The [catch (e)] block of [validate], lines 130-136: how it ends and
    the state it leaves.  The status is set before [scrollToError] is
    called, so it is set also when that call throws. *)
Definition validate_catch (e : ParseError.t) (s : state) : completion bool * state :=
  let '(line, col) := extractLineCol (ParseError.message e) in
  let s := setStatus (js "Invalid JSON: " ++ ParseError.message e) s in
  let s := setStatusType danger s in
  match line with
  | Some l =>
      match scrollToError l (or_zero col) s with
      | Some s' => (Returned false, s')
      | None => (Thrown, s)
      end
  | None => (Returned false, s)
  end.

(** [validate], lines 117-137: how the call ends and the state it
    leaves. *)
Definition validate (s : state) : completion bool * state :=
  let text := trim (doc s) in
  match text with
  | [] => (Returned false, setStatusType danger (setStatus (js "Please enter JSON.") s))
  | _ :: _ =>
      match jsonlint_parse host text with
      | Returns _ =>
          (Returned true,
           setStatusType success (setStatus (js "Valid JSON " ++ check_mark) s))
      | Throws e => validate_catch e s
      end
  end.

(** The ['change'] handler of the editor, lines 67-76, up to the moment it
    returns: the metrics are recomputed, the pending timeout is cleared and
    a new one of 400 ms is set. *)
Definition onChange (s : state) : state :=
  setTimer (Some 400%N) (updateKpis s).

(** The callback of the timeout.  It was created by the effect of the
    first render and reads that render's [autoValidate], which is [true]
    whatever the check box says now.  When [validate] throws, the callback
    ends there. *)
Definition onTimeout (s : state) : state :=
  let autoValidate := true in
  if autoValidate then
    let '(ok, s) := validate s in
    match ok with
    | Returned true => setStatus (js "Looks good " ++ check_mark) s
    | _ => s
    end
  else s.

(** [cm.setValue(text)]: the document is replaced and the ['change']
    handler runs. *)
Definition setValue (text : jsstring) (s : state) : state :=
  onChange (replaceDoc text s).

(** [formatJson], lines 139-151, with the [indent] of the render whose
    closure is called. *)
Definition formatJson (indent : N) (s : state) : state :=
  let text := doc s in
  match jsonlint_parse host text with
  | Returns obj =>
      let pretty := JSON_stringify host obj (Some indent) in
      let s := setValue pretty s in
      let s := setStatus (js "Formatted with " ++ decimal indent ++ js " spaces.") s in
      let s := setStatusType success s in
      updateKpis s
  | Throws _ => snd (validate s)
  end.

(** [minifyJson], lines 153-165. *)
Definition minifyJson (s : state) : state :=
  let text := doc s in
  match jsonlint_parse host text with
  | Returns obj =>
      let minified := JSON_stringify host obj None in
      let s := setValue minified s in
      let s := setStatus (js "Minified JSON.") s in
      let s := setStatusType success s in
      updateKpis s
  | Throws _ => snd (validate s)
  end.

(** [sortKeys], lines 182-194. *)
Definition sortKeys (s : state) : state :=
  let text := doc s in
  match jsonlint_parse host text with
  | Returns obj =>
      let sorted := sortKeysDeep (localeCompare host) obj in
      let s := setValue (JSON_stringify host sorted (Some 2%N)) s in
      let s := setStatus (js "Sorted keys recursively.") s in
      let s := setStatusType success s in
      updateKpis s
  | Throws _ => snd (validate s)
  end.

(** ** The component as a transition system *)

Inductive event : Type :=
| Edit (text : jsstring) (caret : Z * Z)
| Elapse (ms : N)
| ClickValidate
| ClickFormat
| ClickMinify
| ClickSortKeys
| KeyFormat.

(** One event, run to completion.  [Edit]: the user changes the document
    to [text], the caret ends at [caret], and the ['change'] handler runs.
    [Elapse]: time passes with no other event; the pending callback runs
    once its 400 ms are over.  The buttons call the handlers of the current
    render; Ctrl-B calls the [formatJson] of the first render, whose
    [indent] is 2. *)
Definition step (s : state) (e : event) : state :=
  match e with
  | Edit text caret => onChange (setCursor caret (replaceDoc text s))
  | Elapse ms =>
      match timer s with
      | Some remaining =>
          if N.ltb ms remaining then setTimer (Some (remaining - ms)%N) s
          else onTimeout (setTimer None s)
      | None => s
      end
  | ClickValidate => snd (validate s)
  | ClickFormat => formatJson (indent s) s
  | ClickMinify => minifyJson s
  | ClickSortKeys => sortKeys s
  | KeyFormat => formatJson 2 s
  end.

Definition run (s : state) (es : list event) : state := fold_left step es s.

(** A burst of edits, each followed by a pause. *)
Definition burst (edits : list (jsstring * (Z * Z) * N)) : list event :=
  flat_map (fun e => let '(text, caret, pause) := e in [Edit text caret; Elapse pause])
           edits.

End Component.

(** The state of the first render, before the effect runs: the editor
    holds the greeting, nothing is measured yet. *)
Definition first_render : state :=
  mkState (js "{" ++ [10%N] ++ jsq "  'message': 'Hello, World!'" ++ [10%N] ++ js "}")
          (0, 0)%Z
          (js "Ready. Paste JSON, load a file/URL, or click Sample.")
          no_type 0 0 Unknown 2 true None.

(** What an edit does not overwrite. *)
Definition shell (s : state) : jsstring * StatusType * N * bool :=
  (status s, statusType s, indent s, autoValidate s).

(** Line terminators of [text], each [\r\n] counted once. *)
Fixpoint breaks (s : jsstring) : N :=
  match s with
  | [] => 0
  | c :: t =>
      if N.eqb c 10 then 1 + breaks t
      else if N.eqb c 13 then
        match t with
        | d :: t' => if N.eqb d 10 then 1 + breaks t' else 1 + breaks t
        | [] => 1
        end
      else breaks t
  end%N.

(* ================================================================== *)
(** * Serializer: [JSON.stringify] on parsed values *)

Definition is_high_surrogate (c : N) : bool := N.leb 55296 c && N.leb c 56319.
Definition is_low_surrogate (c : N) : bool := N.leb 56320 c && N.leb c 57343.

Definition hex_digit (d : N) : N := if N.ltb d 10 then (48 + d)%N else (87 + d)%N.

(** [\uXXXX] with lowercase hexadecimal digits. *)
Definition unicode_escape (c : N) : jsstring :=
  [92; 117;
   hex_digit ((c / 4096) mod 16); hex_digit ((c / 256) mod 16);
   hex_digit ((c / 16) mod 16); hex_digit (c mod 16)]%N.

(** The body of QuoteJSONString: the two-character escapes, [\uXXXX] for
    the other control characters and for unpaired surrogates, every other
    code unit as it is. *)
Fixpoint quote_chars (s : jsstring) : jsstring :=
  match s with
  | [] => []
  | c :: t =>
      if N.eqb c 8 then 92 :: 98 :: quote_chars t
      else if N.eqb c 9 then 92 :: 116 :: quote_chars t
      else if N.eqb c 10 then 92 :: 110 :: quote_chars t
      else if N.eqb c 12 then 92 :: 102 :: quote_chars t
      else if N.eqb c 13 then 92 :: 114 :: quote_chars t
      else if N.eqb c 34 then 92 :: 34 :: quote_chars t
      else if N.eqb c 92 then 92 :: 92 :: quote_chars t
      else if N.ltb c 32 then unicode_escape c ++ quote_chars t
      else if is_high_surrogate c then
        match t with
        | d :: t' =>
            if is_low_surrogate d then c :: d :: quote_chars t'
            else unicode_escape c ++ quote_chars t
        | [] => unicode_escape c
        end
      else if is_low_surrogate c then unicode_escape c ++ quote_chars t
      else c :: quote_chars t
  end%N.

Definition QuoteJSONString (s : jsstring) : jsstring :=
  34%N :: quote_chars s ++ [34%N].

(** [parts.join(sep)]. *)
Fixpoint join (sep : jsstring) (parts : list jsstring) : jsstring :=
  match parts with
  | [] => []
  | [x] => x
  | x :: rest => x ++ sep ++ join sep rest
  end.

Section Serializer.

(** [Number::toString], the host's shortest round-trip rendering. *)
Variable Number_toString : float -> jsstring.

(** Modelled from the spec: the Serializer of section 4.3, which is the
    host's [JSON.stringify]; this is ECMAScript's SerializeJSONProperty
    with SerializeJSONObject and SerializeJSONArray, for a value that holds
    nothing but JSON.  [gap] is the indentation unit and [indent] the
    current indentation. *)
Fixpoint SerializeJSONProperty (gap indent : jsstring) (value : JsonValue) : jsstring :=
  match value with
  | JNull => js "null"
  | JBool true => js "true"
  | JBool false => js "false"
  | JNumber n => if is_finite n then Number_toString n else js "null"
  | JString s => QuoteJSONString s
  | JArray elems =>
      let stepback := indent in
      let indent := indent ++ gap in
      let partial := map (SerializeJSONProperty gap indent) elems in
      match partial with
      | [] => js "[]"
      | _ :: _ =>
          match gap with
          | [] => js "[" ++ join (js ",") partial ++ js "]"
          | _ :: _ =>
              js "[" ++ 10%N :: indent ++
              join (js "," ++ 10%N :: indent) partial ++
              10%N :: stepback ++ js "]"
          end
      end
  | JObject props =>
      let stepback := indent in
      let indent := indent ++ gap in
      let partial :=
        map (fun kv =>
               let '(k, v) := kv in
               QuoteJSONString k ++ js ":" ++
               match gap with [] => [] | _ :: _ => js " " end ++
               SerializeJSONProperty gap indent v)
            props in
      match partial with
      | [] => js "{}"
      | _ :: _ =>
          match gap with
          | [] => js "{" ++ join (js ",") partial ++ js "}"
          | _ :: _ =>
              js "{" ++ 10%N :: indent ++
              join (js "," ++ 10%N :: indent) partial ++
              10%N :: stepback ++ js "}"
          end
      end
  end.

(** [JSON.stringify(value, null, space)]: the gap is [space] spaces, ten at
    most; none when [space] is omitted. *)
Definition stringify (value : JsonValue) (space : option N) : jsstring :=
  let gap :=
    match space with
    | Some n => repeat 32%N (N.to_nat (N.min n 10))
    | None => []
    end in
  SerializeJSONProperty gap [] value.

(** Modelled from the spec: [prettyPrint] and [minify] of section 4.3, as
    the component calls [JSON.stringify] for them. *)
Definition prettyPrint (value : JsonValue) (indentWidth : N) : jsstring :=
  stringify value (Some indentWidth).

Definition minify (value : JsonValue) : jsstring := stringify value None.

End Serializer.

(* ================================================================== *)
(** * Parser *)

(** The component delegates parsing to [window.jsonlint], a script loaded
    from a CDN whose code is not in the repository.  The definitions of
    this part are written from section 4.1 of the specification, with the
    error model of its section 3. *)

(** Insignificant white space: space, tab, line feed, carriage return. *)
Definition is_ws (c : N) : bool :=
  N.eqb c 32 || N.eqb c 9 || N.eqb c 10 || N.eqb c 13.

Definition skip_ws (s : jsstring) : jsstring := dropWhile is_ws s.

(** The result of reading a prefix of the input: what was read and the
    input left, or the construct that was expected and the input from the
    offending character on. *)
Inductive parsed (A : Type) : Type :=
| Ok (a : A) (rest : jsstring)
| Err (expected : jsstring) (rest : jsstring).

Arguments Ok {A} a rest.
Arguments Err {A} expected rest.

Definition prepend (c : N) (r : parsed jsstring) : parsed jsstring :=
  match r with
  | Ok str rest => Ok (c :: str) rest
  | Err expected rest => Err expected rest
  end.

Definition hex_value (c : N) : option N :=
  if is_digit c then Some (c - 48)%N
  else if N.leb 97 c && N.leb c 102 then Some (c - 87)%N
  else if N.leb 65 c && N.leb c 70 then Some (c - 55)%N
  else None.

(** The character a two-character escape stands for: a backslash before a
    double quote, a backslash, a slash, or one of b, f, n, r, t. *)
Definition escape_char (e : N) : option N :=
  (if N.eqb e 34 then Some 34
   else if N.eqb e 92 then Some 92
   else if N.eqb e 47 then Some 47
   else if N.eqb e 98 then Some 8
   else if N.eqb e 102 then Some 12
   else if N.eqb e 110 then Some 10
   else if N.eqb e 114 then Some 13
   else if N.eqb e 116 then Some 9
   else None)%N.

(** Modelled from the spec: the string rule of the Parser (section 4.1),
    in place of the lexer of [window.jsonlint].  A string, from the
    character after its opening quote: escapes are decoded, a raw control
    character is an error. *)
Fixpoint lex_string (s : jsstring) : parsed jsstring :=
  match s with
  | [] => Err (js "closing quote") []
  | c :: t =>
      if N.eqb c 34 then Ok [] t
      else if N.eqb c 92 then
        match t with
        | [] => Err (js "escape sequence") t
        | e :: t1 =>
            if N.eqb e 117 then
              match t1 with
              | h1 :: h2 :: h3 :: h4 :: t2 =>
                  match hex_value h1, hex_value h2, hex_value h3, hex_value h4 with
                  | Some a, Some b, Some c', Some d =>
                      prepend (((a * 16 + b) * 16 + c') * 16 + d)%N (lex_string t2)
                  | _, _, _, _ => Err (js "four hexadecimal digits") t1
                  end
              | _ => Err (js "four hexadecimal digits") t1
              end
            else
              match escape_char e with
              | Some x => prepend x (lex_string t1)
              | None => Err (js "escape sequence") t
              end
        end
      else if N.ltb c 32 then Err (js "escaped control character") s
      else prepend c (lex_string t)
  end.

(** Modelled from the spec: the number rule of the Parser (section 4.1),
    in place of the lexer of [window.jsonlint].  Optional minus, [0] or
    digits without a leading zero, optional fraction, optional exponent. *)
Definition digits1 (s : jsstring) : bool :=
  match s with
  | [] => false
  | _ :: _ => forallb is_digit s
  end.

Definition exponent_ok (r : jsstring) : bool :=
  match r with
  | [] => true
  | e :: r' =>
      (N.eqb e 69 || N.eqb e 101) &&
      match r' with
      | sign :: ds => if N.eqb sign 43 || N.eqb sign 45 then digits1 ds else digits1 r'
      | [] => false
      end
  end.

Definition fraction_ok (r : jsstring) : bool :=
  match r with
  | c :: r' =>
      if N.eqb c 46
      then digits1 (takeWhile is_digit r') && exponent_ok (dropWhile is_digit r')
      else exponent_ok r
  | [] => true
  end.

Definition number_literal (tok : jsstring) : bool :=
  let body :=
    match tok with
    | c :: r => if N.eqb c 45 then r else tok
    | [] => tok
    end in
  match body with
  | [] => false
  | c :: r =>
      if N.eqb c 48 then fraction_ok r
      else is_digit c && fraction_ok (dropWhile is_digit r)
  end.

(** The characters a number is written with; a number token extends as far
    as they do. *)
Definition is_number_char (c : N) : bool :=
  is_digit c || N.eqb c 43 || N.eqb c 45 || N.eqb c 46 || N.eqb c 69 || N.eqb c 101.

(** [s] without the literal [w] it starts with. *)
Fixpoint strip_prefix (w s : jsstring) : option jsstring :=
  match w, s with
  | [], _ => Some s
  | _ :: _, [] => None
  | a :: w', c :: s' => if N.eqb a c then strip_prefix w' s' else None
  end.

(** Modelled from the spec: the Object of section 3, an ordered mapping
    with unique keys in insertion order; a key read again keeps its place
    and takes the later value. *)
Definition put (o : object) (kv : jsstring * JsonValue) : object :=
  if has_prop (fst kv) o then update_prop (fst kv) (snd kv) o else o ++ [kv].

Definition members_object (members : list (jsstring * JsonValue)) : object :=
  fold_left put members [].

Section Parser.

(** The double a number token denotes (the host's string-to-number
    conversion). *)
Variable StringToNumber : jsstring -> float.

Definition lex_number (s : jsstring) : parsed JsonValue :=
  let tok := takeWhile is_number_char s in
  if number_literal tok then Ok (JNumber (StringToNumber tok)) (dropWhile is_number_char s)
  else Err (js "number") s.

Definition lex_literal (w : jsstring) (v : JsonValue) (s : jsstring) : parsed JsonValue :=
  match strip_prefix w s with
  | Some rest => Ok v rest
  | None => Err (js "value") s
  end.

(** Modelled from the spec: the Parser of section 4.1, in place of
    [window.jsonlint.parse].  Recursive descent over objects, arrays,
    strings, numbers and the three literals, halting at the first
    deviation.  [fuel] bounds the number of nested calls; a call consumes
    at least one character before the next, so the length of the input is
    enough ([parse] below). *)
Fixpoint parse_value (fuel : nat) (s : jsstring) : parsed JsonValue :=
  match fuel with
  | O => Err (js "value") s
  | S fuel =>
      match skip_ws s with
      | [] => Err (js "value") []
      | c :: r =>
          if N.eqb c 123 then
            match skip_ws r with
            | d :: r' =>
                if N.eqb d 125 then Ok (JObject []) r'
                else
                  match parse_members fuel r with
                  | Ok members rest => Ok (JObject (members_object members)) rest
                  | Err expected rest => Err expected rest
                  end
            | [] => Err (js "string or '}'") []
            end
          else if N.eqb c 91 then
            match skip_ws r with
            | d :: r' =>
                if N.eqb d 93 then Ok (JArray []) r'
                else
                  match parse_elements fuel r with
                  | Ok elems rest => Ok (JArray elems) rest
                  | Err expected rest => Err expected rest
                  end
            | [] => Err (js "value or ']'") []
            end
          else if N.eqb c 34 then
            match lex_string r with
            | Ok str rest => Ok (JString str) rest
            | Err expected rest => Err expected rest
            end
          else if N.eqb c 116 then lex_literal (js "true") (JBool true) (c :: r)
          else if N.eqb c 102 then lex_literal (js "false") (JBool false) (c :: r)
          else if N.eqb c 110 then lex_literal (js "null") JNull (c :: r)
          else if N.eqb c 45 || is_digit c then lex_number (c :: r)
          else Err (js "value") (c :: r)
      end
  end

with parse_elements (fuel : nat) (s : jsstring) : parsed (list JsonValue) :=
  match fuel with
  | O => Err (js "value") s
  | S fuel =>
      match parse_value fuel s with
      | Err expected rest => Err expected rest
      | Ok v rest =>
          match skip_ws rest with
          | d :: r' =>
              if N.eqb d 44 then
                match parse_elements fuel r' with
                | Ok elems rest' => Ok (v :: elems) rest'
                | Err expected rest' => Err expected rest'
                end
              else if N.eqb d 93 then Ok [v] r'
              else Err (js "',' or ']'") (d :: r')
          | [] => Err (js "',' or ']'") []
          end
      end
  end

with parse_members (fuel : nat) (s : jsstring) : parsed (list (jsstring * JsonValue)) :=
  match fuel with
  | O => Err (js "string") s
  | S fuel =>
      match skip_ws s with
      | q :: r =>
          if N.eqb q 34 then
            match lex_string r with
            | Err expected rest => Err expected rest
            | Ok k r1 =>
                match skip_ws r1 with
                | colon :: r2 =>
                    if N.eqb colon 58 then
                      match parse_value fuel r2 with
                      | Err expected rest => Err expected rest
                      | Ok v r3 =>
                          match skip_ws r3 with
                          | d :: r4 =>
                              if N.eqb d 44 then
                                match parse_members fuel r4 with
                                | Ok members rest => Ok ((k, v) :: members) rest
                                | Err expected rest => Err expected rest
                                end
                              else if N.eqb d 125 then Ok [(k, v)] r4
                              else Err (js "',' or '}'") (d :: r4)
                          | [] => Err (js "',' or '}'") []
                          end
                      end
                    else Err (js "':'") (colon :: r2)
                | [] => Err (js "':'") []
                end
            end
          else Err (js "string") (q :: r)
      | [] => Err (js "string") []
      end
  end.

(** Zero-based line and column of the character at [offset], counted by
    scanning the line feeds before it. *)
Fixpoint locate (text : jsstring) (offset : nat) (line col : N) : N * N :=
  match offset, text with
  | S n, c :: t =>
      if N.eqb c 10 then locate t n (line + 1)%N 0%N else locate t n line (col + 1)%N
  | _, _ => (line, col)
  end.

Definition syntax_error (text expected rest : jsstring) : ParseError.t :=
  let '(line, col) := locate text (List.length text - List.length rest) 0%N 0%N in
  ParseError.make (js "Expecting " ++ expected) (Some line) (Some col).

(** The error for a document with nothing in it: no position. *)
Definition empty_input_error : ParseError.t :=
  ParseError.make (js "Nothing to parse") None None.

(** Modelled from the spec: [parse(text)] of section 4.1, in place of
    [window.jsonlint.parse]: one value, white space around it, nothing
    else; a blank text is the error without position. *)
Definition parse (text : jsstring) : outcome :=
  match skip_ws text with
  | [] => Throws empty_input_error
  | _ :: _ =>
      match parse_value (List.length text) text with
      | Err expected rest => Throws (syntax_error text expected rest)
      | Ok v rest =>
          match skip_ws rest with
          | [] => Returns v
          | _ :: _ => Throws (syntax_error text (js "end of input") (skip_ws rest))
          end
      end
  end.

End Parser.

(* ================================================================== *)
(** * The strict grammar *)

Section Grammar.

Variable StringToNumber : jsstring -> float.

(** Modelled from the spec: the grammar of section 4.1, as a relation
    between a text and the value it denotes, to compare the parser with.
    A value is a literal, a number, a string, or an array or object whose
    members are separated by single commas; white space may surround every
    member, key and colon, and nothing else may.  A string token is the
    double quote followed by what [lex_string] reads up to the closing
    quote. *)
Inductive json_value : jsstring -> JsonValue -> Prop :=
| json_null : json_value (js "null") JNull
| json_true : json_value (js "true") (JBool true)
| json_false : json_value (js "false") (JBool false)
| json_number tok :
    number_literal tok = true -> json_value tok (JNumber (StringToNumber tok))
| json_string body str :
    lex_string body = Ok str [] -> json_value (34%N :: body) (JString str)
| json_array_empty W :
    forallb is_ws W = true -> json_value (91%N :: W ++ [93%N]) (JArray [])
| json_array txt elems :
    json_elements txt elems -> json_value (91%N :: txt ++ [93%N]) (JArray elems)
| json_object_empty W :
    forallb is_ws W = true -> json_value (123%N :: W ++ [125%N]) (JObject [])
| json_object txt members :
    json_members txt members ->
    json_value (123%N :: txt ++ [125%N]) (JObject (members_object members))

with json_elements : jsstring -> list JsonValue -> Prop :=
| json_elements_last W1 t v W2 :
    forallb is_ws W1 = true -> json_value t v -> forallb is_ws W2 = true ->
    json_elements (W1 ++ t ++ W2) [v]
| json_elements_more W1 t v W2 txt vs :
    forallb is_ws W1 = true -> json_value t v -> forallb is_ws W2 = true ->
    json_elements txt vs ->
    json_elements (W1 ++ t ++ W2 ++ 44%N :: txt) (v :: vs)

with json_members : jsstring -> list (jsstring * JsonValue) -> Prop :=
| json_members_last W1 kbody k W2 W3 t v W4 :
    forallb is_ws W1 = true -> lex_string kbody = Ok k [] ->
    forallb is_ws W2 = true -> forallb is_ws W3 = true ->
    json_value t v -> forallb is_ws W4 = true ->
    json_members (W1 ++ 34%N :: kbody ++ W2 ++ 58%N :: W3 ++ t ++ W4) [(k, v)]
| json_members_more W1 kbody k W2 W3 t v W4 txt ms :
    forallb is_ws W1 = true -> lex_string kbody = Ok k [] ->
    forallb is_ws W2 = true -> forallb is_ws W3 = true ->
    json_value t v -> forallb is_ws W4 = true ->
    json_members txt ms ->
    json_members (W1 ++ 34%N :: kbody ++ W2 ++ 58%N :: W3 ++ t ++ W4 ++ 44%N :: txt)
      ((k, v) :: ms).

(** A JSON text: one value with white space around it. *)
Definition json_text (text : jsstring) (v : JsonValue) : Prop :=
  exists W1 t W2,
    text = W1 ++ t ++ W2 /\ forallb is_ws W1 = true /\ forallb is_ws W2 = true /\
    json_value t v.

End Grammar.

(* ================================================================== *)
(** * The rest of the component *)

(** The handlers below are the ones the toolbar, the file input, the drop
    zone and the key map reach besides Validate, Format, Minify and Sort
    Keys, and the effects that keep the preferences in [localStorage]. *)

Definition setIndent (n : N) (s : state) : state :=
  mkState (doc s) (cursor s) (status s) (statusType s) (size s) (lines s) (keys s)
          n (autoValidate s) (timer s).

Definition setAutoValidate (b : bool) (s : state) : state :=
  mkState (doc s) (cursor s) (status s) (statusType s) (size s) (lines s) (keys s)
          (indent s) b (timer s).

(** [s.startsWith(w)] and [s.includes(w)]. *)
Fixpoint startsWith (w s : jsstring) : bool :=
  match w, s with
  | [], _ => true
  | _ :: _, [] => false
  | a :: w', c :: s' => N.eqb a c && startsWith w' s'
  end.

Fixpoint includes (w s : jsstring) : bool :=
  startsWith w s ||
  match s with
  | [] => false
  | _ :: t => includes w t
  end.

(** What an [await] gives: the value, or the exception as the [catch] of
    [loadUrl] words it, [e.message || e]. *)
Inductive settled (A : Type) : Type :=
| Fulfilled (x : A)
| Rejected (shown : jsstring).

Arguments Fulfilled {A} x.
Arguments Rejected {A} shown.

(** The response of [fetch], as far as [loadUrl] reads it: [resp.ok],
    [resp.status], [resp.statusText], [resp.headers.get('content-type')]
    ([None] for [null]) and what [resp.json()] and [resp.text()] settle to. *)
Module Response.
Record t : Type := make {
  ok : bool;
  status : N;
  statusText : jsstring;
  content_type : option jsstring;
  json : settled JsonValue;
  text : settled jsstring
}.
End Response.

(** The sample of [sample], lines 217-222. *)
Definition example : JsonValue :=
  JObject
    [(js "name", JString (js "JSON Linter"));
     (js "url", JString (js "https://example.com/"));
     (js "features",
      JArray [JString (js "validate"); JString (js "format");
              JString (js "minify"); JString (js "lint")]);
     (js "nested", JObject [(js "a", JNumber 1); (js "b", JBool true); (js "c", JNull)])].

Section Toolbar.

Variable host : Host.

(** [clearEditor], lines 209-214. *)
Definition clearEditor (s : state) : state :=
  let s := setValue host [] s in
  let s := setStatus (js "Cleared.") s in
  let s := setStatusType no_type s in
  updateKpis host s.

(** [sample], lines 216-228. *)
Definition sample (s : state) : state :=
  let s := setValue host (JSON_stringify host example (Some 2%N)) s in
  let s := setStatus (js "Loaded sample JSON.") s in
  let s := setStatusType success s in
  updateKpis host s.

(** [copyToClipboard], lines 196-207, once [writeText] has settled:
    [written] tells whether the promise was fulfilled. *)
Definition copyToClipboard (written : bool) (s : state) : state :=
  if written
  then setStatusType success (setStatus (js "Copied to clipboard.") s)
  else setStatusType danger (setStatus (js "Unable to copy to clipboard.") s).

(** [download], lines 230-241: the text handed to the [Blob] that is
    saved as data.json, and the state. *)
Definition download (s : state) : jsstring * state :=
  let text := doc s in
  (text, setStatusType success (setStatus (js "Downloaded data.json") s)).

(** [loadUrl], lines 243-278, up to the first [await]: [url] is what
    [prompt] returned ([None] for [null]). *)
Definition loadUrl_prompt (url : option jsstring) (s : state) : state :=
  match url with
  | None | Some [] => s
  | Some url =>
      setStatusType no_type (setStatus (js "Fetching " ++ url ++ js " ...") s)
  end.

(** The [catch] of [loadUrl], lines 274-277. *)
Definition loadUrl_catch (shown : jsstring) (s : state) : state :=
  setStatusType danger (setStatus (js "Failed to fetch: " ++ shown) s).

(** Lines 257-259 and 264-266. *)
Definition loadUrl_formatted (obj : JsonValue) (s : state) : state :=
  let s := setValue host (JSON_stringify host obj (Some 2%N)) s in
  let s := setStatus (js "Loaded and formatted JSON from URL.") s in
  setStatusType success s.

(** [loadUrl] from the moment the network has answered.  Nothing of the
    component is read or written between the [await]s, so the rest of the
    function runs on the state it finds then. *)
Definition loadUrl_settled (answer : settled Response.t) (s : state) : state :=
  match answer with
  | Rejected shown => loadUrl_catch shown s
  | Fulfilled resp =>
      if negb (Response.ok resp) then
        loadUrl_catch
          (js "HTTP " ++ decimal (Response.status resp) ++ js " " ++
           Response.statusText resp) s
      else
        let contentType :=
          match Response.content_type resp with
          | Some c => c
          | None => []
          end in
        if includes (js "application/json") contentType then
          match Response.json resp with
          | Fulfilled obj => updateKpis host (loadUrl_formatted obj s)
          | Rejected shown => loadUrl_catch shown s
          end
        else
          match Response.text resp with
          | Fulfilled text =>
              match JSON_parse host text with
              | Some obj => updateKpis host (loadUrl_formatted obj s)
              | None =>
                  let s := setValue host text s in
                  let s := setStatus (js "Loaded response (not strictly valid JSON).") s in
                  let s := setStatusType danger s in
                  updateKpis host s
              end
          | Rejected shown => loadUrl_catch shown s
          end
  end.

(** [handleFile], lines 280-293: the [onload] and [onerror] callbacks of
    the reader; [name] is [file.name], [result] is [String(reader.result)]. *)
Definition handleFile_onload (name result : jsstring) (s : state) : state :=
  let s := setValue host result s in
  let s := setStatus (js "Loaded file: " ++ name) s in
  let s := setStatusType success s in
  updateKpis host s.

Definition handleFile_onerror (s : state) : state :=
  setStatusType danger (setStatus (js "Failed to read file.") s).

(** ** Every event of the page *)

(** The events of [event], the other keys of the key map (Ctrl-Enter,
    Ctrl-M and Alt-S call [validate], [minifyJson] and [sortKeys], which
    read no React state), the indent selector and the check box, the other
    buttons, and the completions of what Copy, Load URL and Load File (or a
    drop) started. *)
Inductive action : Type :=
| Core (e : event)
| KeyValidate
| KeyMinify
| KeySortKeys
| SelectIndent (n : N)
| CheckAutoValidate (checked : bool)
| ClickClear
| ClickSample
| ClickDownload
| CopySettled (written : bool)
| UrlPrompted (url : option jsstring)
| UrlSettled (answer : settled Response.t)
| FileRead (name result : jsstring)
| FileUnreadable.

Definition perform (s : state) (a : action) : state :=
  match a with
  | Core e => step host s e
  | KeyValidate => snd (validate host s)
  | KeyMinify => minifyJson host s
  | KeySortKeys => sortKeys host s
  | SelectIndent n => setIndent n s
  | CheckAutoValidate checked => setAutoValidate checked s
  | ClickClear => clearEditor s
  | ClickSample => sample s
  | ClickDownload => snd (download s)
  | CopySettled written => copyToClipboard written s
  | UrlPrompted url => loadUrl_prompt url s
  | UrlSettled answer => loadUrl_settled answer s
  | FileRead name result => handleFile_onload name result s
  | FileUnreadable => handleFile_onerror s
  end.

Definition operate (s : state) (acts : list action) : state :=
  fold_left perform acts s.

(** The three metrics show the document the editor holds. *)
Definition kpis_current (s : state) : Prop :=
  size s = byteSize (doc s) /\
  lines s = lineCount (doc s) /\
  keys s = keysCount (JSON_parse host (doc s)).

End Toolbar.

(** ** The saved file *)

(** The UTF-8 encoding of one code point. *)
Definition utf8_encode (cp : N) : list N :=
  (if N.ltb cp 128 then [cp]
   else if N.ltb cp 2048 then [192 + cp / 64; 128 + cp mod 64]
   else if N.ltb cp 65536 then
     [224 + cp / 4096; 128 + (cp / 64) mod 64; 128 + cp mod 64]
   else
     [240 + cp / 262144; 128 + (cp / 4096) mod 64; 128 + (cp / 64) mod 64;
      128 + cp mod 64])%N.

(** The bytes of [new Blob([text])]: the text is converted to scalar
    values, every unpaired surrogate becoming U+FFFD, and encoded as
    UTF-8. *)
Fixpoint Blob_bytes (s : jsstring) : list N :=
  match s with
  | [] => []
  | h :: t =>
      if is_high_surrogate h then
        match t with
        | l :: t' =>
            if is_low_surrogate l
            then utf8_encode (65536 + (h - 55296) * 1024 + (l - 56320))%N ++ Blob_bytes t'
            else utf8_encode 65533%N ++ Blob_bytes t
        | [] => utf8_encode 65533%N
        end
      else if is_low_surrogate h then utf8_encode 65533%N ++ Blob_bytes t
      else utf8_encode h ++ Blob_bytes t
  end.

(** ** Preferences *)

(** [localStorage]: [getItem] gives [None] for [null]. *)
Definition Storage := jsstring -> option jsstring.

Definition getItem (st : Storage) (k : jsstring) : option jsstring := st k.

Definition setItem (st : Storage) (k v : jsstring) : Storage :=
  fun k' => if str_eqb k' k then Some v else st k'.

(** The numbers [parseInt] returns: an integer or [NaN].  (The integer is
    the one the digits denote; a double holds it exactly below 2^53.) *)
Inductive jsint : Type :=
| NotANumber
| Integer (z : Z).

(** [parseInt(s, 10)]: leading white space is skipped, a sign is read, then
    the longest run of decimal digits; [NaN] when there is none. *)
Definition parseInt (s : jsstring) : jsint :=
  let s := dropWhile is_space s in
  let '(negative, s) :=
    match s with
    | c :: t =>
        if N.eqb c 45 then (true, t)
        else if N.eqb c 43 then (false, t)
        else (false, s)
    | [] => (false, s)
    end in
  match takeWhile is_digit s with
  | [] => NotANumber
  | ds =>
      let n := digits_integer 0 ds in
      Integer (if negative then - n else n)%Z
  end.

(** [String(n)], which [setItem] applies to a number, for [NaN] and for an
    integer below 10^21 in magnitude. *)
Definition String_of_jsint (n : jsint) : jsstring :=
  match n with
  | NotANumber => js "NaN"
  | Integer z => (if Z.ltb z 0 then js "-" else []) ++ decimal (Z.abs_N z)
  end.

(** [indent], [autoValidate] and [isDarkMode] of the React state. *)
Record preferences : Type := mkPreferences {
  pref_indent : jsint;
  pref_autoValidate : bool;
  pref_isDarkMode : bool
}.

(** The initializer of [isDarkMode], lines 16-21; [prefers_dark] is what
    the media query [(prefers-color-scheme: dark)] answers. *)
Definition initial_isDarkMode (st : Storage) (prefers_dark : bool) : bool :=
  match getItem st (js "jsonlint.theme") with
  | Some ((_ :: _) as saved) => str_eqb saved (js "dark")
  | _ => prefers_dark
  end.

(** The preferences the component holds once the first effect has run,
    lines 49-60: a saved indent that is not empty replaces the initial 2, a
    saved flag replaces the initial [true].  (Effects run once per mount,
    as React runs them in a production build.) *)
Definition load_preferences (st : Storage) (prefers_dark : bool) : preferences :=
  let indent :=
    match getItem st (js "jsonlint.indent") with
    | Some ((_ :: _) as savedIndent) => parseInt savedIndent
    | _ => Integer 2
    end in
  let autoValidate :=
    match getItem st (js "jsonlint.autoValidate") with
    | Some savedAuto => str_eqb savedAuto (js "true")
    | None => true
    end in
  mkPreferences indent autoValidate (initial_isDarkMode st prefers_dark).

(** The three effects that write the preferences back, lines 319-342. *)
Definition save_preferences (p : preferences) (st : Storage) : Storage :=
  let st := setItem st (js "jsonlint.indent") (String_of_jsint (pref_indent p)) in
  let st :=
    setItem st (js "jsonlint.autoValidate")
      (if pref_autoValidate p then js "true" else js "false") in
  setItem st (js "jsonlint.theme") (if pref_isDarkMode p then js "dark" else js "light").

(** [toggleTheme], lines 315-317. *)
Definition toggleTheme (p : preferences) : preferences :=
  mkPreferences (pref_indent p) (pref_autoValidate p) (negb (pref_isDarkMode p)).

(* ================================================================== *)
(** * A host for the examples *)

(** A host that renders and reads a few doubles, parses with the parser
    above and words its errors the way jsonlint does ("Parse error on line
    N:" and the expectation below it); and code unit order for
    [localeCompare].  The theorems hold for every host; the examples are
    computed with this one. *)
Definition sample_doubles : list (float * jsstring) :=
  [(0%float, js "0"); (1%float, js "1"); (2%float, js "2"); (3%float, js "3");
   (1.5%float, js "1.5"); ((-7)%float, js "-7"); (1e21%float, js "1e+21")].

Definition sample_toString (n : float) : jsstring :=
  match find (fun p => PrimFloat.Leibniz.eqb (fst p) n) sample_doubles with
  | Some p => snd p
  | None => js "0"
  end.

Definition sample_toNumber (tok : jsstring) : float :=
  match find (fun p => str_eqb (snd p) tok) sample_doubles with
  | Some p => fst p
  | None => 0%float
  end.

Definition sample_jsonlint (text : jsstring) : outcome :=
  match parse sample_toNumber text with
  | Returns v => Returns v
  | Throws e =>
      match ParseError.line e with
      | Some l =>
          Throws (ParseError.make
                    (js "Parse error on line " ++ decimal (l + 1) ++ js ":" ++
                     10%N :: ParseError.message e)
                    (ParseError.line e) (ParseError.column e))
      | None => Throws e
      end
  end.

Definition sample_JSON_parse (text : jsstring) : option JsonValue :=
  match parse sample_toNumber text with
  | Returns v => Some v
  | Throws _ => None
  end.

Definition sample_stringify : JsonValue -> option N -> jsstring :=
  stringify sample_toString.

Definition sample_host : Host :=
  mkHost sample_jsonlint sample_JSON_parse sample_stringify codeunit_compare
         (fun _ => true).

(** The sample document of the component, with numbers. *)
Definition sample_value : JsonValue :=
  JObject
    [(js "name", JString (js "JSON Linter"));
     (js "list", JArray [JNumber 1; JNumber 2; JNumber 1.5]);
     (js "nested",
      JObject [(js "b", JBool true); (js "a", JNumber (-7)); (js "c", JNull)])].

(** A document with a trailing comma, the cursor at line 0, column 1, and
    what [sample_jsonlint] throws on it. *)
Definition trailing_comma_state : state :=
  setCursor (0, 1)%Z (replaceDoc (jsq "{'a':1,}") first_render).

Definition trailing_comma_error : ParseError.t :=
  ParseError.make
    (js "Parse error on line 1:" ++ 10%N :: js "Expecting string")
    (Some 0%N) (Some 7%N).

(** A host whose parser is the parser above as it is, raising the errors
    as that parser words them, with their position in fields. *)
Definition strict_host : Host :=
  mkHost (parse sample_toNumber) sample_JSON_parse sample_stringify codeunit_compare
         (fun _ => true).

(** A host whose parser rejects every text and names its second line,
    with an editor that displays the end of the document or not. *)
Definition second_line_host (shows : bool) : Host :=
  mkHost (fun _ => Throws (ParseError.make (js "Parse error on line 2:") None None))
         sample_JSON_parse sample_stringify codeunit_compare (fun _ => shows).

(** A valid document behind a no-break space, which [trim] strips and the
    parser above does not skip. *)
Definition nbsp_state : state :=
  replaceDoc (160%N :: jsq "{'b':1,'a':2}") first_render.

(** A document of fourteen lines, the cursor at line 2, column 1. *)
Definition tall_state : state :=
  setCursor (2, 1)%Z
    (replaceDoc
       (js "[" ++ flat_map (fun _ => 10%N :: js "0,") (seq 0 11) ++
        10%N :: js "0" ++ 10%N :: js "]")
       first_render).

(** An exception without position whose message happens to contain the
    letters "line" and a number. *)
Definition outline_error : ParseError.t :=
  ParseError.make (js "see the outline 12 times") None None.

(** An exception whose message counts lines from 0. *)
Definition line_zero_error : ParseError.t :=
  ParseError.make (js "line 0: column 5") None None.

(** Three edits in quick succession. *)
Definition sample_edits : list (jsstring * (Z * Z) * N) :=
  [(js "[", (0, 1)%Z, 120%N); (js "[1", (0, 2)%Z, 399%N); (js "[1,", (0, 3)%Z, 0%N)].

(** ** Samples for the other handlers *)

(** The document of [trailing_comma_state] with white space around it. *)
Definition padded_state : state :=
  setCursor (0, 1)%Z
    (replaceDoc (js " " ++ [10%N] ++ jsq "{'a':1,}" ++ js "  ") first_render).

(** The component after its first effect, and after an edit. *)
Definition mounted_state : state := updateKpis sample_host first_render.

Definition edited_state : state :=
  step sample_host mounted_state (Edit (js "[1,2]") (0, 5)%Z).

(** A document with two members, the larger key first. *)
Definition unsorted_state : state :=
  updateKpis sample_host (replaceDoc (jsq "{'b':1,'a':[2]}") first_render).

Definition unsorted_value : JsonValue :=
  JObject [(js "b", JNumber 1); (js "a", JArray [JNumber 2])].

(** The same members in another order, at both levels. *)
Definition shuffled_value : JsonValue :=
  JObject
    [(js "nested",
      JObject [(js "c", JNull); (js "a", JNumber (-7)); (js "b", JBool true)]);
     (js "name", JString (js "JSON Linter"));
     (js "list", JArray [JNumber 1; JNumber 2; JNumber 1.5])].

(** A document with characters of two, three and four bytes and an
    unpaired surrogate. *)
Definition accented_state : state :=
  updateKpis sample_host
    (replaceDoc (js "[" ++ [34; 233; 8364; 55357; 56832; 56832; 34]%N ++ js "]")
       first_render).

(** An object with a member named [__proto__]. *)
Definition proto_members : object :=
  [(js "z", JNull); (js "__proto__", JObject [(js "x", JNumber 1)]); (js "a", JBool true)].

(** A response that is not announced as JSON and does not parse. *)
Definition plain_response : Response.t :=
  Response.make true 200 (js "OK") (Some (js "text/plain; charset=utf-8"))
    (Rejected (js "Unexpected token h in JSON at position 0"))
    (Fulfilled (js "hello")).

(** Preferences that differ from the initial ones, and a text with the
    three kinds of line break. *)
Definition sample_preferences : preferences := mkPreferences (Integer 4) false true.

Definition mixed_line_ends : jsstring :=
  js "a" ++ [13; 10]%N ++ js "b" ++ [13]%N ++ js "c" ++ [10]%N ++ js "d".

(** A session: an edit, a pause, Sample, another indent, Format, a failed
    fetch, a response, a file with [\r\n] line ends, the check box, the
    timeout, Clear. *)
Definition sample_session : list action :=
  [Core (Edit (jsq "{'b':1,'a':[2]}") (0, 15)%Z); Core (Elapse 150);
   ClickSample; SelectIndent 8; Core ClickFormat;
   UrlSettled (Rejected (js "Failed to fetch"));
   UrlSettled (Fulfilled plain_response);
   FileRead (js "crlf.json") (js "[1," ++ [13; 10]%N ++ js "2]");
   CheckAutoValidate false; Core (Elapse 400); ClickDownload; ClickClear].

(** A session without a click on Format. *)
Definition keyboard_session : list action :=
  [SelectIndent 8; Core (Edit (jsq "{'b':1,'a':[2]}") (0, 15)%Z); Core KeyFormat;
   SelectIndent 4; KeySortKeys; KeyMinify; Core (Elapse 400)].

(** [parse] fails on [text]. *)
Definition rejects (StringToNumber : jsstring -> float) (text : jsstring) : bool :=
  match parse StringToNumber text with
  | Returns _ => false
  | Throws _ => true
  end.

(** The characters a JSON value can start with: an opening brace or
    bracket, a double quote, a minus sign, a digit, or the first letter of
    true, false or null. *)
Definition starts_value (s : jsstring) : bool :=
  match s with
  | [] => false
  | c :: _ =>
      N.eqb c 123 || N.eqb c 91 || N.eqb c 34 || N.eqb c 45 || is_digit c ||
      N.eqb c 116 || N.eqb c 102 || N.eqb c 110
  end.

(* ================================================================== *)
(** * Predicates the statements use *)

(** Adjacent elements are in order. *)
Fixpoint sortedb (le : jsstring -> jsstring -> bool) (l : list jsstring) : bool :=
  match l with
  | [] => true
  | x :: t =>
      match t with
      | [] => true
      | y :: _ => le x y && sortedb le t
      end
  end.

Definition named (k : jsstring) : bool := negb (is_index k).

Definition any_key (k : jsstring) : bool := true.

(** Keys that no enumeration rule moves and that assignment does not lose. *)
Definition named_own (k : jsstring) : bool :=
  named k && negb (str_eqb k proto_key).

(** In every object of [v], at every depth, the keys selected by [sel] are
    enumerated in the order [le]. *)
Fixpoint keys_sorted_deep (le : jsstring -> jsstring -> bool)
    (sel : jsstring -> bool) (v : JsonValue) : bool :=
  match v with
  | JArray elems => forallb (keys_sorted_deep le sel) elems
  | JObject props =>
      sortedb le (filter sel (Object_keys props)) &&
      forallb (fun kv => keys_sorted_deep le sel (snd kv)) props
  | _ => true
  end.

Fixpoint mem (k : jsstring) (l : list jsstring) : bool :=
  match l with
  | [] => false
  | x :: t => str_eqb k x || mem k t
  end.

Fixpoint nodupb (l : list jsstring) : bool :=
  match l with
  | [] => true
  | x :: t => negb (mem x t) && nodupb t
  end.

(** Enumeration order of own keys: array indices not below [lo], strictly
    ascending, then keys that are no array index. *)
Fixpoint key_order (lo : N) (ks : list jsstring) : bool :=
  match ks with
  | [] => true
  | k :: t =>
      match array_index k with
      | Some i => N.leb lo i && key_order (i + 1) t
      | None => forallb named t
      end
  end.

(** The shape of every object the engine can hold: distinct keys in
    enumeration order. *)
Fixpoint wf_value (v : JsonValue) : bool :=
  match v with
  | JArray elems => forallb wf_value elems
  | JObject props =>
      nodupb (Object_keys props) && key_order 0 (Object_keys props) &&
      forallb (fun kv => wf_value (snd kv)) props
  | _ => true
  end.

(** [localeCompare] is a consistent comparator: the keys fall into classes
    that are totally ordered.  ECMAScript fixes the result of [sort] under
    this condition only. *)
Definition consistent (localeCompare : jsstring -> jsstring -> Z) : Prop :=
  (forall a b, cmp_le localeCompare a b = true \/ cmp_le localeCompare b a = true) /\
  (forall a b c, cmp_le localeCompare a b = true -> cmp_le localeCompare b c = true ->
                 cmp_le localeCompare a c = true).

(** The numbers a value holds, at any depth. *)
Fixpoint numbers_of (v : JsonValue) : list float :=
  match v with
  | JNumber n => [n]
  | JArray elems => flat_map numbers_of elems
  | JObject props => flat_map (fun kv => numbers_of (snd kv)) props
  | _ => []
  end.

(** The host renders the double [n] as a JSON number that denotes [n]
    again: [n] is finite, its rendering follows the number grammar and
    converts back to the same double.  (The specification asks exactly
    this of number rendering; it fails for -0, which is rendered as 0.) *)
Definition number_ok (Number_toString : float -> jsstring)
    (StringToNumber : jsstring -> float) (n : float) : Prop :=
  is_finite n = true /\
  number_literal (Number_toString n) = true /\
  StringToNumber (Number_toString n) = n.

(** The invariant of the data model: the keys of every object are
    distinct. *)
Fixpoint unique_keys (v : JsonValue) : bool :=
  match v with
  | JArray elems => forallb unique_keys elems
  | JObject props =>
      nodupb (Object_keys props) && forallb (fun kv => unique_keys (snd kv)) props
  | _ => true
  end.

(** Calls the parser nests at most to read a value back. *)
Fixpoint weight (v : JsonValue) : nat :=
  match v with
  | JArray elems => S (list_sum (map (fun e => S (weight e)) elems))
  | JObject props => S (list_sum (map (fun kv => S (weight (snd kv))) props))
  | _ => 1
  end.

(** What may follow a number token: nothing, or a character no number is
    written with. *)
Definition delimited (rest : jsstring) : Prop :=
  match rest with
  | [] => True
  | c :: _ => is_number_char c = false
  end.

(** The text of one member of an object: the quoted key, a colon, the
    space [sp] after it, the value. *)
Definition member_text (Number_toString : float -> jsstring)
    (gap ind sp : jsstring) (kv : jsstring * JsonValue) : jsstring :=
  QuoteJSONString (fst kv) ++ 58%N :: sp ++
  SerializeJSONProperty Number_toString gap ind (snd kv).

(** [v] is read back from its text, whatever the indentation, the white
    space [W] before it and the input [rest] after it. *)
Definition reads_back (Number_toString : float -> jsstring)
    (StringToNumber : jsstring -> float) (v : JsonValue) : Prop :=
  forall gap ind W rest fuel,
    forallb is_ws gap = true -> forallb is_ws ind = true ->
    forallb is_ws W = true ->
    (weight v <= fuel)%nat -> delimited rest ->
    parse_value StringToNumber fuel
      (W ++ SerializeJSONProperty Number_toString gap ind v ++ rest) = Ok v rest.

(** A sub-parser failed. *)
Definition failed {A : Type} (r : parsed A) : bool :=
  match r with
  | Ok _ _ => false
  | Err _ _ => true
  end.

Definition starts_with_quote (s : jsstring) : bool :=
  match s with
  | c :: _ => N.eqb c 34
  | [] => false
  end.

(** ** What the statements about events use *)

(** [s'] is what a handler leaves that gave [text] to the editor and set
    the status to [message] of type [type], when it found [s]: the
    document is replaced, the cursor is at the start, the metrics are those
    of the new document, the debounced validation is due in 400 ms; the
    selector and the check box are as they were. *)
Definition document_replaced (host : Host) (s : state) (text message : jsstring)
    (type : StatusType) (s' : state) : Prop :=
  doc s' = joinLines (splitLines text) /\
  cursor s' = (0, 0)%Z /\
  status s' = message /\ statusType s' = type /\
  kpis_current host s' /\
  timer s' = Some 400%N /\
  indent s' = indent s /\ autoValidate s' = autoValidate s.

Definition is_check (a : action) : bool :=
  match a with
  | CheckAutoValidate _ => true
  | _ => false
  end.

Definition is_select (a : action) : bool :=
  match a with
  | SelectIndent _ => true
  | _ => false
  end.

Definition is_click_format (a : action) : bool :=
  match a with
  | Core ClickFormat => true
  | _ => false
  end.

Definition reads_indent (a : action) : bool := is_click_format a || is_select a.

(** The state without the flag of the check box, and without the selected
    indent. *)
Definition apart_from_autoValidate (s : state) :=
  (doc s, cursor s, status s, statusType s, size s, lines s, keys s, indent s, timer s).

Definition apart_from_indent (s : state) :=
  (doc s, cursor s, status s, statusType s, size s, lines s, keys s, autoValidate s,
   timer s).

(** No validation is pending, or one is due in at most 400 ms. *)
Definition timer_in_window (s : state) : bool :=
  match timer s with
  | None => true
  | Some r => N.ltb 0 r && N.leb r 400
  end.

(** [text] with every line break ([\r\n], [\r] or [\n]) written as [\n]. *)
Fixpoint line_feeds (text : jsstring) : jsstring :=
  match text with
  | [] => []
  | c :: t =>
      if N.eqb c 13 then
        match t with
        | d :: t' => if N.eqb d 10 then 10%N :: line_feeds t' else 10%N :: line_feeds t
        | [] => [10%N]
        end
      else c :: line_feeds t
  end.

Definition no_carriage_return (text : jsstring) : bool :=
  forallb (fun c => negb (N.eqb c 13)) text.

(** ** What the statements about [sortKeysDeep] use *)

(** No object of [v], at any depth, has an own property named
    [__proto__]. *)
Fixpoint no_proto_deep (v : JsonValue) : bool :=
  match v with
  | JArray elems => forallb no_proto_deep elems
  | JObject props =>
      negb (mem proto_key (Object_keys props)) &&
      forallb (fun kv => no_proto_deep (snd kv)) props
  | _ => true
  end.

(** [v] and [v'] are the same value up to the order in which their
    objects, at any depth, list their members: arrays agree element by
    element, objects have as many members and every member of the first is
    found in the second with a value that is the same in this sense. *)
Fixpoint same_members (v v' : JsonValue) : Prop :=
  match v, v' with
  | JNull, JNull => True
  | JBool b, JBool b' => b = b'
  | JNumber n, JNumber n' => n = n'
  | JString s, JString s' => s = s'
  | JArray elems, JArray elems' =>
      (fix all2 (l l' : list JsonValue) : Prop :=
         match l, l' with
         | [], [] => True
         | x :: t, x' :: t' => same_members x x' /\ all2 t t'
         | _, _ => False
         end) elems elems'
  | JObject props, JObject props' =>
      List.length props = List.length props' /\
      (fix each (l : list (jsstring * JsonValue)) : Prop :=
         match l with
         | [] => True
         | (k, x) :: t =>
             match get_prop k props' with
             | Some x' => same_members x x'
             | None => False
             end /\ each t
         end) props
  | _, _ => False
  end.

(** The comparator tells any two different keys apart. *)
Definition discerning (localeCompare : jsstring -> jsstring -> Z) : Prop :=
  forall a b,
    cmp_le localeCompare a b = true -> cmp_le localeCompare b a = true -> a = b.

(* ================================================================== *)
(** * Facts *)

(** Lists of characters, appended to the right. *)
Ltac reassoc :=
  repeat (rewrite <- app_assoc || rewrite <- app_comm_cons ||
          rewrite app_nil_l || rewrite app_nil_r).


(** Induction over values with the hypothesis available for every element
    of an array and every property value of an object. *)
Lemma JsonValue_induction (P : JsonValue -> Prop) :
  P JNull ->
  (forall b, P (JBool b)) ->
  (forall n, P (JNumber n)) ->
  (forall s, P (JString s)) ->
  (forall l, Forall P l -> P (JArray l)) ->
  (forall o, Forall (fun kv => P (snd kv)) o -> P (JObject o)) ->
  forall v, P v.
Proof.
  intros Hnull Hbool Hnum Hstr Harr Hobj.
  fix IH 1. intros [ | b | n | s | l | o ].
  - exact Hnull.
  - apply Hbool.
  - apply Hnum.
  - apply Hstr.
  - apply Harr. induction l as [ | x l IHl ]; constructor; [ apply IH | exact IHl ].
  - apply Hobj. induction o as [ | [k x] o IHo ]; constructor; [ apply IH | exact IHo ].
Qed.


(** ** Strings and keys *)

Lemma str_eqb_eq (a b : jsstring) : str_eqb a b = true <-> a = b.
Proof.
  revert b. induction a as [ | x a IH ]; intros [ | y b ]; simpl; split;
    try congruence; try reflexivity.
  - intros H. apply andb_true_iff in H. destruct H as [Hx Hab].
    apply N.eqb_eq in Hx. apply IH in Hab. congruence.
  - intros H. injection H as -> ->. rewrite N.eqb_refl. simpl. now apply IH.
Qed.

Lemma str_eqb_refl (a : jsstring) : str_eqb a a = true.
Proof. now apply str_eqb_eq. Qed.

Lemma str_eqb_neq (a b : jsstring) : str_eqb a b = false <-> a <> b.
Proof.
  split.
  - intros H E. apply str_eqb_eq in E. congruence.
  - intros H. destruct (str_eqb a b) eqn:E; [ | reflexivity ].
    apply str_eqb_eq in E. contradiction.
Qed.

Lemma mem_In (k : jsstring) (l : list jsstring) : mem k l = true <-> In k l.
Proof.
  induction l as [ | x l IH ]; simpl.
  - split; [ discriminate | tauto ].
  - rewrite orb_true_iff, str_eqb_eq, IH. split; intros [H | H]; auto.
Qed.

Lemma nodupb_NoDup (l : list jsstring) : nodupb l = true <-> NoDup l.
Proof.
  induction l as [ | x l IH ]; simpl.
  - split; [ constructor | reflexivity ].
  - rewrite andb_true_iff, negb_true_iff, IH. split.
    + intros [Hx Hl]. constructor; [ | exact Hl ].
      intros Hin. apply mem_In in Hin. congruence.
    + intros H. inversion H as [ | ? ? Hx Hl ]; subst. split; [ | exact Hl ].
      destruct (mem x l) eqn:E; [ | reflexivity ].
      apply mem_In in E. contradiction.
Qed.

(** ** The stable sort under a consistent comparator *)

Section SortFacts.

Variable localeCompare : jsstring -> jsstring -> Z.
Hypothesis Hcons : consistent localeCompare.

Local Abbreviation le := (fun a b => cmp_le localeCompare a b = true).
Local Abbreviation ssorted := (StronglySorted le).
Local Abbreviation sort_insert' := (sort_insert localeCompare).
Local Abbreviation sort' := (sort localeCompare).

Lemma cmp_le_total a b : le a b \/ le b a.
Proof. destruct Hcons as [Ht _]. apply Ht. Qed.

Lemma cmp_le_trans a b c : le a b -> le b c -> le a c.
Proof. destruct Hcons as [_ Ht]. apply Ht. Qed.

Lemma cmp_le_false a b : cmp_le localeCompare a b = false -> le b a.
Proof. intros H. destruct (cmp_le_total a b) as [H' | H']; congruence. Qed.

Lemma sort_insert_In x y l : In y (sort_insert' x l) <-> y = x \/ In y l.
Proof.
  induction l as [ | z l IH ]; simpl.
  - intuition.
  - destruct (cmp_le localeCompare x z); simpl; rewrite ?IH; intuition.
Qed.

Lemma sort_In y l : In y (sort' l) <-> In y l.
Proof.
  induction l as [ | x l IH ]; simpl; [ tauto | ].
  rewrite sort_insert_In, IH. intuition.
Qed.

Lemma sort_insert_sorted x l : ssorted l -> ssorted (sort_insert' x l).
Proof.
  induction 1 as [ | y l Hl IH Hy ]; simpl.
  - repeat constructor.
  - destruct (cmp_le localeCompare x y) eqn:E.
    + constructor; [ now constructor | ]. constructor; [ exact E | ].
      eapply Forall_impl; [ | exact Hy ]. intros z Hz. now apply cmp_le_trans with y.
    + constructor; [ exact IH | ]. apply Forall_forall. intros z Hz.
      apply sort_insert_In in Hz. destruct Hz as [-> | Hz].
      * now apply cmp_le_false.
      * rewrite Forall_forall in Hy. now apply Hy.
Qed.

Lemma sort_sorted l : ssorted (sort' l).
Proof.
  induction l as [ | x l IH ]; simpl; [ constructor | now apply sort_insert_sorted ].
Qed.

Lemma sort_insert_head x l : Forall (le x) l -> sort_insert' x l = x :: l.
Proof.
  intros H. destruct l as [ | y l ]; simpl; [ reflexivity | ].
  inversion H as [ | ? ? Hy _ ]; subst. now rewrite Hy.
Qed.

(** Sorting a sorted list changes nothing. *)
Lemma sort_sorted_id l : ssorted l -> sort' l = l.
Proof.
  induction 1 as [ | x l Hl IH Hx ]; simpl; [ reflexivity | ].
  rewrite IH. now apply sort_insert_head.
Qed.

Lemma ssorted_filter (p : jsstring -> bool) l : ssorted l -> ssorted (filter p l).
Proof.
  induction 1 as [ | x l Hl IH Hx ]; simpl; [ constructor | ].
  destruct (p x); [ | exact IH ].
  constructor; [ exact IH | ].
  apply Forall_forall. intros y Hy. apply filter_In in Hy.
  rewrite Forall_forall in Hx. now apply Hx.
Qed.

Lemma filter_sort_insert (p : jsstring -> bool) x l :
  ssorted l ->
  filter p (sort_insert' x l) =
  if p x then sort_insert' x (filter p l) else filter p l.
Proof.
  induction 1 as [ | y l Hl IH Hy ]; simpl.
  - now destruct (p x).
  - destruct (cmp_le localeCompare x y) eqn:E; simpl.
    + destruct (p x) eqn:Px; [ | reflexivity ].
      symmetry. apply sort_insert_head.
      assert (Hall : Forall (le x) (y :: l)).
      { constructor; [ exact E | ]. eapply Forall_impl; [ | exact Hy ].
        intros z Hz. now apply cmp_le_trans with y. }
      change (Forall (le x) (filter p (y :: l))).
      apply Forall_forall. intros z Hz. apply filter_In in Hz.
      rewrite Forall_forall in Hall. now apply Hall.
    + rewrite IH. destruct (p y) eqn:Py; destruct (p x) eqn:Px; simpl;
        rewrite ?E; reflexivity.
Qed.

(** The stable sort commutes with selecting a sub-sequence. *)
Lemma filter_sort (p : jsstring -> bool) l :
  filter p (sort' l) = sort' (filter p l).
Proof.
  induction l as [ | x l IH ]; simpl; [ reflexivity | ].
  rewrite filter_sort_insert by apply sort_sorted.
  rewrite IH. now destruct (p x).
Qed.

Lemma sort_insert_NoDup x l : ~ In x l -> NoDup l -> NoDup (sort_insert' x l).
Proof.
  induction l as [ | y l IH ]; simpl; intros Hx Hl.
  - repeat constructor. tauto.
  - destruct (cmp_le localeCompare x y).
    + constructor; [ simpl; tauto | exact Hl ].
    + inversion Hl as [ | ? ? Hy Hl' ]; subst. constructor.
      * rewrite sort_insert_In. intros [-> | H]; tauto.
      * apply IH; tauto.
Qed.

Lemma sort_NoDup l : NoDup l -> NoDup (sort' l).
Proof.
  induction 1 as [ | x l Hx Hl IH ]; simpl; [ constructor | ].
  apply sort_insert_NoDup; [ now rewrite sort_In | exact IH ].
Qed.

Lemma sortedb_ssorted l : sortedb (cmp_le localeCompare) l = true <-> ssorted l.
Proof.
  induction l as [ | x l IH ]; [ split; [ constructor | reflexivity ] | ].
  destruct l as [ | y l ].
  - split; [ repeat constructor | reflexivity ].
  - change (sortedb (cmp_le localeCompare) (x :: y :: l))
      with (cmp_le localeCompare x y && sortedb (cmp_le localeCompare) (y :: l)).
    rewrite andb_true_iff, IH. split.
    + intros [Hxy Hs]. constructor; [ exact Hs | ].
      constructor; [ exact Hxy | ].
      apply StronglySorted_inv in Hs. destruct Hs as [_ Hy].
      eapply Forall_impl; [ | exact Hy ]. intros z Hz. now apply cmp_le_trans with y.
    + intros H. apply StronglySorted_inv in H. destruct H as [Hs Hx].
      inversion Hx; subst. tauto.
Qed.

End SortFacts.

(** ** Ordinary objects *)

Lemma array_index_canonical k i : array_index k = Some i -> k = decimal i.
Proof.
  unfold array_index. destruct (digits_value 0 k) as [n | ]; [ | discriminate ].
  destruct (N.leb n 4294967294 && str_eqb k (decimal n)) eqn:E; [ | discriminate ].
  intros H. injection H as <-. apply andb_true_iff in E. now apply str_eqb_eq.
Qed.

Lemma array_index_inj a b i :
  array_index a = Some i -> array_index b = Some i -> a = b.
Proof.
  intros Ha Hb. apply array_index_canonical in Ha, Hb. congruence.
Qed.

Lemma named_index k i : array_index k = Some i -> named k = false.
Proof. unfold named, is_index. now intros ->. Qed.

Lemma named_no_index k : array_index k = None -> named k = true.
Proof. unfold named, is_index. now intros ->. Qed.

Lemma get_prop_In k o v : get_prop k o = Some v -> In k (Object_keys o).
Proof.
  induction o as [ | [k' v'] o IH ]; simpl; [ discriminate | ].
  destruct (str_eqb k k') eqn:E.
  - apply str_eqb_eq in E. auto.
  - auto.
Qed.

Lemma get_prop_None k o : get_prop k o = None <-> ~ In k (Object_keys o).
Proof.
  induction o as [ | [k' v'] o IH ]; simpl; [ tauto | ].
  destruct (str_eqb k k') eqn:E.
  - apply str_eqb_eq in E. split; [ discriminate | intros H; exfalso; auto ].
  - apply str_eqb_neq in E. rewrite IH. split; intros H; [ intros [H' | H'] | ]; auto.
Qed.

Lemma has_prop_In k o : has_prop k o = true <-> In k (Object_keys o).
Proof.
  unfold has_prop. destruct (get_prop k o) eqn:E.
  - split; [ intros _; eapply get_prop_In; eauto | reflexivity ].
  - apply get_prop_None in E. split; [ discriminate | contradiction ].
Qed.

Lemma has_prop_fresh k o : has_prop k o = false <-> ~ In k (Object_keys o).
Proof.
  rewrite <- has_prop_In. destruct (has_prop k o); split; congruence.
Qed.

Lemma keys_update_prop k v o : Object_keys (update_prop k v o) = Object_keys o.
Proof.
  induction o as [ | [k' v'] o IH ]; simpl; [ reflexivity | ].
  destruct (str_eqb k k'); simpl; [ reflexivity | now rewrite IH ].
Qed.

Lemma get_update_prop k v o k' :
  In k (Object_keys o) ->
  get_prop k' (update_prop k v o) = if str_eqb k' k then Some v else get_prop k' o.
Proof.
  induction o as [ | [k0 v0] o IH ]; simpl; [ tauto | ].
  intros Hin. destruct (str_eqb k k0) eqn:E.
  - apply str_eqb_eq in E. subst k0. simpl. now destruct (str_eqb k' k).
  - simpl. destruct (str_eqb k' k0) eqn:E0.
    + apply str_eqb_eq in E0. subst k0.
      destruct (str_eqb k' k) eqn:E1; [ | reflexivity ].
      apply str_eqb_eq in E1. subst k'. now rewrite str_eqb_refl in E.
    + apply IH. apply str_eqb_neq in E. destruct Hin; congruence.
Qed.

Lemma In_insert_index i k v o k' :
  In k' (Object_keys (insert_index i k v o)) <-> k' = k \/ In k' (Object_keys o).
Proof.
  induction o as [ | [k0 v0] o IH ]; simpl; [ intuition | ].
  destruct (array_index k0) as [j | ]; [ destruct (N.ltb i j) | ]; simpl;
    rewrite ?IH; intuition.
Qed.

Lemma get_insert_index i k v o k' :
  ~ In k (Object_keys o) ->
  get_prop k' (insert_index i k v o) = if str_eqb k' k then Some v else get_prop k' o.
Proof.
  induction o as [ | [k0 v0] o IH ]; simpl; [ reflexivity | ].
  intros Hfresh.
  destruct (array_index k0) as [j | ]; [ destruct (N.ltb i j) | ]; simpl;
    try reflexivity.
  destruct (str_eqb k' k0) eqn:E0.
  - apply str_eqb_eq in E0. subst k0.
    destruct (str_eqb k' k) eqn:E1; [ | reflexivity ].
    apply str_eqb_eq in E1. subst k'. tauto.
  - apply IH. tauto.
Qed.

Lemma get_app_new k v o k' :
  ~ In k (Object_keys o) ->
  get_prop k' (o ++ [(k, v)]) = if str_eqb k' k then Some v else get_prop k' o.
Proof.
  induction o as [ | [k0 v0] o IH ]; simpl.
  - now destruct (str_eqb k' k).
  - intros Hfresh. destruct (str_eqb k' k0) eqn:E0.
    + apply str_eqb_eq in E0. subst k0.
      destruct (str_eqb k' k) eqn:E1; [ | reflexivity ].
      apply str_eqb_eq in E1. subst k'. tauto.
    + apply IH. tauto.
Qed.

(** What a read returns after [o[k] = v]. *)
Lemma get_obj_set o k v k' :
  get_prop k' (obj_set o k v) =
  if str_eqb k' k && negb (str_eqb k proto_key) then Some v else get_prop k' o.
Proof.
  unfold obj_set. destruct (str_eqb k proto_key); [ now rewrite andb_false_r | ].
  rewrite andb_true_r. destruct (has_prop k o) eqn:Hk.
  - apply get_update_prop. now apply has_prop_In.
  - apply has_prop_fresh in Hk. destruct (array_index k).
    + now apply get_insert_index.
    + now apply get_app_new.
Qed.

Lemma In_obj_set o k v k' :
  In k' (Object_keys (obj_set o k v)) <->
  (k' = k /\ k <> proto_key) \/ In k' (Object_keys o).
Proof.
  rewrite <- !has_prop_In. unfold has_prop. rewrite get_obj_set.
  destruct (str_eqb k' k) eqn:E; simpl.
  - apply str_eqb_eq in E. subst k'.
    destruct (str_eqb k proto_key) eqn:Ep; simpl.
    + apply str_eqb_eq in Ep. intuition.
    + apply str_eqb_neq in Ep. intuition.
  - apply str_eqb_neq in E. intuition.
Qed.

Lemma NoDup_insert_index i k v o :
  ~ In k (Object_keys o) -> NoDup (Object_keys o) -> NoDup (Object_keys (insert_index i k v o)).
Proof.
  induction o as [ | [k0 v0] o IH ]; simpl; intros Hk Hnd.
  - repeat constructor. tauto.
  - assert (Hcons : NoDup (k :: k0 :: Object_keys o)) by (constructor; simpl; tauto).
    destruct (array_index k0) as [j | ]; [ destruct (N.ltb i j) | ]; simpl; auto.
    inversion Hnd as [ | ? ? H0 Ho ]; subst. constructor.
    + rewrite In_insert_index. intros [-> | H]; tauto.
    + apply IH; tauto.
Qed.

Lemma NoDup_app_new (k : jsstring) (l : list jsstring) :
  ~ In k l -> NoDup l -> NoDup (l ++ [k]).
Proof.
  induction l as [ | x l IH ]; simpl; intros Hk Hnd.
  - repeat constructor. tauto.
  - inversion Hnd as [ | ? ? Hx Hl ]; subst. constructor.
    + rewrite in_app_iff. simpl. intros [H | [H | []]]; [ tauto | ].
      subst. tauto.
    + apply IH; tauto.
Qed.

Lemma NoDup_obj_set o k v : NoDup (Object_keys o) -> NoDup (Object_keys (obj_set o k v)).
Proof.
  intros Hnd. unfold obj_set. destruct (str_eqb k proto_key); [ exact Hnd | ].
  destruct (has_prop k o) eqn:Hk.
  - now rewrite keys_update_prop.
  - apply has_prop_fresh in Hk. destruct (array_index k).
    + now apply NoDup_insert_index.
    + unfold Object_keys. rewrite map_app. now apply NoDup_app_new.
Qed.

Lemma key_order_weaken lo lo' ks :
  (lo' <= lo)%N -> key_order lo ks = true -> key_order lo' ks = true.
Proof.
  destruct ks as [ | k t ]; simpl; [ reflexivity | ].
  destruct (array_index k) as [i | ]; [ | tauto ].
  rewrite !andb_true_iff, !N.leb_le. intros H [H1 H2]. split; [ lia | exact H2 ].
Qed.

Lemma key_order_insert_index lo i k v o :
  array_index k = Some i -> ~ In k (Object_keys o) -> (lo <= i)%N ->
  key_order lo (Object_keys o) = true ->
  key_order lo (Object_keys (insert_index i k v o)) = true.
Proof.
  intros Hi. revert lo. induction o as [ | [k0 v0] o IH ]; simpl; intros lo Hk Hlo Hord.
  - rewrite Hi. simpl. now rewrite andb_true_r, N.leb_le.
  - destruct (array_index k0) as [j | ] eqn:Hj.
    + apply andb_true_iff in Hord. destruct Hord as [Hloj Hord].
      destruct (N.ltb i j) eqn:Hij; simpl.
      * rewrite Hi, Hj. apply N.ltb_lt in Hij.
        rewrite Hord, andb_true_r. apply andb_true_iff.
        rewrite !N.leb_le. lia.
      * rewrite Hj, Hloj. simpl. apply IH; [ tauto | | exact Hord ].
        apply N.ltb_ge in Hij.
        assert (i <> j).
        { intros ->. apply Hk. left. eapply array_index_inj; eauto. }
        lia.
    + simpl. rewrite Hi, Hj. rewrite Hord, andb_true_r. now apply N.leb_le.
Qed.

Lemma key_order_app_named lo ks k :
  array_index k = None -> key_order lo ks = true -> key_order lo (ks ++ [k]) = true.
Proof.
  intros Hk. revert lo. induction ks as [ | k0 t IH ]; simpl; intros lo Hord.
  - now rewrite Hk.
  - destruct (array_index k0) as [j | ].
    + apply andb_true_iff in Hord. destruct Hord as [H1 H2].
      rewrite H1. simpl. now apply IH.
    + rewrite forallb_app, Hord. simpl. now rewrite (named_no_index _ Hk).
Qed.

Lemma key_order_obj_set o k v :
  key_order 0 (Object_keys o) = true -> key_order 0 (Object_keys (obj_set o k v)) = true.
Proof.
  intros Hord. unfold obj_set. destruct (str_eqb k proto_key); [ exact Hord | ].
  destruct (has_prop k o) eqn:Hk.
  - now rewrite keys_update_prop.
  - apply has_prop_fresh in Hk. destruct (array_index k) as [i | ] eqn:Hi.
    + apply key_order_insert_index; auto. lia.
    + unfold Object_keys. rewrite map_app. now apply key_order_app_named.
Qed.

Lemma named_insert_index i k v o :
  named k = false ->
  filter named (Object_keys (insert_index i k v o)) = filter named (Object_keys o).
Proof.
  intros Hk. induction o as [ | [k0 v0] o IH ]; simpl.
  - now rewrite Hk.
  - destruct (array_index k0) as [j | ]; [ destruct (N.ltb i j) | ]; simpl;
      rewrite ?Hk; try reflexivity.
    rewrite IH. reflexivity.
Qed.

(** The keys that are no array index, after assigning a key the object
    does not have yet. *)
Lemma named_obj_set o k v :
  ~ In k (Object_keys o) ->
  filter named (Object_keys (obj_set o k v)) =
  filter named (Object_keys o) ++
  (if named k && negb (str_eqb k proto_key) then [k] else []).
Proof.
  intros Hk. unfold obj_set.
  destruct (str_eqb k proto_key); [ now rewrite andb_false_r, app_nil_r | ].
  rewrite andb_true_r. apply has_prop_fresh in Hk. rewrite Hk.
  destruct (array_index k) as [i | ] eqn:Hi.
  - rewrite (named_index _ _ Hi), app_nil_r. apply named_insert_index.
    now apply named_index with i.
  - rewrite (named_no_index _ Hi). unfold Object_keys. rewrite map_app, filter_app. simpl.
    now rewrite (named_no_index _ Hi).
Qed.

Lemma get_prop_In_pair k x o : get_prop k o = Some x -> In (k, x) o.
Proof.
  induction o as [ | [k' v'] o IH ]; simpl; [ discriminate | ].
  destruct (str_eqb k k') eqn:E.
  - apply str_eqb_eq in E. intros H. injection H as ->. left. congruence.
  - auto.
Qed.

Lemma In_pair_get_prop k x o : NoDup (Object_keys o) -> In (k, x) o -> get_prop k o = Some x.
Proof.
  induction o as [ | [k' v'] o IH ]; simpl; [ tauto | ].
  intros Hnd Hin. inversion Hnd as [ | ? ? Hk' Ho ]; subst.
  destruct Hin as [H | H].
  - injection H as -> ->. now rewrite str_eqb_refl.
  - destruct (str_eqb k k') eqn:E; [ | now apply IH ].
    apply str_eqb_eq in E. subst k'. exfalso. apply Hk'.
    change k with (fst (k, x)). now apply in_map.
Qed.

(** ** The loop of [sortKeysDeep] *)

Lemma assign_all_NoDup done ks acc :
  NoDup (Object_keys acc) -> NoDup (Object_keys (fold_left (assign done) ks acc)).
Proof.
  revert acc. induction ks as [ | k ks IH ]; simpl; intros acc H; [ exact H | ].
  apply IH. unfold assign. destruct (get_prop k done); [ | exact H ].
  now apply NoDup_obj_set.
Qed.

Lemma assign_all_order done ks acc :
  key_order 0 (Object_keys acc) = true ->
  key_order 0 (Object_keys (fold_left (assign done) ks acc)) = true.
Proof.
  revert acc. induction ks as [ | k ks IH ]; simpl; intros acc H; [ exact H | ].
  apply IH. unfold assign. destruct (get_prop k done); [ | exact H ].
  now apply key_order_obj_set.
Qed.

Lemma assign_all_get done ks acc k :
  get_prop k (fold_left (assign done) ks acc) =
  if mem k ks && negb (str_eqb k proto_key) && has_prop k done
  then get_prop k done else get_prop k acc.
Proof.
  revert acc. induction ks as [ | k0 ks IH ]; simpl; intros acc; [ reflexivity | ].
  rewrite IH. destruct (mem k ks && negb (str_eqb k proto_key) && has_prop k done) eqn:E.
  - apply andb_true_iff in E. destruct E as [E E3].
    apply andb_true_iff in E. destruct E as [E1 E2].
    now rewrite E1, orb_true_r, E2, E3.
  - unfold assign. destruct (str_eqb k k0) eqn:Ek; simpl.
    + apply str_eqb_eq in Ek. subst k0. unfold has_prop.
      destruct (get_prop k done) as [v | ] eqn:Ed.
      * rewrite get_obj_set, str_eqb_refl. simpl.
        now destruct (str_eqb k proto_key).
      * now rewrite andb_false_r.
    + rewrite E. destruct (get_prop k0 done); [ | reflexivity ].
      rewrite get_obj_set, Ek. reflexivity.
Qed.

Lemma assign_all_In done ks acc k :
  In k (Object_keys (fold_left (assign done) ks acc)) ->
  (In k ks /\ k <> proto_key) \/ In k (Object_keys acc).
Proof.
  intros Hin. apply has_prop_In in Hin. unfold has_prop in Hin.
  rewrite assign_all_get in Hin.
  destruct (mem k ks && negb (str_eqb k proto_key) && has_prop k done) eqn:E;
    [ | right; now apply has_prop_In ].
  left.
  apply andb_true_iff in E. destruct E as [E _].
  apply andb_true_iff in E. destruct E as [E1 E2].
  apply mem_In in E1. apply negb_true_iff, str_eqb_neq in E2. tauto.
Qed.

Lemma assign_all_named done ks acc :
  NoDup ks ->
  (forall k, In k ks -> ~ In k (Object_keys acc)) ->
  (forall k, In k ks -> In k (Object_keys done)) ->
  filter named (Object_keys (fold_left (assign done) ks acc)) =
  filter named (Object_keys acc) ++ filter named_own ks.
Proof.
  revert acc. induction ks as [ | k ks IH ]; simpl; intros acc Hnd Hfresh Hdone.
  - now rewrite app_nil_r.
  - inversion Hnd as [ | ? ? Hk Hks ]; subst.
    assert (Hin : In k (Object_keys done)) by auto.
    apply has_prop_In in Hin. unfold has_prop in Hin. unfold assign at 2.
    destruct (get_prop k done) as [v | ]; [ clear Hin | discriminate ].
    rewrite IH; auto.
    + rewrite named_obj_set by auto. rewrite <- app_assoc. f_equal.
      unfold named_own. now destruct (named k && negb (str_eqb k proto_key)).
    + intros k' Hk' Hin. apply In_obj_set in Hin.
      destruct Hin as [[-> _] | Hin]; [ tauto | ]. eapply Hfresh; eauto.
Qed.

(** ** Two objects in enumeration order with the same reads are the same *)

Lemma key_order_lower lo ks k i :
  key_order lo ks = true -> In k ks -> array_index k = Some i -> (lo <= i)%N.
Proof.
  revert lo. induction ks as [ | k0 t IH ]; simpl; intros lo Hord Hin Hi; [ tauto | ].
  destruct (array_index k0) as [j | ] eqn:Hj.
  - apply andb_true_iff in Hord. destruct Hord as [H1 H2]. apply N.leb_le in H1.
    destruct Hin as [-> | Hin].
    + assert (j = i) by congruence. lia.
    + specialize (IH _ H2 Hin Hi). lia.
  - destruct Hin as [-> | Hin]; [ congruence | ].
    rewrite forallb_forall in Hord. apply Hord in Hin.
    rewrite (named_index _ _ Hi) in Hin. discriminate.
Qed.

Lemma filter_all (p : jsstring -> bool) l : forallb p l = true -> filter p l = l.
Proof.
  induction l as [ | x l IH ]; simpl; [ reflexivity | ].
  intros H. apply andb_true_iff in H. destruct H as [-> H]. now rewrite IH.
Qed.

Lemma same_keys_same_object (X Y : object) :
  NoDup (Object_keys X) -> Object_keys X = Object_keys Y ->
  (forall k, get_prop k X = get_prop k Y) -> X = Y.
Proof.
  revert Y. induction X as [ | [k v] X IH ]; intros [ | [k' v'] Y ]; simpl;
    try discriminate; [ reflexivity | ].
  intros Hnd Hk Hget. injection Hk as <- Hk.
  inversion Hnd as [ | ? ? HkX HX ]; subst.
  pose proof (Hget k) as Hv. rewrite str_eqb_refl in Hv. injection Hv as <-.
  f_equal. apply IH; auto.
  intros k0. specialize (Hget k0). destruct (str_eqb k0 k) eqn:E; [ | exact Hget ].
  apply str_eqb_eq in E. subst k0.
  assert (HkY : ~ In k (Object_keys Y)) by (unfold Object_keys in *; now rewrite <- Hk).
  apply get_prop_None in HkX, HkY. congruence.
Qed.

Lemma same_reads_same_keys (X Y : object) k :
  (forall k, get_prop k X = get_prop k Y) -> In k (Object_keys X) -> In k (Object_keys Y).
Proof.
  intros Hget Hin. apply has_prop_In in Hin. apply has_prop_In.
  unfold has_prop in *. now rewrite <- Hget.
Qed.

Lemma enumeration_unique (X Y : object) lo :
  NoDup (Object_keys X) -> NoDup (Object_keys Y) ->
  key_order lo (Object_keys X) = true -> key_order lo (Object_keys Y) = true ->
  (forall k, get_prop k X = get_prop k Y) ->
  filter named (Object_keys X) = filter named (Object_keys Y) ->
  X = Y.
Proof.
  revert Y lo. induction X as [ | [k v] X IH ]; intros Y lo HndX HndY HoX HoY Hget Hnamed.
  - destruct Y as [ | [k' v'] Y ]; [ reflexivity | ].
    specialize (Hget k'). simpl in Hget. rewrite str_eqb_refl in Hget. discriminate.
  - assert (Hsym : forall q, get_prop q Y = get_prop q ((k, v) :: X))
      by (intro; symmetry; apply Hget).
    simpl in HoX. destruct (array_index k) as [i | ] eqn:Hi.
    + apply andb_true_iff in HoX. destruct HoX as [Hlo HoX].
      destruct Y as [ | [k' v'] Y ].
      { specialize (Hget k). simpl in Hget. rewrite str_eqb_refl in Hget. discriminate. }
      simpl in HoY. destruct (array_index k') as [j | ] eqn:Hj.
      * apply andb_true_iff in HoY. destruct HoY as [Hlo' HoY].
        assert (Hij : (i <= j)%N).
        { assert (Hin : In k' (Object_keys ((k, v) :: X))).
          { eapply same_reads_same_keys; [ exact Hsym | now left ]. }
          destruct Hin as [Hin | Hin].
          - simpl in Hin. subst k'. assert (i = j) by congruence. lia.
          - pose proof (key_order_lower _ _ _ _ HoX Hin Hj). lia. }
        assert (Hji : (j <= i)%N).
        { assert (Hin : In k (Object_keys ((k', v') :: Y))).
          { eapply same_reads_same_keys; [ exact Hget | now left ]. }
          destruct Hin as [Hin | Hin].
          - simpl in Hin. subst k'. assert (i = j) by congruence. lia.
          - pose proof (key_order_lower _ _ _ _ HoY Hin Hi). lia. }
        assert (j = i) by lia. subst j.
        assert (k' = k) by (eapply array_index_inj; eauto). subst k'.
        pose proof (Hget k) as Hv. simpl in Hv. rewrite str_eqb_refl in Hv.
        injection Hv as <-. f_equal.
        inversion HndX as [ | ? ? HkX HX ]; subst.
        inversion HndY as [ | ? ? HkY HY ]; subst.
        apply IH with (lo := (i + 1)%N); auto.
        -- intros k0. specialize (Hget k0). simpl in Hget.
           destruct (str_eqb k0 k) eqn:E; [ | exact Hget ].
           apply str_eqb_eq in E. subst k0.
           apply get_prop_None in HkX, HkY. congruence.
        -- simpl in Hnamed. now rewrite (named_index _ _ Hi) in Hnamed.
      * exfalso. assert (Hin : In k (Object_keys ((k', v') :: Y))).
        { eapply same_reads_same_keys; [ exact Hget | now left ]. }
        destruct Hin as [Hin | Hin]; [ simpl in Hin; congruence | ].
        rewrite forallb_forall in HoY. apply HoY in Hin.
        rewrite (named_index _ _ Hi) in Hin. discriminate.
    + assert (HallX : forallb named (Object_keys ((k, v) :: X)) = true).
      { simpl. now rewrite (named_no_index _ Hi). }
      assert (HallY : forallb named (Object_keys Y) = true).
      { apply forallb_forall. intros k0 Hk0.
        eapply same_reads_same_keys in Hk0; [ | exact Hsym ].
        rewrite forallb_forall in HallX. now apply HallX. }
      apply same_keys_same_object; auto.
      rewrite <- (filter_all _ _ HallX), <- (filter_all _ _ HallY). exact Hnamed.
Qed.

(** ** [sortKeysDeep] *)

Section SortKeysDeepFacts.

Variable localeCompare : jsstring -> jsstring -> Z.
Hypothesis Hcons : consistent localeCompare.

Local Abbreviation skd := (sortKeysDeep localeCompare).
Local Abbreviation done_of props :=
  (map (fun kv : jsstring * JsonValue => let '(k, v) := kv in (k, skd v)) props%list).
#[warnings="-inconsistent-scopes"]
Local Abbreviation rebuilt props :=
  (assign_all (done_of props) (sort localeCompare (Object_keys props))).

Lemma forallb_map_comp (A B : Type) (f : B -> bool) (g : A -> B) (l : list A) :
  forallb f (map g l) = forallb (fun x => f (g x)) l.
Proof.
  induction l as [ | x l IH ]; simpl; [ reflexivity | now rewrite IH ].
Qed.

Lemma keys_done_of props : Object_keys (done_of props) = Object_keys props.
Proof.
  unfold Object_keys. rewrite map_map. apply map_ext. now intros [k v].
Qed.

Lemma In_done_of k x props :
  In (k, x) (done_of props) -> exists v, In (k, v) props /\ x = skd v.
Proof.
  intros H. apply in_map_iff in H. destruct H as [[k' v] [E Hin]].
  injection E as -> <-. now exists v.
Qed.

Lemma rebuilt_NoDup props : NoDup (Object_keys (rebuilt props)).
Proof. apply assign_all_NoDup. constructor. Qed.

Lemma rebuilt_order props : key_order 0 (Object_keys (rebuilt props)) = true.
Proof. now apply assign_all_order. Qed.

Lemma rebuilt_no_proto props : ~ In proto_key (Object_keys (rebuilt props)).
Proof.
  intros H. apply assign_all_In in H. destruct H as [[_ H] | []]. now apply H.
Qed.

Lemma rebuilt_values props k x :
  In (k, x) (rebuilt props) -> exists v, In (k, v) props /\ x = skd v.
Proof.
  intros H. apply In_pair_get_prop in H; [ | apply rebuilt_NoDup ].
  unfold assign_all in H. rewrite assign_all_get in H.
  destruct (mem k (sort localeCompare (Object_keys props)) && negb (str_eqb k proto_key) &&
            has_prop k (done_of props)); [ | discriminate ].
  apply In_done_of. now apply get_prop_In_pair.
Qed.

Lemma rebuilt_named props :
  NoDup (Object_keys props) ->
  filter named (Object_keys (rebuilt props)) =
  filter named_own (sort localeCompare (Object_keys props)).
Proof.
  intros Hnd. unfold assign_all. rewrite assign_all_named.
  - reflexivity.
  - now apply sort_NoDup.
  - intros k _ [].
  - intros k Hk. rewrite keys_done_of. now apply sort_In in Hk.
Qed.

Lemma rebuilt_named_sorted props :
  NoDup (Object_keys props) ->
  StronglySorted (fun a b => cmp_le localeCompare a b = true)
    (filter named (Object_keys (rebuilt props))).
Proof.
  intros Hnd. rewrite rebuilt_named by exact Hnd.
  apply ssorted_filter. now apply sort_sorted.
Qed.

(** The result of [sortKeysDeep] is again a value in enumeration order. *)
Lemma sortKeysDeep_wf v : wf_value v = true -> wf_value (skd v) = true.
Proof.
  induction v as [ | b | n | s | l IH | o IH ] using JsonValue_induction;
    simpl; auto.
  - rewrite forallb_map_comp. rewrite !forallb_forall. intros Hwf x Hx.
    rewrite Forall_forall in IH. auto.
  - intros Hwf. apply andb_true_iff in Hwf. destruct Hwf as [_ Hvals].
    rewrite rebuilt_order, andb_true_r. apply andb_true_iff. split.
    + apply nodupb_NoDup, rebuilt_NoDup.
    + apply forallb_forall. intros [k x] Hin. simpl.
      apply rebuilt_values in Hin. destruct Hin as [v [Hin ->]].
      rewrite Forall_forall in IH. apply (IH (k, v) Hin). simpl.
      rewrite forallb_forall in Hvals. now apply (Hvals (k, v)).
Qed.

Lemma sortKeysDeep_named_sorted v :
  wf_value v = true ->
  keys_sorted_deep (cmp_le localeCompare) named (skd v) = true.
Proof.
  induction v as [ | b | n | s | l IH | o IH ] using JsonValue_induction;
    simpl; auto.
  - rewrite forallb_map_comp. rewrite !forallb_forall. intros Hwf x Hx.
    rewrite Forall_forall in IH. auto.
  - intros Hwf. apply andb_true_iff in Hwf. destruct Hwf as [Hkeys Hvals].
    apply andb_true_iff in Hkeys. destruct Hkeys as [Hnd _].
    apply nodupb_NoDup in Hnd. apply andb_true_iff. split.
    + apply sortedb_ssorted; [ exact Hcons | now apply rebuilt_named_sorted ].
    + apply forallb_forall. intros [k x] Hin. simpl.
      apply rebuilt_values in Hin. destruct Hin as [v [Hin ->]].
      rewrite Forall_forall in IH. apply (IH (k, v) Hin). simpl.
      rewrite forallb_forall in Hvals. now apply (Hvals (k, v)).
Qed.

Lemma filter_named_own_no_proto ks :
  ~ In proto_key ks -> filter named_own ks = filter named ks.
Proof.
  intros H. apply filter_ext_in. intros k Hk. unfold named_own.
  destruct (str_eqb k proto_key) eqn:E; [ | now rewrite andb_true_r ].
  apply str_eqb_eq in E. subst. contradiction.
Qed.

(** Running the loop again over an object it produced gives it back. *)
Lemma assign_all_rebuilt (R : object) :
  NoDup (Object_keys R) -> key_order 0 (Object_keys R) = true -> ~ In proto_key (Object_keys R) ->
  StronglySorted (fun a b => cmp_le localeCompare a b = true) (filter named (Object_keys R)) ->
  assign_all R (sort localeCompare (Object_keys R)) = R.
Proof.
  intros Hnd Hord Hproto Hsorted.
  apply enumeration_unique with (lo := 0%N); auto.
  - apply assign_all_NoDup. constructor.
  - now apply assign_all_order.
  - intros k. unfold assign_all. rewrite assign_all_get.
    destruct (has_prop k R) eqn:Hk.
    + apply has_prop_In in Hk.
      assert (Hm : mem k (sort localeCompare (Object_keys R)) = true).
      { apply mem_In. now apply sort_In. }
      assert (Hp : str_eqb k proto_key = false).
      { apply str_eqb_neq. intros ->. contradiction. }
      now rewrite Hm, Hp.
    + rewrite andb_false_r. simpl. symmetry. apply get_prop_None.
      now apply has_prop_fresh.
  - unfold assign_all. rewrite assign_all_named.
    + simpl. rewrite filter_sort by exact Hcons.
      rewrite filter_named_own_no_proto by exact Hproto.
      now apply sort_sorted_id.
    + now apply sort_NoDup.
    + intros k _ [].
    + intros k Hk. now apply sort_In in Hk.
Qed.

Lemma sortKeysDeep_again v :
  wf_value v = true -> skd (skd v) = skd v.
Proof.
  induction v as [ | b | n | s | l IH | o IH ] using JsonValue_induction;
    simpl; auto.
  - intros Hwf. f_equal. rewrite map_map. apply map_ext_in. intros x Hx.
    rewrite Forall_forall in IH. rewrite forallb_forall in Hwf. auto.
  - intros Hwf. apply andb_true_iff in Hwf. destruct Hwf as [Hkeys Hvals].
    apply andb_true_iff in Hkeys. destruct Hkeys as [Hnd _].
    apply nodupb_NoDup in Hnd. f_equal.
    assert (Hdone : done_of (rebuilt o) = rebuilt o).
    { rewrite <- (map_id (rebuilt o)) at 2. apply map_ext_in. intros [k x] Hin.
      apply rebuilt_values in Hin. destruct Hin as [v [Hin ->]].
      f_equal. rewrite Forall_forall in IH. apply (IH (k, v) Hin). simpl.
      rewrite forallb_forall in Hvals. now apply (Hvals (k, v)). }
    rewrite Hdone. apply assign_all_rebuilt.
    + apply rebuilt_NoDup.
    + apply rebuilt_order.
    + apply rebuilt_no_proto.
    + now apply rebuilt_named_sorted.
Qed.

End SortKeysDeepFacts.

(** ** Metrics *)

Lemma splitLines_from_length (n : nat) :
  forall s cur, (List.length s <= n)%nat ->
  N.of_nat (List.length (splitLines_from cur s)) = (1 + breaks s)%N.
Proof.
  induction n as [ | n IH ]; intros [ | c t ] cur Hlen;
    cbn [List.length] in Hlen; try reflexivity; try lia.
  cbn [splitLines_from breaks]. destruct (N.eqb c 10).
  - cbn [List.length]. rewrite Nat2N.inj_succ, IH by lia. lia.
  - destruct (N.eqb c 13).
    + destruct t as [ | d t' ]; [ reflexivity | ].
      cbn [List.length] in Hlen.
      destruct (N.eqb d 10); cbn [List.length];
        rewrite Nat2N.inj_succ, IH by (cbn [List.length]; lia); lia.
    + apply IH. lia.
Qed.

(** ** White space *)

Lemma dropWhile_all (p : N -> bool) (s : jsstring) :
  forallb p s = true -> dropWhile p s = [].
Proof.
  induction s as [ | c t IH ]; simpl; [ reflexivity | ].
  intros H. apply andb_true_iff in H. destruct H as [-> H]. now apply IH.
Qed.

Lemma trim_blank (s : jsstring) : forallb is_space s = true -> trim s = [].
Proof.
  intros H. unfold trim. now rewrite (dropWhile_all _ _ H).
Qed.

(** ** The handlers *)

Section ComponentFacts.

Variable host : Host.

(** When [scrollToError] returns, it has moved the cursor, to a position
    of the document. *)
Lemma scrollToError_returns line ch s s' :
  scrollToError host line ch s = Some s' ->
  s' = setCursor (clipPos (doc s) line ch) s.
Proof.
  unfold scrollToError.
  destruct (match line with Finite _ => _ | Infinity => _ end); congruence.
Qed.

(** [validate] touches the status, its type and the cursor, nothing else. *)
Lemma validate_frame s :
  doc (snd (validate host s)) = doc s /\
  size (snd (validate host s)) = size s /\
  lines (snd (validate host s)) = lines s /\
  keys (snd (validate host s)) = keys s /\
  indent (snd (validate host s)) = indent s /\
  autoValidate (snd (validate host s)) = autoValidate s /\
  timer (snd (validate host s)) = timer s.
Proof.
  unfold validate. destruct (trim (doc s)) as [ | c t ]; [ repeat split | ].
  destruct (jsonlint_parse host (c :: t)) as [obj | e]; [ repeat split | ].
  unfold validate_catch.
  destruct (extractLineCol (ParseError.message e)) as [[l | ] col]; [ | repeat split ].
  destruct (scrollToError host l (or_zero col) _) as [s' | ] eqn:E; [ | repeat split ].
  apply scrollToError_returns in E. subst s'. repeat split.
Qed.

(** What [validate] does when the parser throws [e]. *)
Lemma validate_throws s e :
  trim (doc s) <> [] ->
  jsonlint_parse host (trim (doc s)) = Throws e ->
  validate host s = validate_catch host e s.
Proof.
  intros Hne Hthrow. unfold validate.
  destruct (trim (doc s)) as [ | c t ] eqn:Ht; [ congruence | ].
  now rewrite Hthrow.
Qed.

(** The [catch] block shows the message, whether or not it goes on to
    throw. *)
Lemma validate_catch_status e s :
  status (snd (validate_catch host e s)) = js "Invalid JSON: " ++ ParseError.message e /\
  statusType (snd (validate_catch host e s)) = danger /\
  fst (validate_catch host e s) <> Returned true.
Proof.
  unfold validate_catch.
  destruct (extractLineCol (ParseError.message e)) as [[l | ] col];
    [ | repeat split; discriminate ].
  destruct (scrollToError host l (or_zero col) _) as [s' | ] eqn:E;
    [ | repeat split; discriminate ].
  apply scrollToError_returns in E. subst s'. repeat split; discriminate.
Qed.

(** What Validate shows, from the document alone. *)
Lemma validate_status s :
  status (snd (validate host s)) =
    match trim (doc s) with
    | [] => js "Please enter JSON."
    | text =>
        match jsonlint_parse host text with
        | Returns _ => js "Valid JSON " ++ check_mark
        | Throws e => js "Invalid JSON: " ++ ParseError.message e
        end
    end /\
  statusType (snd (validate host s)) =
    match trim (doc s) with
    | [] => danger
    | text =>
        match jsonlint_parse host text with
        | Returns _ => success
        | Throws e => danger
        end
    end.
Proof.
  unfold validate. destruct (trim (doc s)) as [ | c t ]; [ split; reflexivity | ].
  destruct (jsonlint_parse host (c :: t)) as [obj | e]; [ split; reflexivity | ].
  destruct (validate_catch_status e s) as [H1 [H2 _]]. now split.
Qed.

(** (C3, as the code has it.)  The "Keys" metric after [updateKpis]: the
    element count of a top-level array, the key count of a top-level
    object, 0 for any other parsed value (null, booleans, numbers, strings)
    and the dash only when [JSON.parse] throws; whatever the text, the
    status line, its type, the document and the cursor stay as they were,
    so malformed text never shows an error. *)
Theorem updateKpis_cardinality s :
  keys (updateKpis host s) =
    match JSON_parse host (doc s) with
    | Some (JArray elems) => Count (N.of_nat (List.length elems))
    | Some (JObject props) => Count (N.of_nat (List.length props))
    | Some _ => Count 0
    | None => Unknown
    end /\
  status (updateKpis host s) = status s /\
  statusType (updateKpis host s) = statusType s /\
  doc (updateKpis host s) = doc s /\
  cursor (updateKpis host s) = cursor s.
Proof.
  unfold updateKpis. simpl. repeat split.
  destruct (JSON_parse host (doc s)) as [[ | b | n | t | elems | props] | ]; simpl;
    try reflexivity.
  unfold Object_keys. now rewrite length_map.
Qed.


(** (C6.)  On a document that is empty or holds white space only, Validate
    fails with the message "Please enter JSON." of type danger, which is
    not the "Invalid JSON: ..." message of a grammar failure, without
    consulting the parser and without a position: the cursor stays where
    it was. *)
Theorem validate_blank s :
  forallb is_space (doc s) = true ->
  validate host s =
    (Returned false, setStatusType danger (setStatus (js "Please enter JSON.") s)) /\
  cursor (snd (validate host s)) = cursor s /\
  (forall m, status (snd (validate host s)) <> js "Invalid JSON: " ++ m).
Proof.
  intros Hblank. unfold validate. rewrite (trim_blank _ Hblank). simpl.
  repeat split. intros m H. discriminate H.
Qed.

(** (C7, as the code has it.)  The "Lines" metric is the editor's line
    count: one more than the number of line terminators of the text, so a
    terminator at the very end does start one more (empty) line: 2 for
    "a\nb", 3 for "a\nb\n" and for "a\nb\nc", 1 for the empty text. *)
Theorem lineCount_terminators s text :
  lineCount text = (1 + breaks text)%N /\
  lines (updateKpis host s) = (1 + breaks (doc s))%N /\
  lineCount (js "a" ++ [10%N] ++ js "b") = 2%N /\
  lineCount (js "a" ++ [10%N] ++ js "b" ++ [10%N]) = 3%N /\
  lineCount (js "a" ++ [10%N] ++ js "b" ++ [10%N] ++ js "c") = 3%N /\
  lineCount [] = 1%N.
Proof.
  assert (H : forall t, lineCount t = (1 + breaks t)%N).
  { intros t. unfold lineCount, splitLines.
    now apply splitLines_from_length with (n := List.length t). }
  repeat split; try apply H.
Qed.

(** The [catch] block reads the message of the exception and nothing
    else. *)
Lemma validate_catch_message_only e e' s :
  ParseError.message e' = ParseError.message e ->
  validate_catch host e' s = validate_catch host e s.
Proof. intros H. unfold validate_catch. now rewrite H. Qed.

(** A line of the document is reached whatever the editor displays. *)
Lemma scrollToError_inside l ch s :
  (0 <= l <= Z.of_N (lineCount (doc s)) - 1)%Z ->
  scrollToError host (Finite l) ch s = Some (setCursor (clipPos (doc s) (Finite l) ch) s).
Proof.
  intros [H0 H1]. unfold scrollToError.
  apply Z.ltb_ge in H0. apply Z.leb_le in H1. now rewrite H0, H1.
Qed.

(** A line below 0 is not. *)
Lemma scrollToError_below l ch s :
  (l < 0)%Z -> scrollToError host (Finite l) ch s = None.
Proof.
  intros H. unfold scrollToError. apply Z.ltb_lt in H. now rewrite H.
Qed.

(** The cursor put on a line of the document is on that line and within
    it, at the column asked for when the line has one. *)
Lemma clipPos_inside text l ch :
  (0 <= l <= Z.of_N (lineCount text) - 1)%Z ->
  fst (clipPos text (Finite l) ch) = l /\
  (0 <= snd (clipPos text (Finite l) ch) <= line_length text l)%Z /\
  (forall c, ch = Finite c -> (0 <= c <= line_length text l)%Z ->
     clipPos text (Finite l) ch = (l, c)).
Proof.
  intros [H0 H1]. unfold clipPos.
  assert (Hlen : (0 <= line_length text l)%Z) by (unfold line_length; lia).
  apply Z.ltb_ge in H0. rewrite H0.
  assert (H1' : (Z.of_N (lineCount text) - 1 <? l)%Z = false) by (apply Z.ltb_ge; lia).
  rewrite H1'. cbn [fst snd]. split; [ reflexivity | ]. split.
  - destruct ch as [c | ]; [ | lia ].
    destruct (line_length text l <? c)%Z eqn:E1; [ lia | ].
    destruct (c <? 0)%Z eqn:E2; [ lia | ].
    apply Z.ltb_ge in E1, E2. lia.
  - intros c -> [Hc0 Hc1].
    assert (E1 : (line_length text l <? c)%Z = false) by (apply Z.ltb_ge; lia).
    assert (E2 : (c <? 0)%Z = false) by (apply Z.ltb_ge; lia).
    now rewrite E1, E2.
Qed.

(** (C8, as the code has it.)  When [jsonlint.parse] throws [e], Validate
    shows "Invalid JSON: " followed by the message, of type danger, and
    takes the position from the text of the message alone:
    [extractLineCol] looks for "line <digits>" and "column <digits>" in it
    and subtracts one from each number; the position fields of the
    exception are never read.  With no line found, Validate returns false
    and the cursor stays where it was.  With a line of the document found,
    it returns false and the cursor is on that line, at the column found
    (at column 0 when none is), clipped to the line.  With a line below 0
    found (the message says "line 0"), [cm.scrollIntoView] throws: Validate
    ends with that exception, the message shown and the cursor where it
    was.  With a line past the end of the document found, it is the same
    unless the editor displays the end of the document; then Validate
    returns false with the cursor at the end of the document. *)
Theorem validate_locates_from_message s e :
  trim (doc s) <> [] ->
  jsonlint_parse host (trim (doc s)) = Throws e ->
  let found := extractLineCol (ParseError.message e) in
  let shown :=
    setStatusType danger (setStatus (js "Invalid JSON: " ++ ParseError.message e) s) in
  let last := (Z.of_N (lineCount (doc s)) - 1)%Z in
  status (snd (validate host s)) = js "Invalid JSON: " ++ ParseError.message e /\
  statusType (snd (validate host s)) = danger /\
  cursor shown = cursor s /\
  (forall e', ParseError.message e' = ParseError.message e ->
     validate_catch host e' s = validate host s) /\
  (fst found = None -> validate host s = (Returned false, shown)) /\
  (forall l, fst found = Some (Finite l) -> (0 <= l <= last)%Z ->
     validate host s =
       (Returned false,
        setCursor (clipPos (doc s) (Finite l) (or_zero (snd found))) shown) /\
     fst (cursor (snd (validate host s))) = l /\
     (0 <= snd (cursor (snd (validate host s))) <= line_length (doc s) l)%Z /\
     (forall c, or_zero (snd found) = Finite c -> (0 <= c <= line_length (doc s) l)%Z ->
        cursor (snd (validate host s)) = (l, c))) /\
  (forall l, fst found = Some (Finite l) -> (l < 0)%Z ->
     validate host s = (Thrown, shown)) /\
  (forall line, fst found = Some line ->
     line = Infinity \/ (exists l, line = Finite l /\ (last < l)%Z) ->
     validate host s =
       if shows_end host (doc s)
       then (Returned false, setCursor (last, line_length (doc s) last) shown)
       else (Thrown, shown)).
Proof.
  intros Hne Hthrow found shown last.
  rewrite (validate_throws _ _ Hne Hthrow).
  destruct (validate_catch_status e s) as [Hs [Hty _]].
  split; [ exact Hs | ]. split; [ exact Hty | ]. split; [ reflexivity | ].
  split; [ intros e' He'; now apply validate_catch_message_only | ].
  unfold validate_catch. subst found.
  destruct (extractLineCol (ParseError.message e)) as [line col]. cbn [fst snd].
  fold shown. split; [ | split; [ | split ] ].
  - now intros ->.
  - intros l -> Hl.
    rewrite (scrollToError_inside l (or_zero col) shown Hl). cbn [snd].
    change (doc shown) with (doc s).
    destruct (clipPos_inside (doc s) l (or_zero col) Hl) as [H1 [H2 H3]].
    repeat split; try assumption; apply H2.
  - intros l -> Hl. now rewrite (scrollToError_below l (or_zero col) shown Hl).
  - intros line0 -> Hpast. unfold scrollToError. change (doc shown) with (doc s).
    fold last. destruct Hpast as [-> | [l [-> Hl]]].
    + destruct (shows_end host (doc s)); reflexivity.
    + assert (E0 : (l <? 0)%Z = false).
      { apply Z.ltb_ge. unfold last in Hl. lia. }
      assert (E1 : (l <=? last)%Z = false) by (apply Z.leb_gt; exact Hl).
      rewrite E0, E1. destruct (shows_end host (doc s)); [ | reflexivity ].
      unfold clipPos. fold last. rewrite E0.
      assert (E2 : (last <? l)%Z = true) by (apply Z.ltb_lt; exact Hl).
      now rewrite E2.
Qed.

(** ** The debounced validation *)

Lemma edit_reads_shell s s' text caret :
  shell s = shell s' -> step host s (Edit text caret) = step host s' (Edit text caret).
Proof.
  unfold shell. intros H. injection H as H1 H2 H3 H4.
  unfold step, onChange, updateKpis, setTimer, setKeys, setLines, setSize,
    setCursor, replaceDoc. simpl. now rewrite H1, H2, H3, H4.
Qed.

Lemma edit_then_pause_shell s text caret pause :
  (pause < 400)%N ->
  shell (step host (step host s (Edit text caret)) (Elapse pause)) = shell s.
Proof.
  intros Hp. unfold step at 1. unfold step, onChange. simpl.
  apply N.ltb_lt in Hp. now rewrite Hp.
Qed.

Lemma burst_unobserved edits :
  Forall (fun e => (snd e < 400)%N) edits ->
  forall s last caret,
    run host s (burst edits ++ [Edit last caret]) = step host s (Edit last caret).
Proof.
  induction 1 as [ | [[text c] pause] edits Hp _ IH ]; intros s last caret.
  - reflexivity.
  - unfold run in *. simpl in *. rewrite IH. apply edit_reads_shell.
    now apply edit_then_pause_shell.
Qed.

(** (C9, as the code has it.)  Every edit recomputes the three metrics at
    once and replaces the pending validation by one due 400 ms later.
    After any burst of edits with pauses shorter than 400 ms the state is
    the one the last edit alone would have produced: no validation has run
    and the status is untouched.  Once 400 ms pass without an edit the
    validation runs, once, on the document of the last edit.  Validate,
    Format, Minify and Sort Keys run within the event that triggers them
    and Validate leaves the pending timeout alone. *)
Theorem debounce_last_edit_wins s edits last caret quiet :
  Forall (fun e => (snd e < 400)%N) edits ->
  (400 <= quiet)%N ->
  let s1 := run host s (burst edits ++ [Edit last caret]) in
  s1 = step host s (Edit last caret) /\
  size s1 = byteSize (doc s1) /\
  lines s1 = lineCount (doc s1) /\
  keys s1 = keysCount (JSON_parse host (doc s1)) /\
  status s1 = status s /\
  timer s1 = Some 400%N /\
  step host s1 (Elapse quiet) = onTimeout host (setTimer None s1) /\
  doc (step host s1 (Elapse quiet)) = joinLines (splitLines last) /\
  timer (step host s1 (Elapse quiet)) = None /\
  step host s ClickValidate = snd (validate host s) /\
  timer (step host s ClickValidate) = timer s /\
  step host s ClickFormat = formatJson host (indent s) s /\
  step host s ClickMinify = minifyJson host s /\
  step host s ClickSortKeys = sortKeys host s.
Proof.
  intros Hp Hq s1. subst s1. rewrite (burst_unobserved edits Hp).
  assert (Hfire : step host (step host s (Edit last caret)) (Elapse quiet) =
                  onTimeout host (setTimer None (step host s (Edit last caret)))).
  { unfold step at 1. unfold step, onChange. simpl.
    apply N.ltb_ge in Hq. now rewrite Hq. }
  rewrite Hfire.
  destruct (validate_frame (setTimer None (step host s (Edit last caret))))
    as [Hdoc [_ [_ [_ [_ [_ Htimer]]]]]].
  destruct (validate_frame s) as [_ [_ [_ [_ [_ [_ Htimer']]]]]].
  repeat split; try exact Htimer'.
  - unfold onTimeout.
    destruct (validate host (setTimer None (step host s (Edit last caret))))
      as [[[ | ] | ] s2]; simpl in *; exact Hdoc.
  - unfold onTimeout.
    destruct (validate host (setTimer None (step host s (Edit last caret))))
      as [[[ | ] | ] s2]; simpl in *; exact Htimer.
Qed.

End ComponentFacts.

(** ** Strings: the parser reads back what QuoteJSONString writes *)

Lemma hex_digit_value (d : N) : (d < 16)%N -> hex_value (hex_digit d) = Some d.
Proof.
  intros H.
  assert (Hd : In d [0; 1; 2; 3; 4; 5; 6; 7; 8; 9; 10; 11; 12; 13; 14; 15]%N).
  { simpl. lia. }
  simpl in Hd.
  repeat (destruct Hd as [<- | Hd]; [ reflexivity | ]). destruct Hd.
Qed.

Lemma hex_digits_value (c : N) :
  (c < 65536)%N ->
  ((((c / 4096) mod 16 * 16 + (c / 256) mod 16) * 16 + (c / 16) mod 16) * 16
   + c mod 16 = c)%N.
Proof.
  intros H.
  pose proof (N.div_mod c 16). pose proof (N.mod_lt c 16).
  pose proof (N.div_mod (c / 16) 16). pose proof (N.mod_lt (c / 16) 16).
  pose proof (N.div_mod (c / 256) 16). pose proof (N.mod_lt (c / 256) 16).
  assert (E1 : (c / 256 = c / 16 / 16)%N) by (now rewrite N.Div0.div_div).
  assert (E2 : (c / 4096 = c / 256 / 16)%N) by (now rewrite N.Div0.div_div).
  assert (E3 : ((c / 4096) mod 16 = c / 4096)%N).
  { apply N.mod_small. apply N.Div0.div_lt_upper_bound. lia. }
  rewrite E3, E2. rewrite E1 in *. lia.
Qed.

Lemma lex_unicode_escape (c : N) (t : jsstring) :
  (c < 65536)%N -> lex_string (unicode_escape c ++ t) = prepend c (lex_string t).
Proof.
  intros H. unfold unicode_escape.
  cbn [app lex_string]. change (N.eqb 92 34) with false. change (N.eqb 92 92) with true.
  change (N.eqb 117 117) with true. cbv iota.
  rewrite !hex_digit_value by (apply N.mod_lt; discriminate).
  now rewrite hex_digits_value.
Qed.

Lemma lex_string_quote_chars (n : nat) :
  forall s rest, (List.length s <= n)%nat ->
  lex_string (quote_chars s ++ 34%N :: rest) = Ok s rest.
Proof.
  induction n as [ | n IH ]; intros [ | c t ] rest Hlen; cbn [List.length] in Hlen;
    try reflexivity; try lia.
  assert (IHt : lex_string (quote_chars t ++ 34%N :: rest) = Ok t rest)
    by (apply IH; lia).
  cbn [quote_chars].
  destruct (N.eqb c 8) eqn:E8; [ apply N.eqb_eq in E8; subst; cbn; now rewrite IHt | ].
  destruct (N.eqb c 9) eqn:E9; [ apply N.eqb_eq in E9; subst; cbn; now rewrite IHt | ].
  destruct (N.eqb c 10) eqn:E10; [ apply N.eqb_eq in E10; subst; cbn; now rewrite IHt | ].
  destruct (N.eqb c 12) eqn:E12; [ apply N.eqb_eq in E12; subst; cbn; now rewrite IHt | ].
  destruct (N.eqb c 13) eqn:E13; [ apply N.eqb_eq in E13; subst; cbn; now rewrite IHt | ].
  destruct (N.eqb c 34) eqn:E34; [ apply N.eqb_eq in E34; subst; cbn; now rewrite IHt | ].
  destruct (N.eqb c 92) eqn:E92; [ apply N.eqb_eq in E92; subst; cbn; now rewrite IHt | ].
  destruct (N.ltb c 32) eqn:E32.
  { apply N.ltb_lt in E32. rewrite <- app_assoc, lex_unicode_escape by lia.
    now rewrite IHt. }
  assert (Raw : forall x u, N.eqb x 34 = false -> N.eqb x 92 = false ->
                N.ltb x 32 = false -> lex_string (x :: u) = prepend x (lex_string u)).
  { intros x u H1 H2 H3. cbn [lex_string]. now rewrite H1, H2, H3. }
  destruct (is_high_surrogate c) eqn:Eh.
  { unfold is_high_surrogate in Eh. apply andb_true_iff in Eh.
    destruct Eh as [Eh1 Eh2]. apply N.leb_le in Eh1, Eh2.
    destruct t as [ | d t' ].
    - rewrite lex_unicode_escape by lia. reflexivity.
    - destruct (is_low_surrogate d) eqn:El.
      + unfold is_low_surrogate in El. apply andb_true_iff in El.
        destruct El as [El1 El2]. apply N.leb_le in El1, El2.
        cbn [app]. rewrite Raw by assumption.
        rewrite Raw by (try apply N.eqb_neq; try apply N.ltb_ge; lia).
        rewrite IH by (cbn [List.length] in Hlen; lia). reflexivity.
      + rewrite <- app_assoc, lex_unicode_escape by lia. now rewrite IHt. }
  destruct (is_low_surrogate c) eqn:El.
  { unfold is_low_surrogate in El. apply andb_true_iff in El.
    destruct El as [El1 El2]. apply N.leb_le in El1, El2.
    rewrite <- app_assoc, lex_unicode_escape by lia. now rewrite IHt. }
  cbn [app]. rewrite Raw by assumption. now rewrite IHt.
Qed.

Lemma lex_QuoteJSONString (s rest : jsstring) :
  exists body, QuoteJSONString s ++ rest = 34%N :: body /\ lex_string body = Ok s rest.
Proof.
  exists (quote_chars s ++ 34%N :: rest). split.
  - unfold QuoteJSONString. cbn [app]. now rewrite <- app_assoc.
  - now apply lex_string_quote_chars with (n := List.length s).
Qed.

(** ** Numbers *)

Lemma takeWhile_dropWhile (p : N -> bool) (s : jsstring) :
  takeWhile p s ++ dropWhile p s = s.
Proof.
  induction s as [ | c t IH ]; simpl; [ reflexivity | ].
  destruct (p c); simpl; [ now rewrite IH | reflexivity ].
Qed.

Lemma forallb_takeWhile (p : N -> bool) (s : jsstring) :
  forallb p (takeWhile p s) = true.
Proof.
  induction s as [ | c t IH ]; simpl; [ reflexivity | ].
  destruct (p c) eqn:E; simpl; [ now rewrite E | reflexivity ].
Qed.

Lemma span_app (p : N -> bool) (a rest : jsstring) :
  forallb p a = true ->
  match rest with [] => True | c :: _ => p c = false end ->
  takeWhile p (a ++ rest) = a /\ dropWhile p (a ++ rest) = rest.
Proof.
  intros Ha Hrest. induction a as [ | c t IH ]; simpl in *.
  - destruct rest as [ | c t ]; [ now split | ]. simpl. now rewrite Hrest.
  - apply andb_true_iff in Ha. destruct Ha as [Hc Ht]. rewrite Hc.
    destruct (IH Ht) as [-> ->]. now split.
Qed.

Lemma digit_number_char (c : N) : is_digit c = true -> is_number_char c = true.
Proof. unfold is_number_char. now intros ->. Qed.

Lemma digits_number_chars (s : jsstring) :
  forallb is_digit s = true -> forallb is_number_char s = true.
Proof.
  rewrite !forallb_forall. intros H c Hc. apply digit_number_char. now apply H.
Qed.

Lemma digits1_chars (s : jsstring) :
  digits1 s = true -> forallb is_number_char s = true.
Proof.
  destruct s as [ | c t ]; [ discriminate | ]. apply digits_number_chars.
Qed.

Lemma exponent_ok_chars (r : jsstring) :
  exponent_ok r = true -> forallb is_number_char r = true.
Proof.
  destruct r as [ | e r' ]; [ reflexivity | ]. cbn [exponent_ok].
  intros H. apply andb_true_iff in H. destruct H as [He H].
  cbn [forallb]. apply andb_true_iff. split.
  - unfold is_number_char. apply orb_true_iff in He.
    destruct He as [-> | ->]; now rewrite ?orb_true_r.
  - destruct r' as [ | sign ds ]; [ discriminate | ].
    destruct (N.eqb sign 43 || N.eqb sign 45) eqn:Es.
    + cbn [forallb]. apply andb_true_iff. split; [ | now apply digits1_chars ].
      unfold is_number_char. apply orb_true_iff in Es.
      destruct Es as [-> | ->]; now rewrite ?orb_true_r.
    + now apply digits1_chars.
Qed.

Lemma fraction_ok_chars (r : jsstring) :
  fraction_ok r = true -> forallb is_number_char r = true.
Proof.
  destruct r as [ | c r' ]; [ reflexivity | ]. cbn [fraction_ok].
  destruct (N.eqb c 46) eqn:Ec.
  - intros H. apply andb_true_iff in H. destruct H as [Hd He].
    cbn [forallb]. apply andb_true_iff. split.
    + unfold is_number_char. now rewrite Ec, ?orb_true_r.
    + rewrite <- (takeWhile_dropWhile is_digit r'), forallb_app.
      rewrite (digits1_chars _ Hd). now apply exponent_ok_chars.
  - apply exponent_ok_chars.
Qed.

Lemma number_body_chars (body : jsstring) :
  match body with
  | [] => false
  | c :: r =>
      if N.eqb c 48 then fraction_ok r
      else is_digit c && fraction_ok (dropWhile is_digit r)
  end = true ->
  forallb is_number_char body = true /\
  exists c tl, body = c :: tl /\ is_digit c = true.
Proof.
  destruct body as [ | c r ]; [ discriminate | ].
  destruct (N.eqb c 48) eqn:Ec.
  - apply N.eqb_eq in Ec. subst c. intros H. split.
    + cbn [forallb]. now rewrite (fraction_ok_chars _ H).
    + now exists 48%N, r.
  - intros H. apply andb_true_iff in H. destruct H as [Hc Hf]. split.
    + cbn [forallb]. rewrite (digit_number_char _ Hc). cbn [andb].
      rewrite <- (takeWhile_dropWhile is_digit r), forallb_app.
      rewrite (digits_number_chars _ (forallb_takeWhile is_digit r)).
      now apply fraction_ok_chars.
    + now exists c, r.
Qed.

(** A number literal is made of number characters and starts with a minus
    sign or a digit. *)
Lemma number_literal_chars (tok : jsstring) :
  number_literal tok = true ->
  forallb is_number_char tok = true /\
  exists c tl, tok = c :: tl /\ (N.eqb c 45 || is_digit c) = true.
Proof.
  unfold number_literal. destruct tok as [ | c r ]; [ discriminate | ].
  destruct (N.eqb c 45) eqn:Ec.
  - intros H. apply number_body_chars in H. destruct H as [H _]. split.
    + cbn [forallb]. rewrite H. unfold is_number_char. now rewrite Ec, ?orb_true_r.
    + exists c, r. now rewrite Ec.
  - intros H. apply (number_body_chars (c :: r)) in H.
    destruct H as [H [c' [tl [E Hd]]]]. split; [ exact H | ].
    exists c', tl. split; [ exact E | ]. now rewrite Hd, orb_true_r.
Qed.

Lemma lex_number_literal (StringToNumber : jsstring -> float) (tok rest : jsstring) :
  number_literal tok = true -> delimited rest ->
  lex_number StringToNumber (tok ++ rest) = Ok (JNumber (StringToNumber tok)) rest.
Proof.
  intros Htok Hrest. unfold lex_number.
  destruct (number_literal_chars _ Htok) as [Hchars _].
  destruct (span_app is_number_char tok rest Hchars Hrest) as [-> ->].
  now rewrite Htok.
Qed.

(** ** White space *)

Lemma skip_ws_app (W s : jsstring) :
  forallb is_ws W = true -> skip_ws (W ++ s) = skip_ws s.
Proof.
  induction W as [ | c t IH ]; simpl; [ reflexivity | ].
  intros H. apply andb_true_iff in H. destruct H as [Hc Ht].
  unfold skip_ws in *. cbn [dropWhile]. rewrite Hc. now apply IH.
Qed.

Lemma skip_ws_prefix (W : jsstring) (c : N) (s : jsstring) :
  forallb is_ws W = true -> is_ws c = false -> skip_ws (W ++ c :: s) = c :: s.
Proof.
  intros HW Hc. rewrite skip_ws_app by exact HW. unfold skip_ws.
  cbn [dropWhile]. now rewrite Hc.
Qed.

Lemma skip_ws_head (c : N) (s : jsstring) :
  is_ws c = false -> skip_ws (c :: s) = c :: s.
Proof. intros H. unfold skip_ws. cbn [dropWhile]. now rewrite H. Qed.

Lemma ws_not_number_char (c : N) : is_ws c = true -> is_number_char c = false.
Proof.
  unfold is_ws. rewrite !orb_true_iff, !N.eqb_eq.
  intros [[[-> | ->] | ->] | ->]; reflexivity.
Qed.

Lemma delimited_ws (W rest : jsstring) (c : N) :
  forallb is_ws W = true -> is_number_char c = false -> delimited (W ++ c :: rest).
Proof.
  destruct W as [ | w W' ]; simpl; [ tauto | ].
  intros H _. apply andb_true_iff in H. destruct H as [Hw _].
  now apply ws_not_number_char.
Qed.

(** ** Objects read back *)

Lemma members_object_from (members acc : object) :
  NoDup (Object_keys (acc ++ members)) -> fold_left put members acc = acc ++ members.
Proof.
  revert acc. induction members as [ | [k v] ms IH ]; intros acc Hnd; simpl.
  - now rewrite app_nil_r.
  - assert (Hfresh : has_prop k acc = false).
    { apply has_prop_fresh. unfold Object_keys in Hnd. rewrite map_app in Hnd.
      simpl in Hnd. apply NoDup_remove_2 in Hnd. intros Hin. apply Hnd.
      apply in_or_app. now left. }
    unfold put at 2. cbn [fst snd]. rewrite Hfresh.
    rewrite IH; rewrite <- app_assoc; [ reflexivity | exact Hnd ].
Qed.

Lemma members_object_unique (members : object) :
  NoDup (Object_keys members) -> members_object members = members.
Proof. intros H. unfold members_object. now rewrite members_object_from. Qed.

(** ** The parser reads back what the serializer writes *)


Section RoundTrip.

Variable Number_toString : float -> jsstring.
Variable StringToNumber : jsstring -> float.

Local Abbreviation ser := (SerializeJSONProperty Number_toString).
Local Abbreviation pv := (parse_value StringToNumber).
Local Abbreviation pe := (parse_elements StringToNumber).
Local Abbreviation pm := (parse_members StringToNumber).
Local Abbreviation num_ok := (number_ok Number_toString StringToNumber).
Local Abbreviation reads_back := (reads_back Number_toString StringToNumber).
Local Abbreviation member_text := (member_text Number_toString).

(** A serialized value starts with a character that is neither white
    space nor a closing bracket. *)
Lemma ser_head gap ind v :
  Forall num_ok (numbers_of v) ->
  exists c tl, ser gap ind v = c :: tl /\ is_ws c = false /\ N.eqb c 93 = false.
Proof.
  destruct v as [ | [ | ] | n | s | l | o ]; intros Hnum; cbn [SerializeJSONProperty].
  - now exists 110%N, (js "ull").
  - now exists 116%N, (js "rue").
  - now exists 102%N, (js "alse").
  - cbn [numbers_of] in Hnum. inversion Hnum as [ | ? ? [Hfin [Hlit _]] _ ]; subst.
    rewrite Hfin. destruct (number_literal_chars _ Hlit) as [_ [c [tl [E Hc]]]].
    exists c, tl. split; [ exact E | ].
    apply orb_true_iff in Hc. destruct Hc as [Hc | Hc].
    + apply N.eqb_eq in Hc. now subst c.
    + unfold is_digit in Hc. apply andb_true_iff in Hc. destruct Hc as [H1 H2].
      apply N.leb_le in H1, H2. unfold is_ws.
      split; [ repeat (apply orb_false_iff; split) | ]; apply N.eqb_neq; lia.
  - now exists 34%N, (quote_chars s ++ [34%N]).
  - destruct (map (SerializeJSONProperty Number_toString gap (ind ++ gap)) l).
    + now exists 91%N, [93%N].
    + destruct gap; eexists 91%N, _; (split; [ reflexivity | now split ]).
  - destruct (map _ o).
    + now exists 123%N, [125%N].
    + destruct gap; eexists 123%N, _; (split; [ reflexivity | now split ]).
Qed.

Lemma pv_open_array f W r d r' :
  forallb is_ws W = true -> skip_ws r = d :: r' -> N.eqb d 93 = false ->
  pv (S f) (W ++ 91%N :: r) =
  match pe f r with
  | Ok elems rest => Ok (JArray elems) rest
  | Err expected rest => Err expected rest
  end.
Proof.
  intros HW Hr Hd. cbn [parse_value]. rewrite skip_ws_app by exact HW.
  rewrite skip_ws_head by reflexivity.
  change (N.eqb 91 123) with false. change (N.eqb 91 91) with true. cbv iota.
  now rewrite Hr, Hd.
Qed.

Lemma pv_open_object f W r body :
  forallb is_ws W = true -> skip_ws r = 34%N :: body ->
  pv (S f) (W ++ 123%N :: r) =
  match pm f r with
  | Ok members rest => Ok (JObject (members_object members)) rest
  | Err expected rest => Err expected rest
  end.
Proof.
  intros HW Hr. cbn [parse_value]. rewrite skip_ws_app by exact HW.
  rewrite skip_ws_head by reflexivity.
  change (N.eqb 123 123) with true. cbv iota.
  rewrite Hr. reflexivity.
Qed.

Lemma elements_read_back l' :
  forall e, reads_back e -> Forall reads_back l' ->
  forall gap ind Wsep W W2 rest fuel,
    forallb is_ws gap = true -> forallb is_ws ind = true ->
    forallb is_ws Wsep = true -> forallb is_ws W = true ->
    forallb is_ws W2 = true ->
    (list_sum (map (fun x => S (weight x)) (e :: l')) <= fuel)%nat ->
    pe fuel (W ++ join (44%N :: Wsep) (map (ser gap ind) (e :: l')) ++
             W2 ++ 93%N :: rest) = Ok (e :: l') rest.
Proof.
  induction l' as [ | e2 l'' IH ]; intros e He Hall gap ind Wsep W W2 rest fuel
    Hgap Hind HWsep HW HW2 Hfuel; cbn [map list_sum fold_right] in Hfuel;
    (destruct fuel as [ | f ]; [ lia | ]); cbn [parse_elements map].
  - cbn [join]. rewrite He; try assumption; try lia;
      [ | now apply delimited_ws ].
    rewrite skip_ws_app by exact HW2. rewrite skip_ws_head by reflexivity.
    reflexivity.
  - inversion Hall as [ | ? ? He2 Hall' ]; subst.
    change (join (44%N :: Wsep) (ser gap ind e :: ser gap ind e2 :: map (ser gap ind) l''))
      with (ser gap ind e ++ (44%N :: Wsep) ++
            join (44%N :: Wsep) (map (ser gap ind) (e2 :: l''))).
    rewrite <- !app_assoc. cbn [app].
    rewrite He; try assumption; try lia; [ | reflexivity ].
    rewrite skip_ws_head by reflexivity.
    change (N.eqb 44 44) with true. cbv iota.
    rewrite IH; try assumption; [ reflexivity | ].
    cbn [map list_sum fold_right]. lia.
Qed.

Lemma members_read_back ps :
  forall kv, reads_back (snd kv) -> Forall (fun x => reads_back (snd x)) ps ->
  forall gap ind sp Wsep W W2 rest fuel,
    forallb is_ws gap = true -> forallb is_ws ind = true ->
    forallb is_ws sp = true ->
    forallb is_ws Wsep = true -> forallb is_ws W = true ->
    forallb is_ws W2 = true ->
    (list_sum (map (fun x => S (weight (snd x))) (kv :: ps)) <= fuel)%nat ->
    pm fuel (W ++ join (44%N :: Wsep) (map (member_text gap ind sp) (kv :: ps)) ++
             W2 ++ 125%N :: rest) = Ok (kv :: ps) rest.
Proof.
  induction ps as [ | kv2 ps' IH ]; intros [k v] Hv Hall gap ind sp Wsep W W2 rest fuel
    Hgap Hind Hsp HWsep HW HW2 Hfuel; cbn [map list_sum fold_right snd] in Hfuel;
    (destruct fuel as [ | f ]; [ lia | ]); cbn [parse_members map];
    rewrite skip_ws_app by exact HW.
  - cbn [join]. unfold member_text. cbn [fst snd]. reassoc.
    destruct (lex_QuoteJSONString k
                (58%N :: sp ++ ser gap ind v ++ W2 ++ 125%N :: rest))
      as [body [-> Hbody]].
    rewrite skip_ws_head by reflexivity.
    change (N.eqb 34 34) with true. cbv iota. rewrite Hbody.
    rewrite skip_ws_head by reflexivity.
    change (N.eqb 58 58) with true. cbv iota.
    cbn [snd] in Hv. rewrite Hv; try assumption; try lia;
      [ | now apply delimited_ws ].
    rewrite skip_ws_app by exact HW2. rewrite skip_ws_head by reflexivity.
    reflexivity.
  - inversion Hall as [ | ? ? Hv2 Hall' ]; subst.
    change (join (44%N :: Wsep)
              (member_text gap ind sp (k, v) :: member_text gap ind sp kv2 ::
               map (member_text gap ind sp) ps'))
      with (member_text gap ind sp (k, v) ++ (44%N :: Wsep) ++
            join (44%N :: Wsep) (map (member_text gap ind sp) (kv2 :: ps'))).
    unfold member_text at 1. cbn [fst snd]. reassoc.
    destruct (lex_QuoteJSONString k
                (58%N :: sp ++ ser gap ind v ++ 44%N :: Wsep ++
                 join (44%N :: Wsep) (map (member_text gap ind sp) (kv2 :: ps')) ++
                 W2 ++ 125%N :: rest))
      as [body [-> Hbody]].
    rewrite skip_ws_head by reflexivity.
    change (N.eqb 34 34) with true. cbv iota. rewrite Hbody.
    rewrite skip_ws_head by reflexivity.
    change (N.eqb 58 58) with true. cbv iota.
    cbn [snd] in Hv. rewrite Hv; try assumption; try lia; [ | reflexivity ].
    rewrite skip_ws_head by reflexivity.
    change (N.eqb 44 44) with true. cbv iota.
    rewrite IH; try assumption; [ reflexivity | ].
    cbn [map list_sum fold_right]. lia.
Qed.

Lemma join_head (sep x : jsstring) (xs : list jsstring) :
  exists tail, join sep (x :: xs) = x ++ tail.
Proof.
  destruct xs as [ | y ys ].
  - exists []. cbn [join]. now rewrite app_nil_r.
  - now exists (sep ++ join sep (y :: ys)).
Qed.

Lemma digit_dispatch (c : N) :
  is_digit c = true ->
  is_ws c = false /\ N.eqb c 123 = false /\ N.eqb c 91 = false /\
  N.eqb c 34 = false /\ N.eqb c 116 = false /\ N.eqb c 102 = false /\
  N.eqb c 110 = false.
Proof.
  unfold is_digit. intros H. apply andb_true_iff in H. destruct H as [H1 H2].
  apply N.leb_le in H1, H2. unfold is_ws.
  repeat split; try (repeat (apply orb_false_iff; split)); apply N.eqb_neq; lia.
Qed.

Lemma number_reads_back n : num_ok n -> reads_back (JNumber n).
Proof.
  intros [Hfin [Hlit Hback]] gap ind W rest fuel Hgap Hind HW Hfuel Hrest.
  destruct fuel as [ | f ]; [ cbn in Hfuel; lia | ].
  cbn [parse_value SerializeJSONProperty]. rewrite Hfin.
  rewrite skip_ws_app by exact HW.
  pose proof (lex_number_literal StringToNumber _ _ Hlit Hrest) as Hlex.
  rewrite Hback in Hlex.
  destruct (number_literal_chars _ Hlit) as [_ [c [tl [E Hc]]]].
  rewrite E in *. cbn [app] in *.
  apply orb_true_iff in Hc. destruct Hc as [Hc | Hc].
  - apply N.eqb_eq in Hc. subst c. rewrite skip_ws_head by reflexivity.
    exact Hlex.
  - destruct (digit_dispatch _ Hc) as [H0 [H1 [H2 [H3 [H4 [H5 H6]]]]]].
    rewrite skip_ws_head by exact H0.
    rewrite H1, H2, H3, H4, H5, H6, Hc, orb_true_r. exact Hlex.
Qed.

Lemma string_reads_back s : reads_back (JString s).
Proof.
  intros gap ind W rest fuel Hgap Hind HW Hfuel Hrest.
  destruct fuel as [ | f ]; [ cbn in Hfuel; lia | ].
  cbn [parse_value SerializeJSONProperty]. rewrite skip_ws_app by exact HW.
  destruct (lex_QuoteJSONString s rest) as [body [-> Hbody]].
  rewrite skip_ws_head by reflexivity.
  change (N.eqb 34 123) with false. change (N.eqb 34 91) with false.
  change (N.eqb 34 34) with true. cbv iota. now rewrite Hbody.
Qed.

Lemma literal_reads_back v :
  match v with JNull | JBool _ => True | _ => False end -> reads_back v.
Proof.
  intros Hv gap ind W rest fuel Hgap Hind HW Hfuel Hrest.
  destruct fuel as [ | f ]; [ destruct v; cbn in Hfuel; lia | ].
  destruct v as [ | [ | ] | | | | ]; try contradiction;
    cbn [parse_value SerializeJSONProperty]; rewrite skip_ws_app by exact HW;
    reflexivity.
Qed.

Lemma array_reads_back l : Forall reads_back l ->
  Forall num_ok (numbers_of (JArray l)) -> reads_back (JArray l).
Proof.
  intros Hall Hnum gap ind W rest fuel Hgap Hind HW Hfuel Hrest.
  destruct fuel as [ | f ]; [ cbn in Hfuel; lia | ].
  cbn [weight] in Hfuel. apply le_S_n in Hfuel.
  destruct l as [ | e l' ].
  - cbn [parse_value SerializeJSONProperty map]. rewrite skip_ws_app by exact HW.
    reflexivity.
  - inversion Hall as [ | ? ? He Hall' ]; subst.
    assert (Hne : Forall num_ok (numbers_of e)).
    { cbn [numbers_of flat_map] in Hnum. apply Forall_app in Hnum. tauto. }
    assert (Hind' : forallb is_ws (ind ++ gap) = true)
      by (now rewrite forallb_app, Hind, Hgap).
    cbn [SerializeJSONProperty].
    change (map (SerializeJSONProperty Number_toString gap (ind ++ gap)) (e :: l'))
      with (ser gap (ind ++ gap) e :: map (ser gap (ind ++ gap)) l').
    cbv iota.
    destruct (ser_head gap (ind ++ gap) e Hne) as [c [tl [Ec [Hc1 Hc2]]]].
    destruct (join_head (44%N :: match gap with [] => [] | _ :: _ => 10%N :: ind ++ gap end)
                (ser gap (ind ++ gap) e) (map (ser gap (ind ++ gap)) l'))
      as [tail Etail].
    destruct gap as [ | g gap' ].
    + pose proof (elements_read_back l' e He Hall' [] (ind ++ []) [] [] [] rest f
                    Hgap Hind' eq_refl eq_refl eq_refl Hfuel) as Hpe.
      change (js "[" ++ join (js ",") (ser [] (ind ++ []) e :: map (ser [] (ind ++ [])) l')
              ++ js "]")
        with (91%N :: join [44%N] (map (ser [] (ind ++ [])) (e :: l')) ++ [93%N]).
      reassoc.
      rewrite pv_open_array with (d := c) (r' := tl ++ tail ++ 93%N :: rest);
        [ | exact HW | | exact Hc2 ].
      * revert Hpe. reassoc. now intros ->.
      * cbn [map]. revert Etail Ec. reassoc. intros -> ->. reassoc.
        now apply skip_ws_head.
    + assert (HW1 : forallb is_ws (10%N :: ind ++ g :: gap') = true)
        by (cbn [forallb]; now rewrite Hind').
      assert (HW2 : forallb is_ws (10%N :: ind) = true)
        by (cbn [forallb]; now rewrite Hind).
      pose proof (elements_read_back l' e He Hall' (g :: gap') (ind ++ g :: gap')
                    (10%N :: ind ++ g :: gap') (10%N :: ind ++ g :: gap') (10%N :: ind)
                    rest f Hgap Hind' HW1 HW1 HW2 Hfuel) as Hpe.
      change (js "[" ++ 10%N :: (ind ++ g :: gap') ++
              join (js "," ++ 10%N :: ind ++ g :: gap')
                (ser (g :: gap') (ind ++ g :: gap') e ::
                 map (ser (g :: gap') (ind ++ g :: gap')) l') ++
              10%N :: ind ++ js "]")
        with (91%N :: (10%N :: ind ++ g :: gap') ++
              join (44%N :: 10%N :: ind ++ g :: gap')
                (map (ser (g :: gap') (ind ++ g :: gap')) (e :: l')) ++
              (10%N :: ind) ++ [93%N]).
      reassoc.
      rewrite pv_open_array with (d := c)
        (r' := tl ++ tail ++ 10%N :: ind ++ 93%N :: rest);
        [ | exact HW | | exact Hc2 ].
      * revert Hpe. reassoc. now intros ->.
      * cbn [map]. rewrite Etail, Ec.
        rewrite <- (skip_ws_prefix (10%N :: ind ++ g :: gap') c
                      (tl ++ tail ++ 10%N :: ind ++ 93%N :: rest) HW1 Hc1).
        f_equal. reassoc. reflexivity.
Qed.

Lemma member_text_map gap ind (props : object) :
  map (fun kv : jsstring * JsonValue =>
         let '(k, v) := kv in
         QuoteJSONString k ++ js ":" ++
         match gap with [] => [] | _ :: _ => js " " end ++ ser gap ind v) props =
  map (member_text gap ind match gap with [] => [] | _ :: _ => [32%N] end) props.
Proof. apply map_ext. intros [k v]. now destruct gap. Qed.

Lemma object_reads_back props :
  Forall (fun kv => reads_back (snd kv)) props ->
  NoDup (Object_keys props) -> reads_back (JObject props).
Proof.
  intros Hall Hnd gap ind W rest fuel Hgap Hind HW Hfuel Hrest.
  destruct fuel as [ | f ]; [ cbn in Hfuel; lia | ].
  cbn [weight] in Hfuel. apply le_S_n in Hfuel.
  cbn [SerializeJSONProperty]. rewrite member_text_map.
  destruct props as [ | [k v] ps ].
  - cbn [parse_value map]. rewrite skip_ws_app by exact HW. reflexivity.
  - inversion Hall as [ | ? ? Hv Hall' ]; subst.
    assert (Hind' : forallb is_ws (ind ++ gap) = true)
      by (now rewrite forallb_app, Hind, Hgap).
    cbn [map]. cbv iota.
    destruct (join_head (44%N :: match gap with [] => [] | _ :: _ => 10%N :: ind ++ gap end)
                (member_text gap (ind ++ gap)
                   match gap with [] => [] | _ :: _ => [32%N] end (k, v))
                (map (member_text gap (ind ++ gap)
                        match gap with [] => [] | _ :: _ => [32%N] end) ps))
      as [tail Etail].
    rewrite <- (members_object_unique ((k, v) :: ps) Hnd).
    destruct gap as [ | g gap' ].
    + pose proof (members_read_back ps (k, v) Hv Hall' [] (ind ++ []) [] [] [] [] rest f
                    Hgap Hind' eq_refl eq_refl eq_refl eq_refl Hfuel) as Hpm.
      change (js "{" ++
              join (js ",") (member_text [] (ind ++ []) [] (k, v) ::
                             map (member_text [] (ind ++ []) []) ps) ++ js "}")
        with (123%N :: join [44%N] (map (member_text [] (ind ++ []) []) ((k, v) :: ps))
              ++ [125%N]).
      reassoc.
      rewrite pv_open_object with (body := quote_chars k ++ 34%N :: 58%N ::
                                     ser [] ind v ++ tail ++ 125%N :: rest);
        [ | exact HW | ].
      * revert Hpm. reassoc. now intros ->.
      * cbn [map]. revert Etail. reassoc. intros ->.
        unfold member_text, QuoteJSONString. cbn [fst snd]. reassoc.
        now apply skip_ws_head.
    + assert (HW1 : forallb is_ws (10%N :: ind ++ g :: gap') = true)
        by (cbn [forallb]; now rewrite Hind').
      assert (HW2 : forallb is_ws (10%N :: ind) = true)
        by (cbn [forallb]; now rewrite Hind).
      pose proof (members_read_back ps (k, v) Hv Hall' (g :: gap') (ind ++ g :: gap')
                    [32%N] (10%N :: ind ++ g :: gap') (10%N :: ind ++ g :: gap')
                    (10%N :: ind) rest f Hgap Hind' eq_refl HW1 HW1 HW2 Hfuel) as Hpm.
      change (js "{" ++ 10%N :: (ind ++ g :: gap') ++
              join (js "," ++ 10%N :: ind ++ g :: gap')
                (member_text (g :: gap') (ind ++ g :: gap') [32%N] (k, v) ::
                 map (member_text (g :: gap') (ind ++ g :: gap') [32%N]) ps) ++
              10%N :: ind ++ js "}")
        with (123%N :: (10%N :: ind ++ g :: gap') ++
              join (44%N :: 10%N :: ind ++ g :: gap')
                (map (member_text (g :: gap') (ind ++ g :: gap') [32%N]) ((k, v) :: ps)) ++
              (10%N :: ind) ++ [125%N]).
      reassoc.
      rewrite pv_open_object with
        (body := quote_chars k ++ 34%N :: 58%N :: 32%N ::
                 ser (g :: gap') (ind ++ g :: gap') v ++ tail ++
                 10%N :: ind ++ 125%N :: rest);
        [ | exact HW | ].
      * revert Hpm. reassoc. now intros ->.
      * cbn [map]. rewrite Etail.
        rewrite <- (skip_ws_prefix (10%N :: ind ++ g :: gap') 34%N
                      (quote_chars k ++ 34%N :: 58%N :: 32%N ::
                       ser (g :: gap') (ind ++ g :: gap') v ++ tail ++
                       10%N :: ind ++ 125%N :: rest) HW1 eq_refl).
        f_equal. unfold member_text, QuoteJSONString. cbn [fst snd]. reassoc.
        reflexivity.
Qed.

(** Every value with distinct keys whose numbers the host renders
    faithfully is read back. *)
Lemma value_reads_back v :
  unique_keys v = true -> Forall num_ok (numbers_of v) -> reads_back v.
Proof.
  induction v as [ | b | n | s | l IH | o IH ] using JsonValue_induction;
    intros Huk Hnum.
  - now apply literal_reads_back.
  - now apply literal_reads_back.
  - apply number_reads_back. now inversion Hnum.
  - apply string_reads_back.
  - apply array_reads_back; [ | exact Hnum ].
    cbn [unique_keys] in Huk. cbn [numbers_of] in Hnum.
    induction l as [ | e l IHl ]; constructor.
    + inversion IH; subst. cbn [forallb] in Huk. apply andb_true_iff in Huk.
      cbn [flat_map] in Hnum. apply Forall_app in Hnum. tauto.
    + inversion IH; subst. cbn [forallb] in Huk. apply andb_true_iff in Huk.
      cbn [flat_map] in Hnum. apply Forall_app in Hnum. apply IHl; tauto.
  - cbn [unique_keys] in Huk. apply andb_true_iff in Huk. destruct Huk as [Hnd Huk].
    apply object_reads_back; [ | now apply nodupb_NoDup ].
    cbn [numbers_of] in Hnum. clear Hnd.
    induction o as [ | [k e] o IHo ]; constructor.
    + inversion IH; subst. cbn [forallb snd] in Huk. apply andb_true_iff in Huk.
      cbn [flat_map snd] in Hnum. apply Forall_app in Hnum. cbn [snd] in *. tauto.
    + inversion IH; subst. cbn [forallb] in Huk. apply andb_true_iff in Huk.
      cbn [flat_map] in Hnum. apply Forall_app in Hnum. apply IHo; tauto.
Qed.

(** *** The length of the text is fuel enough *)

Lemma join_length (sep : jsstring) (parts : list jsstring) :
  (1 <= List.length sep)%nat ->
  (list_sum (map (fun x => S (List.length x)) parts) <= S (List.length (join sep parts)))%nat.
Proof.
  intros Hsep. induction parts as [ | x [ | y ys ] IH ].
  - cbn. lia.
  - cbn. lia.
  - change (join sep (x :: y :: ys)) with (x ++ sep ++ join sep (y :: ys)).
    rewrite !length_app. cbn [map list_sum fold_right] in *. lia.
Qed.

Lemma list_sum_le (A : Type) (f g : A -> nat) (l : list A) :
  Forall (fun x => (f x <= g x)%nat) l ->
  (list_sum (map f l) <= list_sum (map g l))%nat.
Proof.
  unfold list_sum.
  induction 1 as [ | x l Hx _ IH ]; cbn [map fold_right] in *; lia.
Qed.


Lemma ser_length v :
  Forall num_ok (numbers_of v) ->
  forall gap ind, (weight v <= List.length (ser gap ind v))%nat.
Proof.
  induction v as [ | b | n | s | l IH | o IH ] using JsonValue_induction;
    intros Hnum gap ind.
  - cbv. lia.
  - destruct b; cbv; lia.
  - destruct (ser_head gap ind (JNumber n) Hnum) as [c [tl [-> _]]]. cbn. lia.
  - cbn [weight SerializeJSONProperty]. unfold QuoteJSONString. cbn [List.length].
    rewrite length_app. cbn. lia.
  - cbn [weight SerializeJSONProperty].
    assert (Hparts : (list_sum (map (fun e => S (weight e)) l) <=
                      list_sum (map (fun x => S (List.length x))
                                  (map (ser gap (ind ++ gap)) l)))%nat).
    { rewrite map_map. apply list_sum_le. cbn [numbers_of] in Hnum.
      induction l as [ | e l IHl ]; constructor.
      - inversion IH; subst. cbn [flat_map] in Hnum. apply Forall_app in Hnum.
        apply le_n_S. intuition.
      - inversion IH; subst. cbn [flat_map] in Hnum. apply Forall_app in Hnum.
        apply IHl; tauto. }
    destruct (map (ser gap (ind ++ gap)) l) as [ | p ps ] eqn:Eparts.
    + assert (H0 : (list_sum (map (fun e => S (weight e)) l) <= 0)%nat) by exact Hparts.
      change (List.length (js "[]")) with 2%nat. lia.
    + destruct gap as [ | g gap' ].
      * pose proof (join_length (js ",") (p :: ps)) as Hj.
        change (js "[" ++ join (js ",") (p :: ps) ++ js "]")
          with (91%N :: join (js ",") (p :: ps) ++ [93%N]).
        cbn [List.length]. rewrite length_app. cbn [List.length].
        specialize (Hj (le_n 1)). lia.
      * pose proof (join_length (js "," ++ 10%N :: ind ++ g :: gap') (p :: ps)) as Hj.
        change (js "[" ++ 10%N :: (ind ++ g :: gap') ++
                join (js "," ++ 10%N :: ind ++ g :: gap') (p :: ps) ++
                10%N :: ind ++ js "]")
          with (91%N :: 10%N :: (ind ++ g :: gap') ++
                join (js "," ++ 10%N :: ind ++ g :: gap') (p :: ps) ++
                10%N :: ind ++ [93%N]).
        cbn [List.length]. rewrite !length_app. cbn [List.length].
        assert (1 <= List.length (js "," ++ 10%N :: ind ++ g :: gap'))%nat
          by (rewrite length_app; cbn; lia).
        specialize (Hj H). lia.
  - cbn [weight SerializeJSONProperty]. rewrite member_text_map.
    set (sp := match gap with [] => _ | _ :: _ => _ end).
    assert (Hparts : (list_sum (map (fun kv => S (weight (snd kv))) o) <=
                      list_sum (map (fun x => S (List.length x))
                                  (map (member_text gap (ind ++ gap) sp) o)))%nat).
    { rewrite map_map. apply list_sum_le. cbn [numbers_of] in Hnum.
      induction o as [ | [k e] o IHo ]; constructor.
      - inversion IH; subst. cbn [flat_map snd] in Hnum. apply Forall_app in Hnum.
        unfold member_text. cbn [fst snd] in *. rewrite length_app.
        cbn [List.length]. rewrite length_app. apply le_n_S.
        assert (weight e <= List.length (ser gap (ind ++ gap) e))%nat by intuition.
        lia.
      - inversion IH; subst. cbn [flat_map] in Hnum. apply Forall_app in Hnum.
        apply IHo; tauto. }
    destruct (map (member_text gap (ind ++ gap) sp) o) as [ | p ps ] eqn:Eparts.
    + assert (H0 : (list_sum (map (fun kv => S (weight (snd kv))) o) <= 0)%nat)
        by exact Hparts.
      change (List.length (js "{}")) with 2%nat. lia.
    + destruct gap as [ | g gap' ].
      * pose proof (join_length (js ",") (p :: ps)) as Hj.
        change (js "{" ++ join (js ",") (p :: ps) ++ js "}")
          with (123%N :: join (js ",") (p :: ps) ++ [125%N]).
        cbn [List.length]. rewrite length_app. cbn [List.length].
        specialize (Hj (le_n 1)). lia.
      * pose proof (join_length (js "," ++ 10%N :: ind ++ g :: gap') (p :: ps)) as Hj.
        change (js "{" ++ 10%N :: (ind ++ g :: gap') ++
                join (js "," ++ 10%N :: ind ++ g :: gap') (p :: ps) ++
                10%N :: ind ++ js "}")
          with (123%N :: 10%N :: (ind ++ g :: gap') ++
                join (js "," ++ 10%N :: ind ++ g :: gap') (p :: ps) ++
                10%N :: ind ++ [125%N]).
        cbn [List.length]. rewrite !length_app. cbn [List.length].
        assert (1 <= List.length (js "," ++ 10%N :: ind ++ g :: gap'))%nat
          by (rewrite length_app; cbn; lia).
        specialize (Hj H). lia.
Qed.

(** [parse] reads back what [stringify] writes, for every indentation. *)
Lemma parse_stringify v space :
  unique_keys v = true -> Forall num_ok (numbers_of v) ->
  parse StringToNumber (stringify Number_toString v space) = Returns v.
Proof.
  intros Huk Hnum. unfold parse, stringify.
  set (gap := match space with
              | Some n => repeat 32%N (N.to_nat (N.min n 10))
              | None => []
              end).
  assert (Hgap : forallb is_ws gap = true).
  { subst gap. destruct space as [n | ]; [ | reflexivity ].
    induction (N.to_nat (N.min n 10)) as [ | k IH ]; [ reflexivity | ].
    cbn [repeat forallb]. now rewrite IH. }
  destruct (ser_head gap [] v Hnum) as [c [tl [Ec [Hc _]]]].
  pose proof (value_reads_back v Huk Hnum gap [] [] [] (List.length (ser gap [] v))
                Hgap eq_refl eq_refl (ser_length v Hnum gap []) I) as Hpv.
  cbn [app] in Hpv. rewrite app_nil_r in Hpv.
  rewrite Hpv. rewrite Ec, skip_ws_head by exact Hc. reflexivity.
Qed.

End RoundTrip.

(** ** Code unit order is a consistent comparator *)

Lemma lex_compare_antisym (a b : list N) :
  lex_compare b a = CompOpp (lex_compare a b).
Proof.
  revert b. induction a as [ | x a IH ]; intros [ | y b ]; simpl; try reflexivity.
  rewrite (N.compare_antisym x y). destruct (N.compare x y); simpl; auto.
Qed.

Lemma lex_compare_trans_le (a b c : list N) :
  lex_compare a b <> Gt -> lex_compare b c <> Gt -> lex_compare a c <> Gt.
Proof.
  revert b c. induction a as [ | x a IH ]; intros [ | y b ] [ | z c ]; simpl;
    try congruence.
  destruct (N.compare_spec x y) as [Hxy | Hxy | Hxy];
    destruct (N.compare_spec y z) as [Hyz | Hyz | Hyz];
    destruct (N.compare_spec x z) as [Hxz | Hxz | Hxz];
    try congruence; try lia.
  apply IH.
Qed.

Lemma cmp_le_codeunit (a b : jsstring) :
  cmp_le codeunit_compare a b = true <-> lex_compare a b <> Gt.
Proof.
  unfold cmp_le, codeunit_compare.
  destruct (lex_compare a b); cbn; split; intros H; try reflexivity;
    try discriminate; now try (elim H).
Qed.

Lemma codeunit_compare_consistent : consistent codeunit_compare.
Proof.
  split.
  - intros a b. rewrite !cmp_le_codeunit, (lex_compare_antisym a b).
    destruct (lex_compare a b); simpl; [ left | left | right ]; congruence.
  - intros a b c. rewrite !cmp_le_codeunit. apply lex_compare_trans_le.
Qed.

Lemma wf_unique_keys (v : JsonValue) : wf_value v = true -> unique_keys v = true.
Proof.
  induction v as [ | b | n | s | l IH | o IH ] using JsonValue_induction;
    simpl; auto.
  - rewrite !forallb_forall. rewrite Forall_forall in IH. auto.
  - intros H. apply andb_true_iff in H. destruct H as [H Hvals].
    apply andb_true_iff in H. destruct H as [-> _]. simpl.
    rewrite forallb_forall in *. rewrite Forall_forall in IH. auto.
Qed.

(** ** The parser accepts texts of the grammar only *)

Lemma skip_ws_split (s : jsstring) :
  exists W, s = W ++ skip_ws s /\ forallb is_ws W = true.
Proof.
  exists (takeWhile is_ws s). split.
  - symmetry. apply takeWhile_dropWhile.
  - apply forallb_takeWhile.
Qed.

Lemma skip_ws_nil (s : jsstring) : skip_ws s = [] -> forallb is_ws s = true.
Proof.
  intros H. destruct (skip_ws_split s) as [W [E HW]].
  rewrite H, app_nil_r in E. now subst.
Qed.

Lemma prepend_ok (x : N) (r : parsed jsstring) (str rest : jsstring) :
  prepend x r = Ok str rest -> exists str', r = Ok str' rest /\ str = x :: str'.
Proof.
  destruct r as [str' rest' | expected rest']; simpl; [ | discriminate ].
  intros H. injection H as <- <-. now exists str'.
Qed.

Lemma lex_string_split (n : nat) :
  forall body str rest, (List.length body <= n)%nat ->
  lex_string body = Ok str rest ->
  exists b, body = b ++ rest /\ lex_string b = Ok str [].
Proof.
  induction n as [ | n IH ]; intros [ | c t ] str rest Hlen H;
    cbn [List.length] in Hlen; try discriminate; try lia.
  cbn [lex_string] in H.
  destruct (N.eqb c 34) eqn:E34.
  { injection H as <- <-. exists [c]. split; [ reflexivity | ].
    cbn [lex_string]. now rewrite E34. }
  destruct (N.eqb c 92) eqn:E92.
  { destruct t as [ | e t1 ]; [ discriminate | ].
    destruct (N.eqb e 117) eqn:Eu.
    - destruct t1 as [ | h1 [ | h2 [ | h3 [ | h4 t2 ] ] ] ]; try discriminate.
      destruct (hex_value h1) as [a | ] eqn:H1; [ | discriminate ].
      destruct (hex_value h2) as [b | ] eqn:H2; [ | discriminate ].
      destruct (hex_value h3) as [c' | ] eqn:H3; [ | discriminate ].
      destruct (hex_value h4) as [d | ] eqn:H4; [ | discriminate ].
      apply prepend_ok in H. destruct H as [str' [H ->]].
      apply IH in H; [ | cbn [List.length] in Hlen; lia ].
      destruct H as [b0 [-> Hb]].
      exists (c :: e :: h1 :: h2 :: h3 :: h4 :: b0). split; [ reflexivity | ].
      cbn [lex_string]. now rewrite E34, E92, Eu, H1, H2, H3, H4, Hb.
    - destruct (escape_char e) as [x | ] eqn:Ee; [ | discriminate ].
      apply prepend_ok in H. destruct H as [str' [H ->]].
      apply IH in H; [ | cbn [List.length] in Hlen; lia ].
      destruct H as [b0 [-> Hb]].
      exists (c :: e :: b0). split; [ reflexivity | ].
      cbn [lex_string]. now rewrite E34, E92, Eu, Ee, Hb. }
  destruct (N.ltb c 32) eqn:E32; [ discriminate | ].
  apply prepend_ok in H. destruct H as [str' [H ->]].
  apply IH in H; [ | lia ]. destruct H as [b0 [-> Hb]].
  exists (c :: b0). split; [ reflexivity | ].
  cbn [lex_string]. now rewrite E34, E92, E32, Hb.
Qed.

Lemma strip_prefix_split (w s rest : jsstring) :
  strip_prefix w s = Some rest -> s = w ++ rest.
Proof.
  revert s. induction w as [ | a w IH ]; intros s H; simpl in *.
  - now injection H.
  - destruct s as [ | c s' ]; [ discriminate | ].
    destruct (N.eqb a c) eqn:E; [ | discriminate ].
    apply N.eqb_eq in E. subst c. simpl. f_equal. now apply IH.
Qed.

Section Soundness.

Variable StringToNumber : jsstring -> float.

Local Abbreviation pv := (parse_value StringToNumber).
Local Abbreviation pe := (parse_elements StringToNumber).
Local Abbreviation pm := (parse_members StringToNumber).
Local Abbreviation gvalue := (json_value StringToNumber).
Local Abbreviation gelements := (json_elements StringToNumber).
Local Abbreviation gmembers := (json_members StringToNumber).

Lemma lex_literal_sound w v0 s v rest :
  gvalue w v0 -> lex_literal w v0 s = Ok v rest ->
  exists t, s = t ++ rest /\ gvalue t v.
Proof.
  intros Hg. unfold lex_literal.
  destruct (strip_prefix w s) as [r | ] eqn:E; [ | discriminate ].
  intros H. injection H as <- <-. apply strip_prefix_split in E.
  now exists w.
Qed.

Lemma lex_number_sound s v rest :
  lex_number StringToNumber s = Ok v rest -> exists t, s = t ++ rest /\ gvalue t v.
Proof.
  unfold lex_number.
  destruct (number_literal (takeWhile is_number_char s)) eqn:E; [ | discriminate ].
  intros H. injection H as <- <-. exists (takeWhile is_number_char s). split.
  - symmetry. apply takeWhile_dropWhile.
  - now constructor.
Qed.

Lemma parser_sound (fuel : nat) :
  (forall s v rest, pv fuel s = Ok v rest ->
     exists W t, s = W ++ t ++ rest /\ forallb is_ws W = true /\ gvalue t v) /\
  (forall s vs rest, pe fuel s = Ok vs rest ->
     exists txt, s = txt ++ 93%N :: rest /\ gelements txt vs) /\
  (forall s ms rest, pm fuel s = Ok ms rest ->
     exists txt, s = txt ++ 125%N :: rest /\ gmembers txt ms).
Proof.
  induction fuel as [ | f [IHv [IHe IHm]] ];
    [ repeat split; intros; discriminate | ].
  split; [ | split ].
  - (* values *)
    intros s v rest H. cbn [parse_value] in H.
    destruct (skip_ws_split s) as [W [Es HW]].
    destruct (skip_ws s) as [ | c r ]; [ discriminate | ].
    exists W. rewrite Es. clear Es.
    assert (Hgoal : exists t, c :: r = t ++ rest /\ gvalue t v);
      [ | destruct Hgoal as [t [-> Hg]]; now exists t ].
    destruct (N.eqb c 123) eqn:E123.
    { apply N.eqb_eq in E123. subst c.
      destruct (skip_ws_split r) as [W1 [Er HW1]].
      destruct (skip_ws r) as [ | d r' ]; [ discriminate | ].
      destruct (N.eqb d 125) eqn:Ed.
      - apply N.eqb_eq in Ed. subst d. injection H as <- <-.
        exists (123%N :: W1 ++ [125%N]). split; [ | now constructor ].
        rewrite Er. reassoc. reflexivity.
      - destruct (pm f r) as [ms rest' | ] eqn:Epm; [ | discriminate ].
        injection H as <- <-. apply IHm in Epm. destruct Epm as [txt [-> Hg]].
        exists (123%N :: txt ++ [125%N]). split; [ | now constructor ].
        reassoc. reflexivity. }
    destruct (N.eqb c 91) eqn:E91.
    { apply N.eqb_eq in E91. subst c.
      destruct (skip_ws_split r) as [W1 [Er HW1]].
      destruct (skip_ws r) as [ | d r' ]; [ discriminate | ].
      destruct (N.eqb d 93) eqn:Ed.
      - apply N.eqb_eq in Ed. subst d. injection H as <- <-.
        exists (91%N :: W1 ++ [93%N]). split; [ | now constructor ].
        rewrite Er. reassoc. reflexivity.
      - destruct (pe f r) as [vs rest' | ] eqn:Epe; [ | discriminate ].
        injection H as <- <-. apply IHe in Epe. destruct Epe as [txt [-> Hg]].
        exists (91%N :: txt ++ [93%N]). split; [ | now constructor ].
        reassoc. reflexivity. }
    destruct (N.eqb c 34) eqn:E34.
    { apply N.eqb_eq in E34. subst c.
      destruct (lex_string r) as [str rest' | ] eqn:El; [ | discriminate ].
      injection H as <- <-.
      apply lex_string_split with (n := List.length r) in El; [ | lia ].
      destruct El as [b [-> Hb]]. exists (34%N :: b). split; [ reflexivity | ].
      now constructor. }
    destruct (N.eqb c 116);
      [ eapply lex_literal_sound; [ apply json_true | exact H ] | ].
    destruct (N.eqb c 102);
      [ eapply lex_literal_sound; [ apply json_false | exact H ] | ].
    destruct (N.eqb c 110);
      [ eapply lex_literal_sound; [ apply json_null | exact H ] | ].
    destruct (N.eqb c 45 || is_digit c); [ | discriminate ].
    now apply lex_number_sound.
  - (* elements *)
    intros s vs rest H. cbn [parse_elements] in H.
    destruct (pv f s) as [v rest1 | ] eqn:Epv; [ | discriminate ].
    apply IHv in Epv. destruct Epv as [W [t [-> [HW Hg]]]].
    destruct (skip_ws_split rest1) as [W2 [Er HW2]].
    destruct (skip_ws rest1) as [ | d r' ]; [ discriminate | ].
    destruct (N.eqb d 44) eqn:E44.
    + apply N.eqb_eq in E44. subst d.
      destruct (pe f r') as [vs' rest' | ] eqn:Epe; [ | discriminate ].
      injection H as <- <-. apply IHe in Epe. destruct Epe as [txt [-> Hgs]].
      exists (W ++ t ++ W2 ++ 44%N :: txt). split; [ | now constructor ].
      rewrite Er. reassoc. reflexivity.
    + destruct (N.eqb d 93) eqn:E93; [ | discriminate ].
      apply N.eqb_eq in E93. subst d. injection H as <- <-.
      exists (W ++ t ++ W2). split; [ | now constructor ].
      rewrite Er. reassoc. reflexivity.
  - (* members *)
    intros s ms rest H. cbn [parse_members] in H.
    destruct (skip_ws_split s) as [W1 [Es HW1]].
    destruct (skip_ws s) as [ | q r ]; [ discriminate | ].
    destruct (N.eqb q 34) eqn:E34; [ | discriminate ].
    apply N.eqb_eq in E34. subst q.
    destruct (lex_string r) as [k r1 | ] eqn:El; [ | discriminate ].
    apply lex_string_split with (n := List.length r) in El; [ | lia ].
    destruct El as [kbody [-> Hk]].
    destruct (skip_ws_split r1) as [W2 [Er1 HW2]].
    destruct (skip_ws r1) as [ | colon r2 ]; [ discriminate | ].
    destruct (N.eqb colon 58) eqn:E58; [ | discriminate ].
    apply N.eqb_eq in E58. subst colon.
    destruct (pv f r2) as [v r3 | ] eqn:Epv; [ | discriminate ].
    apply IHv in Epv. destruct Epv as [W3 [t [-> [HW3 Hg]]]].
    destruct (skip_ws_split r3) as [W4 [Er3 HW4]].
    destruct (skip_ws r3) as [ | d r4 ]; [ discriminate | ].
    destruct (N.eqb d 44) eqn:E44.
    + apply N.eqb_eq in E44. subst d.
      destruct (pm f r4) as [ms' rest' | ] eqn:Epm; [ | discriminate ].
      injection H as <- <-. apply IHm in Epm. destruct Epm as [txt [-> Hgs]].
      exists (W1 ++ 34%N :: kbody ++ W2 ++ 58%N :: W3 ++ t ++ W4 ++ 44%N :: txt).
      split; [ | now constructor ].
      rewrite Es, Er1, Er3. reassoc. reflexivity.
    + destruct (N.eqb d 125) eqn:E125; [ | discriminate ].
      apply N.eqb_eq in E125. subst d. injection H as <- <-.
      exists (W1 ++ 34%N :: kbody ++ W2 ++ 58%N :: W3 ++ t ++ W4).
      split; [ | now constructor ].
      rewrite Es, Er1, Er3. reassoc. reflexivity.
Qed.

(** Whatever [parse] returns is denoted by the text in the grammar. *)
Lemma parse_sound text v :
  parse StringToNumber text = Returns v -> json_text StringToNumber text v.
Proof.
  unfold parse. destruct (skip_ws text) as [ | c r ]; [ discriminate | ].
  destruct (pv (List.length text) text) as [v' rest | ] eqn:Epv; [ | discriminate ].
  destruct (skip_ws rest) eqn:Erest; [ | discriminate ].
  intros H. injection H as <-.
  destruct (parser_sound (List.length text)) as [Hv _].
  apply Hv in Epv. destruct Epv as [W [t [E [HW Hg]]]].
  exists W, t, rest. repeat split; try assumption. now apply skip_ws_nil.
Qed.

End Soundness.

(* ================================================================== *)
(** * The claims *)

(** ** Round trip and idempotence *)

(** (C1.)  For every value whose objects have distinct keys and whose
    numbers the host renders faithfully, and for every indent width (2, 4
    and 8 among them), parsing the pretty-printed text gives the value back,
    and so does parsing the minified text. *)
Theorem parse_roundtrip (Number_toString : float -> jsstring)
    (StringToNumber : jsstring -> float) (v : JsonValue) (indentWidth : N) :
  unique_keys v = true ->
  Forall (number_ok Number_toString StringToNumber) (numbers_of v) ->
  parse StringToNumber (prettyPrint Number_toString v indentWidth) = Returns v /\
  parse StringToNumber (minify Number_toString v) = Returns v.
Proof.
  intros Huk Hnum. unfold prettyPrint, minify.
  split; now apply parse_stringify.
Qed.

(** (C10.)  [sortKeysDeep] applied to its own result changes nothing; and
    the minified text of a value parses to a value whose minified text
    parses to the original value again. *)
Theorem canonicalize_idempotent_minify_stable
    (localeCompare : jsstring -> jsstring -> Z)
    (Number_toString : float -> jsstring) (StringToNumber : jsstring -> float)
    (v : JsonValue) :
  consistent localeCompare ->
  wf_value v = true ->
  Forall (number_ok Number_toString StringToNumber) (numbers_of v) ->
  sortKeysDeep localeCompare (sortKeysDeep localeCompare v) =
    sortKeysDeep localeCompare v /\
  exists once,
    parse StringToNumber (minify Number_toString v) = Returns once /\
    parse StringToNumber (minify Number_toString once) = Returns v.
Proof.
  intros Hcons Hwf Hnum. split.
  - now apply sortKeysDeep_again.
  - pose proof (parse_stringify Number_toString StringToNumber v None
                  (wf_unique_keys v Hwf) Hnum) as H.
    exists v. split; exact H.
Qed.

(** (C2, as the code has it.)  In the result of [sortKeysDeep], in every
    object at every depth, the keys that are not array indices follow one
    another in the order of [localeCompare]; an array becomes the array of
    the results for its elements, in the same order; null, booleans,
    numbers and strings are returned as they are. *)
Theorem sortKeysDeep_canonical (localeCompare : jsstring -> jsstring -> Z)
    (v : JsonValue) :
  consistent localeCompare ->
  wf_value v = true ->
  keys_sorted_deep (cmp_le localeCompare) named (sortKeysDeep localeCompare v) = true /\
  (forall elems,
     sortKeysDeep localeCompare (JArray elems) =
     JArray (map (sortKeysDeep localeCompare) elems)) /\
  match v with
  | JArray _ | JObject _ => True
  | _ => sortKeysDeep localeCompare v = v
  end.
Proof.
  intros Hcons Hwf. split; [ now apply sortKeysDeep_named_sorted | ].
  split; [ reflexivity | ]. now destruct v.
Qed.

(** *** Strictness *)

Lemma parse_value_needs_value (StringToNumber : jsstring -> float) fuel s :
  failed (parse_value StringToNumber fuel s) || starts_value (skip_ws s) = true.
Proof.
  destruct fuel as [ | f ]; [ reflexivity | ]. cbn [parse_value].
  destruct (skip_ws s) as [ | c r ]; [ reflexivity | ]. cbn [starts_value].
  destruct (N.eqb c 123); [ apply orb_true_r | ].
  destruct (N.eqb c 91); [ apply orb_true_r | ].
  destruct (N.eqb c 34); [ apply orb_true_r | ].
  destruct (N.eqb c 116); [ apply orb_true_iff; right; now rewrite ?orb_true_r | ].
  destruct (N.eqb c 102); [ apply orb_true_iff; right; now rewrite ?orb_true_r | ].
  destruct (N.eqb c 110); [ apply orb_true_iff; right; now rewrite ?orb_true_r | ].
  destruct (N.eqb c 45); [ apply orb_true_iff; right; now rewrite ?orb_true_r | ].
  destruct (is_digit c); [ apply orb_true_iff; right; now rewrite ?orb_true_r | ].
  reflexivity.
Qed.

Lemma parse_elements_needs_value (StringToNumber : jsstring -> float) fuel s :
  failed (parse_elements StringToNumber fuel s) || starts_value (skip_ws s) = true.
Proof.
  destruct fuel as [ | f ]; [ reflexivity | ]. cbn [parse_elements].
  pose proof (parse_value_needs_value StringToNumber f s) as H.
  destruct (parse_value StringToNumber f s) as [v rest | expected rest];
    [ | reflexivity ].
  cbn [failed orb] in H. rewrite H. apply orb_true_r.
Qed.

Lemma parse_members_needs_key (StringToNumber : jsstring -> float) fuel s :
  failed (parse_members StringToNumber fuel s) || starts_with_quote (skip_ws s) = true.
Proof.
  destruct fuel as [ | f ]; [ reflexivity | ]. cbn [parse_members].
  destruct (skip_ws s) as [ | q r ]; [ reflexivity | ]. cbn [starts_with_quote].
  destruct (N.eqb q 34); [ apply orb_true_r | reflexivity ].
Qed.

(** (C5.)  The parser is strict.  A text it accepts is a text of the
    strict grammar: one value, built from the literals, numbers, strings,
    arrays and objects of JSON with single commas between members, and
    white space around it, nothing else.  Whatever the text, it is rejected
    unless its first significant character can start a JSON value; inside
    an array, what follows the opening bracket or a comma is rejected
    unless it starts a value, and inside an object, what follows the
    opening brace or a comma is rejected unless it starts with a double
    quote.  The list gives texts with a trailing comma, a comment, an
    unquoted or single-quoted key, a single-quoted string, NaN, Infinity,
    malformed numbers and missing commas: all are rejected. *)
Theorem parse_strict (StringToNumber : jsstring -> float) (text : jsstring) :
  (forall v, parse StringToNumber text = Returns v ->
             json_text StringToNumber text v) /\
  rejects StringToNumber text || starts_value (skip_ws text) = true /\
  (forall fuel s,
     failed (parse_value StringToNumber fuel s) || starts_value (skip_ws s) = true) /\
  (forall fuel s,
     failed (parse_elements StringToNumber fuel s) || starts_value (skip_ws s) = true) /\
  (forall fuel s,
     failed (parse_members StringToNumber fuel s) || starts_with_quote (skip_ws s)
     = true) /\
  forallb (rejects StringToNumber)
    [jsq "{'a':1,}"; jsq "[1,2,]"; jsq "{'a':[1,],'b':2}";
     js "// note" ++ 10%N :: jsq "{'a':1}"; jsq "/* note */ {'a':1}";
     jsq "{'a':1} // note"; jsq "{'a':1 /* note */}";
     js "{a:1}"; js "{'a':1}"; js "'a'"; jsq "['a', 'b]";
     js "NaN"; js "Infinity"; js "-Infinity"; jsq "{'a':NaN}"; js "[Infinity]";
     js "01"; js "+1"; js "1."; js ".5"; js "1e"; js "0x10";
     jsq "{'a':1 'b':2}"; js "[1 2]"; jsq "{'a'}"; js "[1]]"; js "undefined";
     js "True"; js "nul"] = true.
Proof.
  split; [ intros v; apply parse_sound | ].
  split.
  { unfold rejects, parse. destruct (skip_ws text) as [ | c r ] eqn:Ews;
      [ reflexivity | ].
    pose proof (parse_value_needs_value StringToNumber (List.length text) text) as H.
    rewrite Ews in H.
    destruct (parse_value StringToNumber (List.length text) text)
      as [v rest | expected rest]; [ | reflexivity ].
    cbn [failed orb] in H. rewrite H. apply orb_true_r. }
  split; [ apply parse_value_needs_value | ].
  split; [ apply parse_elements_needs_value | ].
  split; [ apply parse_members_needs_key | ].
  vm_compute. reflexivity.
Qed.

(** ** Examples *)

Lemma sample_numbers_ok :
  Forall (number_ok sample_toString sample_toNumber) (numbers_of sample_value).
Proof.
  repeat constructor.
Qed.

Lemma parse_roundtrip_witness :
  parse sample_toNumber (prettyPrint sample_toString sample_value 4) =
    Returns sample_value /\
  parse sample_toNumber (minify sample_toString sample_value) = Returns sample_value.
Proof.
  apply (parse_roundtrip sample_toString sample_toNumber sample_value 4).
  - reflexivity.
  - exact sample_numbers_ok.
Defined.

Lemma canonicalize_idempotent_minify_stable_witness :
  sortKeysDeep codeunit_compare (sortKeysDeep codeunit_compare sample_value) =
    sortKeysDeep codeunit_compare sample_value /\
  exists once,
    parse sample_toNumber (minify sample_toString sample_value) = Returns once /\
    parse sample_toNumber (minify sample_toString once) = Returns sample_value.
Proof.
  apply (canonicalize_idempotent_minify_stable codeunit_compare
           sample_toString sample_toNumber sample_value).
  - exact codeunit_compare_consistent.
  - reflexivity.
  - exact sample_numbers_ok.
Defined.

Lemma sortKeysDeep_canonical_witness :
  keys_sorted_deep (cmp_le codeunit_compare) named
    (sortKeysDeep codeunit_compare sample_value) = true /\
  (forall elems,
     sortKeysDeep codeunit_compare (JArray elems) =
     JArray (map (sortKeysDeep codeunit_compare) elems)) /\
  True.
Proof.
  apply (sortKeysDeep_canonical codeunit_compare sample_value).
  - exact codeunit_compare_consistent.
  - reflexivity.
Defined.

(** C2 as stated fails: keys that are array indices are enumerated in
    numeric order whatever the comparator, so "9" stays before "10", which
    is not ascending code point order; and keys are ordered by
    [localeCompare], so under any collation that puts "a" before "B" the
    result has "a" first, although B (66) precedes a (97) by code point. *)
Lemma sortKeysDeep_codepoint_counterexample :
  wf_value (JObject [(js "9", JNull); (js "10", JBool true)]) = true /\
  (forall localeCompare,
     sortKeysDeep localeCompare (JObject [(js "9", JNull); (js "10", JBool true)]) =
     JObject [(js "9", JNull); (js "10", JBool true)]) /\
  keys_sorted_deep codepoint_le any_key
    (JObject [(js "9", JNull); (js "10", JBool true)]) = false /\
  (forall localeCompare,
     (0 < localeCompare (js "B") (js "a"))%Z ->
     sortKeysDeep localeCompare (JObject [(js "B", JNull); (js "a", JBool true)]) =
     JObject [(js "a", JBool true); (js "B", JNull)]) /\
  keys_sorted_deep codepoint_le any_key
    (JObject [(js "a", JBool true); (js "B", JNull)]) = false.
Proof.
  split; [ reflexivity | ]. split.
  { intros lc. cbn [sortKeysDeep map Object_keys fst sort sort_insert].
    destruct (cmp_le lc (js "9") (js "10")); reflexivity. }
  split; [ reflexivity | ]. split; [ | reflexivity ].
  intros lc H. cbn [sortKeysDeep map Object_keys fst sort sort_insert].
  assert (E : cmp_le lc (js "B") (js "a") = false).
  { unfold cmp_le. apply Z.leb_gt. exact H. }
  rewrite E. reflexivity.
Qed.

(** C3 as stated fails: for a top-level string the "Keys" metric is 0, not
    the dash. *)
Lemma cardinality_scalar_counterexample :
  sample_JSON_parse (jsq "'a string'") = Some (JString (js "a string")) /\
  keys (updateKpis sample_host (replaceDoc (jsq "'a string'") first_render)) =
    Count 0 /\
  keys (updateKpis sample_host (replaceDoc (js "null") first_render)) = Count 0 /\
  keys (updateKpis sample_host (replaceDoc (js "{") first_render)) = Unknown.
Proof. repeat split; vm_compute; reflexivity. Qed.

(** C7 as stated fails: the text "a\nb\n" has three lines. *)
Lemma lineCount_trailing_counterexample :
  lineCount (js "a" ++ [10%N] ++ js "b" ++ [10%N]) = 3%N /\
  lines (updateKpis sample_host
           (replaceDoc (js "a" ++ [10%N] ++ js "b" ++ [10%N]) first_render)) = 3%N.
Proof. split; vm_compute; reflexivity. Qed.


(** C8 as stated fails.  An exception that carries line 0, column 7 in its
    fields and a message without the word "line" leaves the cursor where it
    was (here at line 0, column 1); an exception without position whose
    message happens to contain "outline 12" sends the cursor to line 11,
    column 0, of a document of fourteen lines. *)
Lemma error_locator_counterexample :
  parse sample_toNumber (jsq "{'a':1,}") =
    Throws (ParseError.make (js "Expecting string") (Some 0%N) (Some 7%N)) /\
  fst (validate strict_host trailing_comma_state) = Returned false /\
  cursor (snd (validate strict_host trailing_comma_state)) = (0, 1)%Z /\
  lineCount (doc tall_state) = 14%N /\
  fst (validate_catch sample_host outline_error tall_state) = Returned false /\
  cursor (snd (validate_catch sample_host outline_error tall_state)) = (11, 0)%Z.
Proof. repeat split; vm_compute; reflexivity. Qed.

(** C9 as stated fails for the metrics: right after an edit, with the
    validation still 400 ms away and the status untouched, size, lines and
    keys already describe the new text. *)
Lemma metrics_not_debounced_counterexample :
  (forall host,
     let s1 := step host first_render (Edit (js "[1,2]") (0, 5)%Z) in
     size s1 = 5%N /\ lines s1 = 1%N /\ timer s1 = Some 400%N /\
     status s1 = status first_render) /\
  size first_render = 0%N /\
  keys (step sample_host
          first_render (Edit (js "[1,2]") (0, 5)%Z)) = Count 2.
Proof.
  split; [ | split; vm_compute; reflexivity ].
  intros host s1. subst s1. repeat split.
Qed.

(** ** The theorems at work *)


Lemma validate_blank_witness :
  validate sample_host (replaceDoc (js "  " ++ [10%N; 9%N]) first_render) =
    (Returned false,
     setStatusType danger
       (setStatus (js "Please enter JSON.")
          (replaceDoc (js "  " ++ [10%N; 9%N]) first_render))) /\
  cursor (snd (validate sample_host
                 (replaceDoc (js "  " ++ [10%N; 9%N]) first_render))) =
    cursor (replaceDoc (js "  " ++ [10%N; 9%N]) first_render) /\
  (forall m,
     status (snd (validate sample_host
                    (replaceDoc (js "  " ++ [10%N; 9%N]) first_render))) <>
     js "Invalid JSON: " ++ m).
Proof.
  apply (validate_blank sample_host
           (replaceDoc (js "  " ++ [10%N; 9%N]) first_render)).
  vm_compute. reflexivity.
Defined.

Lemma validate_locates_from_message_witness :
  trim (doc trailing_comma_state) <> [] /\
  jsonlint_parse sample_host (trim (doc trailing_comma_state)) =
    Throws trailing_comma_error /\
  extractLineCol (ParseError.message trailing_comma_error) = (Some (Finite 0), None) /\
  validate sample_host trailing_comma_state =
    (Returned false,
     setCursor (0, 0)%Z
       (setStatusType danger
          (setStatus (js "Invalid JSON: " ++ ParseError.message trailing_comma_error)
             trailing_comma_state))) /\
  (forall l c,
     validate_catch sample_host
       (ParseError.make (ParseError.message trailing_comma_error) l c)
       trailing_comma_state =
     validate sample_host trailing_comma_state).
Proof.
  assert (Hne : trim (doc trailing_comma_state) <> []) by (vm_compute; discriminate).
  assert (Hthrow : jsonlint_parse sample_host (trim (doc trailing_comma_state)) =
                   Throws trailing_comma_error) by (vm_compute; reflexivity).
  assert (Hfound : extractLineCol (ParseError.message trailing_comma_error) =
                   (Some (Finite 0), None)) by (vm_compute; reflexivity).
  destruct (validate_locates_from_message sample_host trailing_comma_state
              trailing_comma_error Hne Hthrow)
    as [_ [_ [_ [Hfields [_ [Hinside _]]]]]].
  split; [ exact Hne | ]. split; [ exact Hthrow | ]. split; [ exact Hfound | ]. split.
  - destruct (Hinside 0%Z) as [Hv _].
    + now rewrite Hfound.
    + vm_compute. split; discriminate.
    + rewrite Hv, Hfound. vm_compute. reflexivity.
  - intros l c. now apply Hfields.
Defined.

Lemma debounce_last_edit_wins_witness :
  let s1 := run sample_host
              first_render (burst sample_edits ++ [Edit (js "[1,2]") (0, 5)%Z]) in
  s1 = step sample_host
         first_render (Edit (js "[1,2]") (0, 5)%Z) /\
  status (step sample_host
            s1 (Elapse 400)) = js "Looks good " ++ check_mark.
Proof.
  pose proof (debounce_last_edit_wins sample_host first_render sample_edits
                (js "[1,2]") (0, 5)%Z 400%N) as H.
  cbv zeta in H. intros s1. subst s1. split.
  - apply H.
    + repeat constructor.
    + reflexivity.
  - vm_compute. reflexivity.
Defined.

(* ================================================================== *)
(** * Further properties of the component *)

(** ** White space around the document *)

Lemma dropWhile_app_all (p : N -> bool) (a b : jsstring) :
  forallb p a = true -> dropWhile p (a ++ b) = dropWhile p b.
Proof.
  induction a as [ | c a IH ]; simpl; [ reflexivity | ].
  intros H. apply andb_true_iff in H. destruct H as [-> H]. now apply IH.
Qed.

Lemma dropWhile_app_stop (p : N -> bool) (a b : jsstring) :
  dropWhile p a <> [] -> dropWhile p (a ++ b) = dropWhile p a ++ b.
Proof.
  induction a as [ | c a IH ]; simpl; [ congruence | ].
  destruct (p c); [ exact IH | reflexivity ].
Qed.

Lemma dropWhile_nil_all (p : N -> bool) (s : jsstring) :
  dropWhile p s = [] -> forallb p s = true.
Proof.
  induction s as [ | c t IH ]; simpl; [ reflexivity | ].
  destruct (p c); [ exact IH | discriminate ].
Qed.

Lemma forallb_rev (p : N -> bool) (s : jsstring) : forallb p (rev s) = forallb p s.
Proof.
  induction s as [ | c t IH ]; simpl; [ reflexivity | ].
  rewrite forallb_app, IH. simpl. rewrite andb_true_r. apply andb_comm.
Qed.

(** [trim] sees nothing of the white space around a text. *)
Lemma trim_padded (pre t post : jsstring) :
  forallb is_space pre = true -> forallb is_space post = true ->
  trim (pre ++ t ++ post) = trim t.
Proof.
  intros Hpre Hpost. unfold trim. rewrite (dropWhile_app_all _ _ _ Hpre).
  destruct (dropWhile is_space t) as [ | c u ] eqn:Ht.
  - assert (Hall : forallb is_space (t ++ post) = true).
    { rewrite forallb_app, Hpost, andb_true_r. now apply dropWhile_nil_all. }
    now rewrite (dropWhile_all _ _ Hall).
  - rewrite dropWhile_app_stop by congruence. rewrite Ht.
    rewrite rev_app_distr. apply f_equal. apply dropWhile_app_all.
    now rewrite forallb_rev.
Qed.

Section ToolbarFacts.

Variable host : Host.

Local Abbreviation current := (kpis_current host).

(** ** The metrics follow the document *)

Lemma updateKpis_current s : current (updateKpis host s).
Proof. unfold kpis_current, updateKpis. simpl. auto. Qed.

(** A handler that leaves the document and the three metrics alone keeps
    them in step. *)
Lemma current_frame s s' :
  doc s' = doc s -> size s' = size s -> lines s' = lines s -> keys s' = keys s ->
  current s -> current s'.
Proof.
  unfold kpis_current. intros -> -> -> ->. auto.
Qed.

Lemma validate_current s : current s -> current (snd (validate host s)).
Proof.
  destruct (validate_frame host s) as [H1 [H2 [H3 [H4 _]]]].
  now apply current_frame.
Qed.

Lemma onTimeout_frame s :
  doc (onTimeout host s) = doc s /\
  size (onTimeout host s) = size s /\
  lines (onTimeout host s) = lines s /\
  keys (onTimeout host s) = keys s /\
  indent (onTimeout host s) = indent s /\
  autoValidate (onTimeout host s) = autoValidate s /\
  timer (onTimeout host s) = timer s.
Proof.
  unfold onTimeout. pose proof (validate_frame host s) as H.
  destruct (validate host s) as [[[ | ] | ] s2]; exact H.
Qed.

Lemma step_current s e : current s -> current (step host s e).
Proof.
  intros H. destruct e as [text caret | ms | | | | | ]; simpl.
  - unfold onChange. eapply current_frame; [ | | | | apply updateKpis_current ];
      reflexivity.
  - destruct (timer s) as [r | ]; [ | exact H ].
    destruct (N.ltb ms r); [ exact H | ].
    destruct (onTimeout_frame (setTimer None s)) as [H1 [H2 [H3 [H4 _]]]].
    eapply current_frame; [ exact H1 | exact H2 | exact H3 | exact H4 | exact H ].
  - now apply validate_current.
  - unfold formatJson. destruct (jsonlint_parse host (doc s));
      [ apply updateKpis_current | now apply validate_current ].
  - unfold minifyJson. destruct (jsonlint_parse host (doc s));
      [ apply updateKpis_current | now apply validate_current ].
  - unfold sortKeys. destruct (jsonlint_parse host (doc s));
      [ apply updateKpis_current | now apply validate_current ].
  - unfold formatJson. destruct (jsonlint_parse host (doc s));
      [ apply updateKpis_current | now apply validate_current ].
Qed.

Lemma perform_current s a : current s -> current (perform host s a).
Proof.
  intros H. destruct a as [e | | | | n | b | | | | w | url | answer | name result | ];
    simpl.
  - now apply step_current.
  - now apply validate_current.
  - unfold minifyJson. destruct (jsonlint_parse host (doc s));
      [ apply updateKpis_current | now apply validate_current ].
  - unfold sortKeys. destruct (jsonlint_parse host (doc s));
      [ apply updateKpis_current | now apply validate_current ].
  - exact H.
  - exact H.
  - apply updateKpis_current.
  - apply updateKpis_current.
  - exact H.
  - destruct w; exact H.
  - destruct url as [[ | c u] | ]; exact H.
  - unfold loadUrl_settled. destruct answer as [resp | shown]; [ | exact H ].
    destruct (negb (Response.ok resp)); [ exact H | ].
    destruct (includes _ _).
    + destruct (Response.json resp); [ apply updateKpis_current | exact H ].
    + destruct (Response.text resp) as [text | ]; [ | exact H ].
      destruct (JSON_parse host text); apply updateKpis_current.
  - apply updateKpis_current.
  - exact H.
Qed.

(** (X1: the metrics follow the document.)  Once the three metrics have been
    computed for the document in the editor, they stay those of the
    document through every sequence of events: edits, timeouts, every
    button and key, a file or a URL loaded or failing.  The first effect
    computes them when the component mounts. *)
Theorem kpis_follow_document s acts :
  kpis_current host s -> kpis_current host (operate host s acts).
Proof.
  revert s. induction acts as [ | a acts IH ]; intros s H; simpl; [ exact H | ].
  apply IH. now apply perform_current.
Qed.

(** ** The verdict of [validate] *)

(** (X2: [validate], the verdict.)  Validate answers true exactly when the
    document, with the white space around it removed, is not empty and
    [jsonlint.parse] returns on it.  Then the status is "Valid JSON" with
    the tick, of type success, and nothing else changes; otherwise, whether
    it answers false or ends with the exception of [scrollToError], the
    type is danger.  In no case are the document, the metrics or the
    pending timeout touched. *)
Theorem validate_verdict s :
  (fst (validate host s) = Returned true <->
   exists obj, trim (doc s) <> [] /\ jsonlint_parse host (trim (doc s)) = Returns obj) /\
  match fst (validate host s) with
  | Returned true =>
      snd (validate host s) =
      setStatusType success (setStatus (js "Valid JSON " ++ check_mark) s)
  | _ => statusType (snd (validate host s)) = danger
  end /\
  doc (snd (validate host s)) = doc s /\
  size (snd (validate host s)) = size s /\
  lines (snd (validate host s)) = lines s /\
  keys (snd (validate host s)) = keys s /\
  timer (snd (validate host s)) = timer s.
Proof.
  destruct (validate_frame host s) as [H1 [H2 [H3 [H4 [_ [_ H7]]]]]].
  repeat split; auto.
  - unfold validate. destruct (trim (doc s)) as [ | c t ]; [ discriminate | ].
    destruct (jsonlint_parse host (c :: t)) as [obj | e].
    + intros _. exists obj. split; [ discriminate | reflexivity ].
    + intros H. now destruct (validate_catch_status host e s) as [_ [_ Hf]].
  - intros [obj [Hne Hp]]. unfold validate.
    destruct (trim (doc s)) as [ | c t ]; [ congruence | ]. now rewrite Hp.
  - unfold validate. destruct (trim (doc s)) as [ | c t ]; [ reflexivity | ].
    destruct (jsonlint_parse host (c :: t)) as [obj | e]; [ reflexivity | ].
    destruct (validate_catch_status host e s) as [_ [Hty Hf]].
    destruct (validate_catch host e s) as [[[ | ] | ] s2]; cbn [fst snd] in *;
      [ congruence | exact Hty | exact Hty ].
Qed.

(** (X3: [validate] and the white space around the document.)  Two documents
    that differ in leading and trailing white space only are valid
    together and get the same status from Validate: the parser is given
    the trimmed text.  When the line its message names is a line of both
    documents, or lies below 0, Validate also ends the same way on both
    and leaves the cursor on the same line number, at the same column when
    the message names no column: the line the parser reports counts from
    the first line that is not blank, and the cursor goes to that number
    counted from the top of the document. *)
Theorem validate_ignores_outer_space s s' pre post :
  forallb is_space pre = true -> forallb is_space post = true ->
  doc s' = pre ++ doc s ++ post -> cursor s' = cursor s ->
  (fst (validate host s') = Returned true <-> fst (validate host s) = Returned true) /\
  status (snd (validate host s')) = status (snd (validate host s)) /\
  statusType (snd (validate host s')) = statusType (snd (validate host s)) /\
  ((forall e line,
      jsonlint_parse host (trim (doc s)) = Throws e ->
      fst (extractLineCol (ParseError.message e)) = Some line ->
      exists l, line = Finite l /\
                (l < Z.of_N (lineCount (doc s)))%Z /\
                (l < Z.of_N (lineCount (doc s')))%Z) ->
   fst (validate host s') = fst (validate host s) /\
   fst (cursor (snd (validate host s'))) = fst (cursor (snd (validate host s))) /\
   ((forall e, jsonlint_parse host (trim (doc s)) = Throws e ->
               snd (extractLineCol (ParseError.message e)) = None) ->
    cursor (snd (validate host s')) = cursor (snd (validate host s)))).
Proof.
  intros Hpre Hpost Hdoc Hcur.
  assert (Htrim : trim (doc s') = trim (doc s)).
  { rewrite Hdoc. now apply trim_padded. }
  unfold validate. rewrite Htrim.
  destruct (trim (doc s)) as [ | c t ];
    [ cbn [fst snd cursor status statusType setStatusType setStatus];
      rewrite Hcur; repeat split; auto | ].
  destruct (jsonlint_parse host (c :: t)) as [obj | e];
    [ cbn [fst snd cursor status statusType setStatusType setStatus];
      rewrite Hcur; repeat split; auto | ].
  destruct (validate_catch_status host e s) as [Hs [Hty Hf]].
  destruct (validate_catch_status host e s') as [Hs' [Hty' Hf']].
  split; [ split; intros H; congruence | ].
  split; [ congruence | ]. split; [ congruence | ].
  intros Hline. unfold validate_catch.
  destruct (extractLineCol (ParseError.message e)) as [[line | ] col] eqn:E;
    [ | cbn [fst snd cursor setStatusType setStatus]; rewrite Hcur; repeat split; auto ].
  destruct (Hline e line eq_refl) as [l [-> [Hl Hl']]]; [ now rewrite E | ].
  destruct (Z.ltb_spec l 0) as [Hneg | Hpos].
  - rewrite !scrollToError_below by exact Hneg.
    cbn [fst snd cursor setStatusType setStatus]. rewrite Hcur. repeat split; auto.
  - rewrite !scrollToError_inside
      by (cbn [doc setStatusType setStatus]; lia).
    cbn [fst snd cursor setCursor doc setStatusType setStatus].
    destruct (clipPos_inside (doc s) l (or_zero col)) as [H1 [_ H3]]; [ lia | ].
    destruct (clipPos_inside (doc s') l (or_zero col)) as [H1' [_ H3']]; [ lia | ].
    split; [ reflexivity | ]. split; [ congruence | ].
    intros Hcol. specialize (Hcol e eq_refl). rewrite E in Hcol.
    cbn [snd] in Hcol. subst col. cbn [or_zero] in *.
    rewrite (H3 0%Z), (H3' 0%Z); auto; unfold line_length; lia.
Qed.

End ToolbarFacts.

(** The line named must be a line of both documents.  A parser that names
    line 2 sends the cursor to line 1 of the padded document of two lines;
    on the bare document of one line that is past the end, where Validate
    throws, or puts the cursor at the end of the document when the editor
    displays it. *)
Lemma outer_space_line_past_end :
  fst (validate (second_line_host false) padded_state) = Returned false /\
  cursor (snd (validate (second_line_host false) padded_state)) = (1, 0)%Z /\
  fst (validate (second_line_host false) trailing_comma_state) = Thrown /\
  cursor (snd (validate (second_line_host false) trailing_comma_state)) = (0, 1)%Z /\
  fst (validate (second_line_host true) trailing_comma_state) = Returned false /\
  cursor (snd (validate (second_line_host true) trailing_comma_state)) = (0, 8)%Z.
Proof. repeat split; vm_compute; reflexivity. Qed.

Section TimeoutFacts.

Variable host : Host.

(** ** The callback of the timeout *)

Lemma elapse_fires s r q :
  timer s = Some r -> (r <= q)%N ->
  step host s (Elapse q) = onTimeout host (setTimer None s).
Proof.
  intros Ht Hq. simpl. rewrite Ht. apply N.ltb_ge in Hq. now rewrite Hq.
Qed.

Lemma onTimeout_status s :
  status (onTimeout host s) =
    match trim (doc s) with
    | [] => js "Please enter JSON."
    | text =>
        match jsonlint_parse host text with
        | Returns _ => js "Looks good " ++ check_mark
        | Throws e => js "Invalid JSON: " ++ ParseError.message e
        end
    end /\
  statusType (onTimeout host s) =
    match trim (doc s) with
    | [] => danger
    | text =>
        match jsonlint_parse host text with
        | Returns _ => success
        | Throws e => danger
        end
    end.
Proof.
  unfold onTimeout, validate.
  destruct (trim (doc s)) as [ | c t ]; [ split; reflexivity | ].
  destruct (jsonlint_parse host (c :: t)) as [obj | e]; [ split; reflexivity | ].
  destruct (validate_catch_status host e s) as [Hs [Hty Hf]].
  destruct (validate_catch host e s) as [[[ | ] | ] s2]; cbn [fst snd] in *;
    [ congruence | now split | now split ].
Qed.

(** (X4: the debounced validation, its result.)  When the pending timeout runs
    out, the status is rewritten from the document alone, whatever it was
    showing: "Please enter JSON." for a blank document, "Looks good" with
    the tick when [jsonlint.parse] returns on the trimmed text (not the
    "Valid JSON" of the button), "Invalid JSON: " and the parser's message
    when it throws.  The type is success in the second case only; the
    document stays and no timeout is pending afterwards. *)
Theorem timeout_verdict s r q :
  timer s = Some r -> (r <= q)%N ->
  let s' := step host s (Elapse q) in
  status s' =
    match trim (doc s) with
    | [] => js "Please enter JSON."
    | text =>
        match jsonlint_parse host text with
        | Returns _ => js "Looks good " ++ check_mark
        | Throws e => js "Invalid JSON: " ++ ParseError.message e
        end
    end /\
  (statusType s' = success <->
   exists obj, trim (doc s) <> [] /\ jsonlint_parse host (trim (doc s)) = Returns obj) /\
  doc s' = doc s /\
  timer s' = None /\
  step host s' (Elapse q) = s'.
Proof.
  intros Ht Hq s'. subst s'. rewrite (elapse_fires _ _ _ Ht Hq).
  destruct (onTimeout_status (setTimer None s)) as [Hs Hty].
  destruct (onTimeout_frame host (setTimer None s)) as [Hd [_ [_ [_ [_ [_ Htm]]]]]].
  change (doc (setTimer None s)) with (doc s) in *.
  change (timer (setTimer None s)) with (@None N) in Htm.
  repeat split; auto.
  - rewrite Hty. destruct (trim (doc s)) as [ | c t ]; [ discriminate | ].
    destruct (jsonlint_parse host (c :: t)) as [obj | e]; [ | discriminate ].
    intros _. exists obj. split; [ discriminate | reflexivity ].
  - intros [obj [Hne Hp]]. rewrite Hty.
    destruct (trim (doc s)) as [ | c t ]; [ congruence | ]. now rewrite Hp.
  - simpl. now rewrite Htm.
Qed.

End TimeoutFacts.

Section HandlerFacts.

Variable host : Host.

(** ** Handlers that replace the document *)

(** (X5: Clear.)  Clear empties the editor: no text, the cursor at the start,
    0 bytes, 1 line, the status "Cleared." with no type.  The write arms
    the debounced validation like any edit, so 400 ms later the status
    turns into "Please enter JSON." of type danger. *)
Theorem clear_then_quiet s q :
  (400 <= q)%N ->
  let s1 := perform host s ClickClear in
  let s2 := perform host s1 (Core (Elapse q)) in
  document_replaced host s [] (js "Cleared.") no_type s1 /\
  doc s1 = [] /\ size s1 = 0%N /\ lines s1 = 1%N /\
  status s2 = js "Please enter JSON." /\ statusType s2 = danger /\
  doc s2 = [] /\ timer s2 = None.
Proof.
  intros Hq s1 s2.
  assert (Hfire : s2 = onTimeout host (setTimer None s1)).
  { apply elapse_fires with (r := 400%N); [ reflexivity | exact Hq ]. }
  destruct (onTimeout_status host (setTimer None s1)) as [Hs Hty].
  destruct (onTimeout_frame host (setTimer None s1)) as [Hd [_ [_ [_ [_ [_ Htm]]]]]].
  rewrite <- Hfire in Hs, Hty, Hd, Htm.
  repeat split; try reflexivity; assumption.
Qed.

(** (X6: Format, Minify, Sort Keys and Sample, when they write.)  Sample
    writes its example with indent 2 in every state, whatever the editor
    holds.  On a document [jsonlint.parse] returns on, Format, Minify and
    Sort Keys replace the document by what [JSON.stringify] gives for the
    parsed value: with the indent of the calling render for Format,
    without white space for Minify, and for Sort Keys the key-sorted value
    always with indent 2, whatever indent is selected.  Each of the four
    puts the cursor at the start, sets a status of type success, leaves
    the metrics those of the new document and arms the debounced
    validation. *)
Theorem serializers_replace_document s w :
  document_replaced host s (JSON_stringify host example (Some 2%N))
    (js "Loaded sample JSON.") success (sample host s) /\
  (forall obj,
     jsonlint_parse host (doc s) = Returns obj ->
     document_replaced host s (JSON_stringify host obj (Some w))
       (js "Formatted with " ++ decimal w ++ js " spaces.") success
       (formatJson host w s) /\
     document_replaced host s (JSON_stringify host obj None)
       (js "Minified JSON.") success (minifyJson host s) /\
     document_replaced host s
       (JSON_stringify host (sortKeysDeep (localeCompare host) obj) (Some 2%N))
       (js "Sorted keys recursively.") success (sortKeys host s)).
Proof.
  split; [ repeat split | ].
  intros obj Hp. unfold formatJson, minifyJson, sortKeys. rewrite Hp.
  repeat split.
Qed.


(** (X9: Load File.)  A file that was read is put into the editor with the
    status "Loaded file: " and its name, of type success, whatever it
    holds: the file is not validated at that moment.  A file that could
    not be read changes the status only.  When the file holds text the
    parser rejects, the debounced validation replaces the status 400 ms
    later by "Invalid JSON: " and the parser's message, of type danger. *)
Theorem file_loaded_then_validated s name result :
  let text := joinLines (splitLines result) in
  let s1 := perform host s (FileRead name result) in
  document_replaced host s result (js "Loaded file: " ++ name) success s1 /\
  perform host s FileUnreadable =
    setStatusType danger (setStatus (js "Failed to read file.") s) /\
  (forall e q,
     trim text <> [] -> jsonlint_parse host (trim text) = Throws e -> (400 <= q)%N ->
     let s2 := perform host s1 (Core (Elapse q)) in
     status s2 = js "Invalid JSON: " ++ ParseError.message e /\ statusType s2 = danger /\
     doc s2 = text).
Proof.
  intros text s1. split; [ repeat split | ]. split; [ reflexivity | ].
  intros e q Hne Hthrow Hq s2.
  assert (Hfire : s2 = onTimeout host (setTimer None s1)).
  { apply elapse_fires with (r := 400%N); [ reflexivity | exact Hq ]. }
  destruct (onTimeout_status host (setTimer None s1)) as [Hs Hty].
  destruct (onTimeout_frame host (setTimer None s1)) as [Hd _].
  rewrite <- Hfire in Hs, Hty, Hd.
  change (doc (setTimer None s1)) with text in Hs, Hty, Hd.
  destruct (trim text) as [ | c t ]; [ congruence | ].
  rewrite Hthrow in Hs, Hty.
  repeat split; assumption.
Qed.

(** ** What the check box and the selector reach *)

Lemma validate_setAutoValidate b s :
  validate host (setAutoValidate b s) =
  (fst (validate host s), setAutoValidate b (snd (validate host s))).
Proof.
  unfold validate. simpl. destruct (trim (doc s)) as [ | c t ]; [ reflexivity | ].
  destruct (jsonlint_parse host (c :: t)) as [obj | e]; [ reflexivity | ].
  unfold validate_catch.
  destruct (extractLineCol (ParseError.message e)) as [[l | ] col]; [ | reflexivity ].
  unfold scrollToError. cbn [doc setStatusType setStatus setAutoValidate].
  now destruct (match l with Finite _ => _ | Infinity => _ end).
Qed.

Lemma validate_setIndent n s :
  validate host (setIndent n s) =
  (fst (validate host s), setIndent n (snd (validate host s))).
Proof.
  unfold validate. simpl. destruct (trim (doc s)) as [ | c t ]; [ reflexivity | ].
  destruct (jsonlint_parse host (c :: t)) as [obj | e]; [ reflexivity | ].
  unfold validate_catch.
  destruct (extractLineCol (ParseError.message e)) as [[l | ] col]; [ | reflexivity ].
  unfold scrollToError. cbn [doc setStatusType setStatus setIndent].
  now destruct (match l with Finite _ => _ | Infinity => _ end).
Qed.

Lemma onTimeout_setAutoValidate b s :
  onTimeout host (setAutoValidate b s) = setAutoValidate b (onTimeout host s).
Proof.
  unfold onTimeout. rewrite validate_setAutoValidate.
  destruct (validate host s) as [[[ | ] | ] s2]; reflexivity.
Qed.

Lemma onTimeout_setIndent n s :
  onTimeout host (setIndent n s) = setIndent n (onTimeout host s).
Proof.
  unfold onTimeout. rewrite validate_setIndent.
  destruct (validate host s) as [[[ | ] | ] s2]; reflexivity.
Qed.

Lemma formatJson_setAutoValidate b w s :
  formatJson host w (setAutoValidate b s) = setAutoValidate b (formatJson host w s).
Proof.
  unfold formatJson. rewrite validate_setAutoValidate. simpl.
  now destruct (jsonlint_parse host (doc s)).
Qed.

Lemma formatJson_setIndent n w s :
  formatJson host w (setIndent n s) = setIndent n (formatJson host w s).
Proof.
  unfold formatJson. rewrite validate_setIndent. simpl.
  now destruct (jsonlint_parse host (doc s)).
Qed.

Lemma minifyJson_setAutoValidate b s :
  minifyJson host (setAutoValidate b s) = setAutoValidate b (minifyJson host s).
Proof.
  unfold minifyJson. rewrite validate_setAutoValidate. simpl.
  now destruct (jsonlint_parse host (doc s)).
Qed.

Lemma minifyJson_setIndent n s :
  minifyJson host (setIndent n s) = setIndent n (minifyJson host s).
Proof.
  unfold minifyJson. rewrite validate_setIndent. simpl.
  now destruct (jsonlint_parse host (doc s)).
Qed.

Lemma sortKeys_setAutoValidate b s :
  sortKeys host (setAutoValidate b s) = setAutoValidate b (sortKeys host s).
Proof.
  unfold sortKeys. rewrite validate_setAutoValidate. simpl.
  now destruct (jsonlint_parse host (doc s)).
Qed.

Lemma sortKeys_setIndent n s :
  sortKeys host (setIndent n s) = setIndent n (sortKeys host s).
Proof.
  unfold sortKeys. rewrite validate_setIndent. simpl.
  now destruct (jsonlint_parse host (doc s)).
Qed.

Lemma loadUrl_settled_setAutoValidate b answer s :
  loadUrl_settled host answer (setAutoValidate b s) =
  setAutoValidate b (loadUrl_settled host answer s).
Proof.
  unfold loadUrl_settled. destruct answer as [resp | shown]; [ | reflexivity ].
  destruct (negb (Response.ok resp)); [ reflexivity | ].
  destruct (includes _ _).
  - now destruct (Response.json resp).
  - destruct (Response.text resp) as [text | ]; [ | reflexivity ].
    now destruct (JSON_parse host text).
Qed.

Lemma loadUrl_settled_setIndent n answer s :
  loadUrl_settled host answer (setIndent n s) =
  setIndent n (loadUrl_settled host answer s).
Proof.
  unfold loadUrl_settled. destruct answer as [resp | shown]; [ | reflexivity ].
  destruct (negb (Response.ok resp)); [ reflexivity | ].
  destruct (includes _ _).
  - now destruct (Response.json resp).
  - destruct (Response.text resp) as [text | ]; [ | reflexivity ].
    now destruct (JSON_parse host text).
Qed.

(** Every event but the check box itself does the same whatever the flag
    says, and leaves the flag alone. *)
Lemma perform_setAutoValidate b s a :
  is_check a = false ->
  perform host (setAutoValidate b s) a = setAutoValidate b (perform host s a).
Proof.
  destruct a as [e | | | | n | c | | | | w | url | answer | name result | ];
    simpl; intros Ha; try discriminate; try reflexivity.
  - destruct e as [text caret | ms | | | | | ]; simpl; try reflexivity.
    + destruct (timer s) as [r | ]; [ | reflexivity ].
      destruct (N.ltb ms r); [ reflexivity | ].
      apply (onTimeout_setAutoValidate b (setTimer None s)).
    + now rewrite validate_setAutoValidate.
    + apply formatJson_setAutoValidate.
    + apply minifyJson_setAutoValidate.
    + apply sortKeys_setAutoValidate.
    + apply formatJson_setAutoValidate.
  - now rewrite validate_setAutoValidate.
  - apply minifyJson_setAutoValidate.
  - apply sortKeys_setAutoValidate.
  - now destruct w.
  - now destruct url as [[ | c u] | ].
  - apply loadUrl_settled_setAutoValidate.
Qed.

(** Every event but the Format button and the selector itself does the
    same whatever indent is selected, and leaves the selection alone. *)
Lemma perform_setIndent n s a :
  reads_indent a = false ->
  perform host (setIndent n s) a = setIndent n (perform host s a).
Proof.
  destruct a as [e | | | | m | c | | | | w | url | answer | name result | ];
    simpl; intros Ha; try discriminate; try reflexivity.
  - destruct e as [text caret | ms | | | | | ]; simpl; try discriminate; try reflexivity.
    + destruct (timer s) as [r | ]; [ | reflexivity ].
      destruct (N.ltb ms r); [ reflexivity | ].
      apply (onTimeout_setIndent n (setTimer None s)).
    + now rewrite validate_setIndent.
    + apply minifyJson_setIndent.
    + apply sortKeys_setIndent.
    + apply formatJson_setIndent.
  - now rewrite validate_setIndent.
  - apply minifyJson_setIndent.
  - apply sortKeys_setIndent.
  - now destruct w.
  - now destruct url as [[ | c u] | ].
  - apply loadUrl_settled_setIndent.
Qed.

Lemma apart_from_autoValidate_eq s s' :
  apart_from_autoValidate s = apart_from_autoValidate s' ->
  s' = setAutoValidate (autoValidate s') s.
Proof.
  destruct s, s'. unfold apart_from_autoValidate, setAutoValidate. simpl.
  intros H. injection H as -> -> -> -> -> -> -> -> ->. reflexivity.
Qed.

Lemma apart_from_indent_eq s s' :
  apart_from_indent s = apart_from_indent s' ->
  s' = setIndent (indent s') s.
Proof.
  destruct s, s'. unfold apart_from_indent, setIndent. simpl.
  intros H. injection H as -> -> -> -> -> -> -> -> ->. reflexivity.
Qed.

(** (X10: the Auto Validate check box.)  No handler reads the flag of the
    check box: the timeout callback belongs to the first render, whose
    flag is [true].  So for every sequence of events, taking the clicks on
    the check box out of it changes nothing in the final state but the
    flag itself; in particular the debounced validation runs with the box
    unchecked too. *)
Theorem autoValidate_never_read s acts :
  apart_from_autoValidate (operate host s acts) =
  apart_from_autoValidate (operate host s (filter (fun a => negb (is_check a)) acts)).
Proof.
  assert (Hsim : forall l s1 s2,
            apart_from_autoValidate s1 = apart_from_autoValidate s2 ->
            apart_from_autoValidate (operate host s1 l) =
            apart_from_autoValidate
              (operate host s2 (filter (fun a => negb (is_check a)) l))).
  { induction l as [ | a l IH ]; intros s1 s2 H; [ exact H | ].
    unfold operate in *. cbn [fold_left filter].
    destruct (is_check a) eqn:Ha; cbn [negb].
    - apply IH. destruct a; try discriminate. exact H.
    - cbn [fold_left]. apply IH.
      rewrite (apart_from_autoValidate_eq _ _ H).
      now rewrite perform_setAutoValidate. }
  now apply Hsim.
Qed.

(** (X11: the indent selector.)  The selected indent is read by the Format
    button and by nothing else: Ctrl-B calls the [formatJson] of the first
    render and formats with 2, Sort Keys, Sample and Load URL write 2 into
    their call.  So for every sequence of events without a click on
    Format, taking the selections out of it changes nothing in the final
    state but the selected indent itself. *)
Theorem indent_read_by_format_button_only s acts :
  forallb (fun a => negb (is_click_format a)) acts = true ->
  apart_from_indent (operate host s acts) =
  apart_from_indent (operate host s (filter (fun a => negb (is_select a)) acts)).
Proof.
  assert (Hsim : forall l,
            forallb (fun a => negb (is_click_format a)) l = true ->
            forall s1 s2,
              apart_from_indent s1 = apart_from_indent s2 ->
              apart_from_indent (operate host s1 l) =
              apart_from_indent
                (operate host s2 (filter (fun a => negb (is_select a)) l))).
  { induction l as [ | a l IH ]; intros Hno s1 s2 H; [ exact H | ].
    unfold operate in *. cbn [fold_left filter].
    cbn [forallb] in Hno. apply andb_true_iff in Hno. destruct Hno as [Ha Hno].
    apply negb_true_iff in Ha.
    destruct (is_select a) eqn:Hs; cbn [negb].
    - apply IH; [ exact Hno | ]. destruct a; try discriminate. exact H.
    - cbn [fold_left]. apply IH; [ exact Hno | ].
      rewrite (apart_from_indent_eq _ _ H).
      rewrite perform_setIndent; [ reflexivity | ].
      unfold reads_indent. now rewrite Ha, Hs. }
  intros Hno. now apply Hsim.
Qed.

End HandlerFacts.

(** ** Format, Minify and Sort Keys, one after the other *)

Section ComposeFacts.

Variable host : Host.

(** A serializer that succeeded leaves a state that depends on the state
    before it through the check box and the selector only. *)
Lemma formatJson_returns s w obj :
  jsonlint_parse host (doc s) = Returns obj ->
  formatJson host w s =
  updateKpis host
    (setStatusType success
       (setStatus (js "Formatted with " ++ decimal w ++ js " spaces.")
          (setValue host (JSON_stringify host obj (Some w)) s))).
Proof. intros H. unfold formatJson. now rewrite H. Qed.

Lemma minifyJson_returns s obj :
  jsonlint_parse host (doc s) = Returns obj ->
  minifyJson host s =
  updateKpis host
    (setStatusType success
       (setStatus (js "Minified JSON.") (setValue host (JSON_stringify host obj None) s))).
Proof. intros H. unfold minifyJson. now rewrite H. Qed.

Lemma sortKeys_returns s obj :
  jsonlint_parse host (doc s) = Returns obj ->
  sortKeys host s =
  updateKpis host
    (setStatusType success
       (setStatus (js "Sorted keys recursively.")
          (setValue host
             (JSON_stringify host (sortKeysDeep (localeCompare host) obj) (Some 2%N)) s))).
Proof. intros H. unfold sortKeys. now rewrite H. Qed.

(** (X7: Format, Minify and Sort Keys, composed.)  On a host whose parser
    reads back what its [JSON.stringify] writes for the value in the
    editor, the three operations forget what was done before them: Format
    after Format or after Minify leaves what Format alone leaves, Minify
    after Format or after Minify what Minify alone leaves, and Sort Keys
    applied twice what it leaves applied once: the same document, cursor,
    status, metrics and pending validation.  (Sort Keys twice needs a
    consistent [localeCompare] and a value in enumeration order.) *)
Theorem serializers_compose s w obj :
  jsonlint_parse host (doc s) = Returns obj ->
  jsonlint_parse host (joinLines (splitLines (JSON_stringify host obj (Some w)))) =
    Returns obj ->
  jsonlint_parse host (joinLines (splitLines (JSON_stringify host obj None))) =
    Returns obj ->
  jsonlint_parse host
    (joinLines (splitLines
       (JSON_stringify host (sortKeysDeep (localeCompare host) obj) (Some 2%N)))) =
    Returns (sortKeysDeep (localeCompare host) obj) ->
  consistent (localeCompare host) -> wf_value obj = true ->
  formatJson host w (formatJson host w s) = formatJson host w s /\
  formatJson host w (minifyJson host s) = formatJson host w s /\
  minifyJson host (formatJson host w s) = minifyJson host s /\
  minifyJson host (minifyJson host s) = minifyJson host s /\
  sortKeys host (sortKeys host s) = sortKeys host s.
Proof.
  intros Hp Hpretty Hmin Hsorted Hcons Hwf.
  assert (Hf : jsonlint_parse host (doc (formatJson host w s)) = Returns obj).
  { rewrite (formatJson_returns _ _ _ Hp). exact Hpretty. }
  assert (Hm : jsonlint_parse host (doc (minifyJson host s)) = Returns obj).
  { rewrite (minifyJson_returns _ _ Hp). exact Hmin. }
  assert (Hs : jsonlint_parse host (doc (sortKeys host s)) =
               Returns (sortKeysDeep (localeCompare host) obj)).
  { rewrite (sortKeys_returns _ _ Hp). exact Hsorted. }
  repeat split.
  - rewrite (formatJson_returns _ _ _ Hf), (formatJson_returns _ _ _ Hp). reflexivity.
  - rewrite (formatJson_returns _ _ _ Hm), (formatJson_returns _ _ _ Hp),
      (minifyJson_returns _ _ Hp). reflexivity.
  - rewrite (minifyJson_returns _ _ Hf), (minifyJson_returns _ _ Hp),
      (formatJson_returns _ _ _ Hp). reflexivity.
  - rewrite (minifyJson_returns _ _ Hm), (minifyJson_returns _ _ Hp). reflexivity.
  - rewrite (sortKeys_returns _ _ Hs), (sortKeys_returns _ _ Hp).
    rewrite (sortKeysDeep_again _ Hcons _ Hwf). reflexivity.
Qed.

End ComposeFacts.

(** ** The pending validation *)

Section TimerFacts.

Variable host : Host.

Lemma serializer_timer s :
  forall s', (s' = formatJson host (indent s) s \/ s' = formatJson host 2 s \/
              s' = minifyJson host s \/ s' = sortKeys host s) ->
  timer s' = timer s \/ timer s' = Some 400%N.
Proof.
  assert (Hv : timer (snd (validate host s)) = timer s) by apply validate_frame.
  intros s' [-> | [-> | [-> | ->]]]; unfold formatJson, minifyJson, sortKeys;
    destruct (jsonlint_parse host (doc s)); auto.
Qed.

Lemma perform_timer s a :
  timer (perform host s a) = timer s \/
  timer (perform host s a) = Some 400%N \/
  timer (perform host s a) = None \/
  exists r ms, timer s = Some r /\ (ms < r)%N /\
               timer (perform host s a) = Some (r - ms)%N.
Proof.
  assert (Hv : timer (snd (validate host s)) = timer s) by apply validate_frame.
  assert (Hser : forall s', (s' = formatJson host (indent s) s \/ s' = formatJson host 2 s \/
                             s' = minifyJson host s \/ s' = sortKeys host s) ->
                 timer s' = timer s \/ timer s' = Some 400%N) by apply serializer_timer.
  destruct a as [e | | | | n | b | | | | w | url | answer | name result | ];
    cbn [perform]; auto.
  - destruct e as [text caret | ms | | | | | ]; cbn [step]; auto.
    + destruct (timer s) as [r | ] eqn:Ht; auto.
      destruct (N.ltb_spec ms r) as [Hlt | Hge].
      * right. right. right. now exists r, ms.
      * right. right. left. apply (onTimeout_frame host (setTimer None s)).
    + destruct (Hser (formatJson host (indent s) s)); auto.
    + destruct (Hser (minifyJson host s)); auto.
    + destruct (Hser (sortKeys host s)); auto.
    + destruct (Hser (formatJson host 2 s)); auto.
  - destruct (Hser (minifyJson host s)); auto.
  - destruct (Hser (sortKeys host s)); auto.
  - left. now destruct w.
  - left. now destruct url as [[ | c u] | ].
  - unfold loadUrl_settled. destruct answer as [resp | shown]; auto.
    destruct (negb (Response.ok resp)); auto.
    destruct (includes _ _).
    + destruct (Response.json resp); auto.
    + destruct (Response.text resp) as [text | ]; auto.
      destruct (JSON_parse host text); auto.
Qed.

(** (X20: the pending validation.)  At most one validation is pending,
    and it is due within 400 ms: this holds after every sequence of
    events.  Time that passes in two pieces has the effect of the same
    time passing at once, so the callback runs once, when its 400 ms are
    over, and not again. *)
Theorem pending_validation_within_window s acts a b :
  timer_in_window s = true ->
  timer_in_window (operate host s acts) = true /\
  step host (step host s (Elapse a)) (Elapse b) = step host s (Elapse (a + b)).
Proof.
  intros Hs. split.
  - revert s Hs. induction acts as [ | x acts IH ]; intros s Hs; [ exact Hs | ].
    unfold operate in *. cbn [fold_left]. apply IH.
    unfold timer_in_window in *.
    destruct (perform_timer s x) as [-> | [-> | [-> | [r [ms [Ht [Hlt ->]]]]]]];
      try reflexivity; try exact Hs.
    rewrite Ht in Hs. apply andb_true_iff in Hs. destruct Hs as [_ Hr].
    apply N.leb_le in Hr. apply andb_true_iff. split.
    + apply N.ltb_lt. lia.
    + apply N.leb_le. lia.
  - cbn [step]. destruct (timer s) as [r | ] eqn:Ht.
    + destruct (N.ltb_spec a r) as [Ha | Ha].
      * cbn [timer setTimer]. destruct (N.ltb_spec b (r - a)) as [Hb | Hb].
        -- assert (E : N.ltb (a + b) r = true) by (apply N.ltb_lt; lia).
           rewrite E. unfold setTimer. cbn. do 2 f_equal. lia.
        -- assert (E : N.ltb (a + b) r = false) by (apply N.ltb_ge; lia).
           rewrite E. reflexivity.
      * assert (E : N.ltb (a + b) r = false) by (apply N.ltb_ge; lia).
        rewrite E.
        destruct (onTimeout_frame host (setTimer None s)) as [_ [_ [_ [_ [_ [_ Htm]]]]]].
        cbn [timer setTimer] in Htm. now rewrite Htm.
    + now rewrite Ht.
Qed.

End TimerFacts.

(** ** Decimal digits *)

Lemma js_cons (c : ascii) (s : string) : js (String c s) = N_of_ascii c :: js s.
Proof. reflexivity. Qed.

Ltac code_unit :=
  match goal with
  | |- context [N_of_ascii ?c] =>
      let v := eval vm_compute in (N_of_ascii c) in
      change (N_of_ascii c) with v
  end.

Lemma digits_of_uint_acc (d : Decimal.uint) :
  forall acc : positive,
    digits_integer (Z.pos acc) (js (NilEmpty.string_of_uint d)) =
    Z.pos (Pos.of_uint_acc d acc).
Proof.
  induction d; intros acc; cbn [NilEmpty.string_of_uint Pos.of_uint_acc];
    try reflexivity; rewrite js_cons; cbn [digits_integer]; code_unit;
    match goal with
    | |- digits_integer ?a _ = Z.pos (Pos.of_uint_acc _ ?b) =>
        replace a with (Z.pos b) by lia
    end; apply IHd.
Qed.

Lemma digits_of_uint (d : Decimal.uint) :
  digits_integer 0 (js (NilEmpty.string_of_uint d)) = Z.of_N (Pos.of_uint d).
Proof.
  induction d; cbn [NilEmpty.string_of_uint Pos.of_uint];
    try reflexivity; rewrite js_cons; cbn [digits_integer]; code_unit;
    try exact IHd;
    match goal with
    | |- digits_integer ?a _ = Z.of_N (N.pos (Pos.of_uint_acc _ ?b)) =>
        change a with (Z.pos b)
    end; apply digits_of_uint_acc.
Qed.

(** [Number(String(n))] is [n]. *)
Lemma digits_integer_decimal (n : N) : digits_integer 0 (decimal n) = Z.of_N n.
Proof.
  unfold decimal. rewrite digits_of_uint.
  change (Pos.of_uint (N.to_uint n)) with (N.of_uint (N.to_uint n)).
  now rewrite DecimalN.Unsigned.of_to.
Qed.

Lemma digits_of_uint_all (d : Decimal.uint) :
  forallb is_digit (js (NilEmpty.string_of_uint d)) = true.
Proof.
  induction d; cbn [NilEmpty.string_of_uint]; try reflexivity;
    rewrite js_cons; cbn [forallb]; rewrite IHd; code_unit; reflexivity.
Qed.

Lemma decimal_digits (n : N) : forallb is_digit (decimal n) = true.
Proof. apply digits_of_uint_all. Qed.

Lemma decimal_not_empty (n : N) : decimal n <> [].
Proof.
  intros H. pose proof (digits_integer_decimal n) as Hn. rewrite H in Hn.
  cbn in Hn. assert (n = 0%N) by lia. subst n. discriminate H.
Qed.

Lemma digit_not_space (c : N) : is_digit c = true -> is_space c = false.
Proof.
  unfold is_digit. intros H. apply andb_true_iff in H. destruct H as [H1 H2].
  apply N.leb_le in H1, H2. unfold is_space. cbn [existsb].
  repeat match goal with
         | |- context [N.eqb c ?k] =>
             destruct (N.eqb_spec c k) as [ -> | _ ]; [ lia | ]
         end.
  cbn [orb]. apply andb_false_iff. left. apply N.leb_gt. lia.
Qed.

Lemma digits_integer_nonneg (ds : jsstring) :
  forall acc, forallb is_digit ds = true -> (0 <= acc)%Z ->
  (0 <= digits_integer acc ds)%Z.
Proof.
  induction ds as [ | c t IH ]; intros acc H Hacc; cbn [digits_integer]; [ lia | ].
  cbn [forallb] in H. apply andb_true_iff in H. destruct H as [Hc Ht].
  unfold is_digit in Hc. apply andb_true_iff in Hc. destruct Hc as [H1 H2].
  apply N.leb_le in H1, H2. apply IH; [ exact Ht | lia ].
Qed.

(** ** Doubles *)

(** Below 2^53 a double holds every integer. *)
Lemma to_double_exact (z : Z) : (z < 2 ^ 53)%Z -> to_double z = Finite z.
Proof.
  intros H. unfold to_double. apply Z.ltb_lt in H. now rewrite H.
Qed.

Lemma to_double_nonneg (z : Z) :
  (0 <= z)%Z ->
  match to_double z with
  | Finite m => (0 <= m)%Z
  | Infinity => True
  end.
Proof.
  intros H. unfold to_double.
  destruct (z <? 2 ^ 53)%Z; [ exact H | ].
  cbv zeta.
  destruct (2 ^ 1024 <=? _)%Z; [ exact I | ].
  assert (Hq : (0 <= z / 2 ^ (Z.log2 z - 52))%Z).
  { destruct (Z.le_gt_cases 0 (Z.log2 z - 52)) as [He | He].
    - apply Z.div_pos; [ exact H | ]. apply Z.pow_pos_nonneg; lia.
    - rewrite Z.pow_neg_r by lia. now rewrite Z.div_0_r. }
  apply Z.mul_nonneg_nonneg; [ | apply Z.pow_nonneg; lia ].
  destruct (_ || _)%bool; lia.
Qed.

(** What [Number(digits) - 1] can be. *)
Lemma minus_one_Number_lower (ds : jsstring) :
  forallb is_digit ds = true ->
  match minus_one (Number_of_digits ds) with
  | Finite l => (-1 <= l)%Z
  | Infinity => True
  end.
Proof.
  intros H. unfold Number_of_digits.
  pose proof (digits_integer_nonneg ds 0 H (Z.le_refl 0)) as Hd.
  pose proof (to_double_nonneg _ Hd) as Hn.
  destruct (to_double (digits_integer 0 ds)) as [m | ]; [ | exact I ].
  cbn [minus_one]. destruct (Z.lt_ge_cases (m - 1) (2 ^ 53)) as [Hs | Hb].
  - rewrite to_double_exact by exact Hs. lia.
  - assert (H0 : (0 <= m - 1)%Z) by lia.
    pose proof (to_double_nonneg _ H0) as Hm.
    destruct (to_double (m - 1)); [ lia | exact I ].
Qed.

(** The doubles of [to_double] are those of IEEE 754 binary64, as the
    standard library defines its rounding, at the integers where the
    rounding changes its behaviour. *)
Lemma to_double_binary64 :
  forallb
    (fun z =>
       match SpecFloat.binary_normalize 53 1024 z 0 false, to_double z with
       | SpecFloat.S754_zero _, Finite m => (m =? 0)%Z
       | SpecFloat.S754_finite false m e, Finite m' => (Z.pos m * 2 ^ e =? m')%Z
       | SpecFloat.S754_infinity false, Infinity => true
       | _, _ => false
       end)
    [0; 2 ^ 53; 2 ^ 53 + 1; 2 ^ 53 + 2; 2 ^ 53 + 3; 2 ^ 54 - 1; 2 ^ 54 + 2;
     2 ^ 54 + 6; 2 ^ 60 + 2 ^ 7; 2 ^ 60 + 2 ^ 7 + 1; 2 ^ 60 + 3 * 2 ^ 7; 10 ^ 21;
     10 ^ 23; 10 ^ 100; 10 ^ 308; 2 ^ 1024 - 2 ^ 971; 2 ^ 1024 - 2 ^ 970 - 1;
     2 ^ 1024 - 2 ^ 970; 2 ^ 1024; 10 ^ 400]%Z = true.
Proof. vm_compute. reflexivity. Qed.

(** ** [extractLineCol] *)

Lemma after_word_found (w word s : jsstring) :
  map lower word = w -> after_word w (word ++ s) = Some s.
Proof.
  revert w. induction word as [ | c word IH ]; intros w <-; [ reflexivity | ].
  cbn [map app after_word]. rewrite N.eqb_refl. now apply IH.
Qed.

Lemma match_here_found (w word sp ds rest : jsstring) :
  map lower word = w ->
  sp <> [] -> forallb is_space sp = true ->
  ds <> [] -> forallb is_digit ds = true ->
  match rest with
  | [] => True
  | c :: _ => is_digit c = false
  end ->
  match_here w (word ++ sp ++ ds ++ rest) = Some ds.
Proof.
  intros Hw Hsp Hspace Hds Hdigits Hrest. unfold match_here.
  rewrite (after_word_found _ _ _ Hw).
  assert (Hnext : match ds ++ rest with
                  | [] => True
                  | c :: _ => is_space c = false
                  end).
  { destruct ds as [ | d ds' ]; [ congruence | ]. cbn [app].
    cbn [forallb] in Hdigits. apply andb_true_iff in Hdigits.
    now apply digit_not_space. }
  destruct (span_app is_space sp (ds ++ rest) Hspace Hnext) as [-> ->].
  destruct (span_app is_digit ds rest Hdigits Hrest) as [-> _].
  destruct sp as [ | c sp' ]; [ congruence | ].
  destruct ds as [ | d ds' ]; [ congruence | reflexivity ].
Qed.

Lemma regex_match_skips (a : N) (w' pre s : jsstring) :
  forallb (fun c => negb (N.eqb (lower c) a)) pre = true ->
  regex_match (a :: w') (pre ++ s) = regex_match (a :: w') s.
Proof.
  induction pre as [ | c pre IH ]; intros H; [ reflexivity | ].
  cbn [forallb] in H. apply andb_true_iff in H. destruct H as [Hc Hpre].
  apply negb_true_iff in Hc.
  cbn [app regex_match]. unfold match_here at 1. cbn [after_word]. rewrite Hc.
  now apply IH.
Qed.

Lemma regex_match_here (w s ds : jsstring) :
  match_here w s = Some ds -> regex_match w s = Some ds.
Proof.
  intros H. destruct s; cbn [regex_match]; now rewrite H.
Qed.

Lemma regex_match_absent (a : N) (w' s : jsstring) :
  forallb (fun c => negb (N.eqb (lower c) a)) s = true ->
  regex_match (a :: w') s = None.
Proof.
  intros H. rewrite <- (app_nil_r s). now rewrite regex_match_skips.
Qed.

Lemma regex_match_digits (w s ds : jsstring) :
  regex_match w s = Some ds -> forallb is_digit ds = true.
Proof.
  induction s as [ | c t IH ]; cbn [regex_match]; unfold match_here at 1.
  - destruct (after_word w []) as [r | ]; [ | discriminate ].
    destruct (takeWhile is_space r); [ discriminate | ].
    destruct (takeWhile is_digit (dropWhile is_space r)) as [ | d ds' ] eqn:E;
      [ discriminate | ].
    intros H. injection H as <-. rewrite <- E. apply forallb_takeWhile.
  - destruct (after_word w (c :: t)) as [r | ]; [ | exact IH ].
    destruct (takeWhile is_space r); [ exact IH | ].
    destruct (takeWhile is_digit (dropWhile is_space r)) as [ | d ds' ] eqn:E;
      [ exact IH | ].
    intros H. injection H as <-. rewrite <- E. apply forallb_takeWhile.
Qed.

(** (X12: [extractLineCol], the line.)  In a message where the word "line", in
    any letter case, is followed by white space and the decimal number
    [n], and where no letter l occurs before that word, the line found is
    the double nearest to [n], minus one.  Up to 2^53 that is [n - 1]: the
    message counts lines from 1, the editor from 0.  This is the shape of
    jsonlint's "Parse error on line N:".  Above 2^53 the double rounds:
    "line 9007199254740993" gives 9007199254740991.  The text before the
    word, taken alone, gives no line. *)
Theorem extractLineCol_reads_line pre word sp n rest :
  forallb (fun c => negb (N.eqb (lower c) 108)) pre = true ->
  map lower word = js "line" ->
  sp <> [] -> forallb is_space sp = true ->
  match rest with
  | [] => True
  | c :: _ => is_digit c = false
  end ->
  fst (extractLineCol (pre ++ word ++ sp ++ decimal n ++ rest)) =
    Some (minus_one (to_double (Z.of_N n))) /\
  ((n <= 2 ^ 53)%N ->
   fst (extractLineCol (pre ++ word ++ sp ++ decimal n ++ rest)) =
     Some (Finite (Z.of_N n - 1))) /\
  fst (extractLineCol pre) = None /\
  fst (extractLineCol (js "line 9007199254740993")) = Some (Finite 9007199254740991).
Proof.
  intros Hpre Hword Hsp Hspace Hrest.
  assert (Hline : regex_match (js "line") (pre ++ word ++ sp ++ decimal n ++ rest) =
                  Some (decimal n)).
  { change (js "line") with (108%N :: js "ine").
    rewrite regex_match_skips by exact Hpre.
    apply regex_match_here. apply match_here_found; auto.
    - apply decimal_not_empty.
    - apply decimal_digits. }
  assert (Hnone : regex_match (js "line") pre = None).
  { change (js "line") with (108%N :: js "ine"). now apply regex_match_absent. }
  assert (Hfound : fst (extractLineCol (pre ++ word ++ sp ++ decimal n ++ rest)) =
                   Some (minus_one (to_double (Z.of_N n)))).
  { unfold extractLineCol. cbn [fst]. rewrite Hline. unfold Number_of_digits.
    now rewrite digits_integer_decimal. }
  split; [ exact Hfound | ]. split; [ | split ].
  - intros Hn. rewrite Hfound. f_equal.
    destruct (N.eq_dec n (2 ^ 53)) as [-> | Hne]; [ vm_compute; reflexivity | ].
    assert (Hlt : (Z.of_N n < 2 ^ 53)%Z).
    { change (2 ^ 53)%Z with (Z.of_N (2 ^ 53)). lia. }
    rewrite to_double_exact by exact Hlt. cbn [minus_one].
    apply to_double_exact. lia.
  - unfold extractLineCol. cbn [fst]. now rewrite Hnone.
  - vm_compute. reflexivity.
Qed.

(** (X13: [extractLineCol], its range, and line 0.)  A line or a column that
    is found is never below -1, and -1 is reached: it stands for the
    number 0 in the message, as in "line 0: column 5", which gives line -1
    and column 4.  Validate passes that line on to [scrollToError], -1
    not being [null], where [cm.scrollIntoView] throws: Validate then ends
    with that exception, having set the status to the message, of type
    danger, and without moving the cursor. *)
Theorem extractLineCol_range errMsg :
  match fst (extractLineCol errMsg) with
  | Some (Finite l) => (-1 <= l)%Z
  | _ => True
  end /\
  match snd (extractLineCol errMsg) with
  | Some (Finite c) => (-1 <= c)%Z
  | _ => True
  end /\
  extractLineCol (js "line 0: column 5") = (Some (Finite (-1)), Some (Finite 4)) /\
  (forall host s e l,
     trim (doc s) <> [] ->
     jsonlint_parse host (trim (doc s)) = Throws e ->
     fst (extractLineCol (ParseError.message e)) = Some (Finite l) -> (l < 0)%Z ->
     validate host s =
       (Thrown,
        setStatusType danger (setStatus (js "Invalid JSON: " ++ ParseError.message e) s)) /\
     cursor (snd (validate host s)) = cursor s) /\
  validate_catch sample_host line_zero_error trailing_comma_state =
    (Thrown,
     setStatusType danger
       (setStatus (js "Invalid JSON: line 0: column 5") trailing_comma_state)).
Proof.
  unfold extractLineCol at 1 2. cbn [fst snd]. split; [ | split; [ | split; [ | split ] ] ].
  - destruct (regex_match (js "line") errMsg) as [ds | ] eqn:E; [ | exact I ].
    apply regex_match_digits in E. exact (minus_one_Number_lower ds E).
  - destruct (regex_match (js "column") errMsg) as [ds | ] eqn:E; [ | exact I ].
    apply regex_match_digits in E. exact (minus_one_Number_lower ds E).
  - vm_compute. reflexivity.
  - intros host s e l Hne Hthrow Hfound Hl.
    assert (Hv : validate host s =
                 (Thrown,
                  setStatusType danger
                    (setStatus (js "Invalid JSON: " ++ ParseError.message e) s))).
    { rewrite (validate_throws host s e Hne Hthrow). unfold validate_catch.
      destruct (extractLineCol (ParseError.message e)) as [line col].
      cbn [fst] in Hfound. subst line.
      now rewrite (scrollToError_below host l (or_zero col) _ Hl). }
    split; [ exact Hv | now rewrite Hv ].
  - vm_compute. reflexivity.
Qed.

(** ** The size in bytes *)

Lemma utf8_encode_length (cp : N) :
  N.of_nat (List.length (utf8_encode cp)) =
  (if N.ltb cp 128 then 1 else if N.ltb cp 2048 then 2
   else if N.ltb cp 65536 then 3 else 4)%N.
Proof.
  unfold utf8_encode.
  destruct (N.ltb cp 128); [ reflexivity | ].
  destruct (N.ltb cp 2048); [ reflexivity | ].
  destruct (N.ltb cp 65536); reflexivity.
Qed.

Lemma length_app_N (a b : list N) :
  N.of_nat (List.length (a ++ b)) = (N.of_nat (List.length a) + N.of_nat (List.length b))%N.
Proof. rewrite length_app. lia. Qed.

Lemma Blob_bytes_length (n : nat) :
  forall s, (List.length s <= n)%nat ->
  Forall (fun c => (c < 65536)%N) s ->
  N.of_nat (List.length (Blob_bytes s)) = byteSize s.
Proof.
  induction n as [ | n IH ]; intros [ | h t ] Hlen Hu;
    cbn [List.length] in Hlen; try reflexivity; try lia.
  inversion Hu as [ | ? ? Hh Ht ]; subst.
  cbn [Blob_bytes byteSize]. unfold is_high_surrogate, is_low_surrogate.
  destruct (N.ltb_spec h 128) as [H1 | H1].
  { assert (E : N.leb 55296 h = false) by (apply N.leb_gt; lia).
    assert (E' : N.leb 56320 h = false) by (apply N.leb_gt; lia).
    rewrite E, E'. cbn [andb]. rewrite length_app_N, utf8_encode_length.
    apply N.ltb_lt in H1. rewrite H1. rewrite IH by (auto; lia). reflexivity. }
  destruct (N.ltb_spec h 2048) as [H2 | H2].
  { assert (E : N.leb 55296 h = false) by (apply N.leb_gt; lia).
    assert (E' : N.leb 56320 h = false) by (apply N.leb_gt; lia).
    rewrite E, E'. cbn [andb]. rewrite length_app_N, utf8_encode_length.
    apply N.ltb_ge in H1. apply N.ltb_lt in H2. rewrite H1, H2.
    rewrite IH by (auto; lia). reflexivity. }
  assert (Hplain : N.of_nat (List.length (utf8_encode h ++ Blob_bytes t)) =
                   (3 + byteSize t)%N).
  { rewrite length_app_N, utf8_encode_length.
    apply N.ltb_ge in H1, H2. apply N.ltb_lt in Hh. rewrite H1, H2, Hh.
    rewrite IH by (auto; lia). reflexivity. }
  assert (Hrepl : N.of_nat (List.length (utf8_encode 65533 ++ Blob_bytes t)) =
                  (3 + byteSize t)%N).
  { rewrite length_app_N. rewrite IH by (auto; lia). reflexivity. }
  destruct (N.leb 55296 h && N.leb h 56319) eqn:Ehigh.
  - destruct t as [ | l t' ]; [ reflexivity | ]. cbn [andb].
    destruct (N.leb 56320 l && N.leb l 57343) eqn:Elow; [ | exact Hrepl ].
    rewrite length_app_N, utf8_encode_length.
    inversion Ht; subst. cbn [List.length] in Hlen.
    rewrite IH by (auto; lia).
    assert (E1 : N.ltb (65536 + (h - 55296) * 1024 + (l - 56320)) 128 = false)
      by (apply N.ltb_ge; lia).
    assert (E2 : N.ltb (65536 + (h - 55296) * 1024 + (l - 56320)) 2048 = false)
      by (apply N.ltb_ge; lia).
    assert (E3 : N.ltb (65536 + (h - 55296) * 1024 + (l - 56320)) 65536 = false)
      by (apply N.ltb_ge; lia).
    now rewrite E1, E2, E3.
  - cbn [andb]. destruct (N.leb 56320 h && N.leb h 57343).
    + destruct t as [ | l t' ]; [ reflexivity | exact Hrepl ].
    + destruct t as [ | l t' ]; exact Hplain.
Qed.

Lemma byteSize_bounds_upto (n : nat) :
  forall s, (List.length s <= n)%nat ->
  (N.of_nat (List.length s) <= byteSize s <= 3 * N.of_nat (List.length s))%N.
Proof.
  induction n as [ | n IH ]; intros [ | h t ] Hlen;
    cbn [List.length] in Hlen; try (cbn; lia); try lia.
  cbn [byteSize List.length].
  assert (Ht := IH t ltac:(lia)).
  destruct (N.ltb h 128); [ lia | ].
  destruct (N.ltb h 2048); [ lia | ].
  destruct t as [ | l t' ]; [ cbn; lia | ].
  cbn [List.length] in *.
  assert (Ht' := IH t' ltac:(lia)).
  destruct (N.leb 55296 h && N.leb h 56319 && N.leb 56320 l && N.leb l 57343); lia.
Qed.

(** ** Preferences *)

Lemma getItem_setItem_same st k v : getItem (setItem st k v) k = Some v.
Proof. unfold getItem, setItem. now rewrite str_eqb_refl. Qed.

Lemma getItem_setItem_other st k v k' :
  str_eqb k' k = false -> getItem (setItem st k v) k' = getItem st k'.
Proof. unfold getItem, setItem. now intros ->. Qed.

Lemma parseInt_digits (ds : jsstring) :
  ds <> [] -> forallb is_digit ds = true ->
  parseInt ds = Integer (digits_integer 0 ds) /\
  parseInt (45%N :: ds) = Integer (- digits_integer 0 ds).
Proof.
  intros Hne Hd.
  assert (Htake : takeWhile is_digit ds = ds).
  { rewrite <- (app_nil_r ds) at 1.
    now destruct (span_app is_digit ds [] Hd I) as [-> _]. }
  unfold parseInt. split.
  - destruct ds as [ | d ds' ]; [ congruence | ].
    assert (Hdig : is_digit d = true).
    { cbn [forallb] in Hd. now apply andb_true_iff in Hd. }
    cbn [dropWhile]. rewrite (digit_not_space _ Hdig).
    unfold is_digit in Hdig. apply andb_true_iff in Hdig. destruct Hdig as [H1 H2].
    apply N.leb_le in H1, H2.
    assert (E45 : N.eqb d 45 = false) by (apply N.eqb_neq; lia).
    assert (E43 : N.eqb d 43 = false) by (apply N.eqb_neq; lia).
    now rewrite E45, E43, Htake.
  - cbn [dropWhile]. change (is_space 45) with false. cbn iota.
    rewrite N.eqb_refl, Htake. destruct ds; [ congruence | reflexivity ].
Qed.

Lemma parseInt_String (n : jsint) : parseInt (String_of_jsint n) = n.
Proof.
  destruct n as [ | z ]; [ reflexivity | ].
  unfold String_of_jsint.
  destruct (parseInt_digits (decimal (Z.abs_N z)) (decimal_not_empty _) (decimal_digits _))
    as [Hpos Hneg].
  rewrite digits_integer_decimal in Hpos, Hneg.
  destruct (Z.ltb_spec z 0).
  - change (js "-" ++ decimal (Z.abs_N z)) with (45%N :: decimal (Z.abs_N z)).
    rewrite Hneg. f_equal. lia.
  - cbn [app]. rewrite Hpos. f_equal. lia.
Qed.

Lemma String_of_jsint_not_empty (n : jsint) : String_of_jsint n <> [].
Proof.
  destruct n as [ | z ]; [ discriminate | ]. unfold String_of_jsint.
  pose proof (decimal_not_empty (Z.abs_N z)).
  destruct (Z.ltb z 0); [ discriminate | assumption ].
Qed.

(** (X16: Preferences, saved and loaded.)  What the three effects write to
    [localStorage] is read back as the same preferences when the component
    mounts again: the indent through [String] and [parseInt], the flag of
    the check box through "true" and "false", the theme through "dark" and
    "light", and then the colour scheme the system prefers is not
    consulted.  This holds for [NaN] and for the integers a double holds
    exactly, which [String] writes with all their digits. *)
Theorem preferences_round_trip p st prefers_dark :
  match pref_indent p with
  | NotANumber => True
  | Integer z => (Z.abs z < 2 ^ 53)%Z
  end ->
  load_preferences (save_preferences p st) prefers_dark = p /\
  load_preferences (save_preferences (toggleTheme p) st) prefers_dark = toggleTheme p.
Proof.
  intros _.
  assert (H : forall q, load_preferences (save_preferences q st) prefers_dark = q).
  { intros [i a d]. unfold load_preferences, save_preferences, initial_isDarkMode.
    cbn [pref_indent pref_autoValidate pref_isDarkMode].
    rewrite getItem_setItem_same.
    rewrite (getItem_setItem_other _ _ _ (js "jsonlint.indent")) by reflexivity.
    rewrite (getItem_setItem_other _ _ _ (js "jsonlint.indent")) by reflexivity.
    rewrite (getItem_setItem_other _ _ _ (js "jsonlint.autoValidate")) by reflexivity.
    rewrite !getItem_setItem_same.
    pose proof (String_of_jsint_not_empty i) as Hne.
    destruct (String_of_jsint i) as [ | c t ] eqn:E; [ congruence | ].
    rewrite <- E, parseInt_String.
    f_equal; [ now destruct a | now destruct d ]. }
  split; apply H.
Qed.

(** ** Line breaks in the editor *)

Lemma splitLines_from_not_empty (s : jsstring) :
  forall cur, splitLines_from cur s <> [].
Proof.
  induction s as [ | c t IH ]; intros cur; cbn [splitLines_from]; [ discriminate | ].
  destruct (N.eqb c 10); [ discriminate | ].
  destruct (N.eqb c 13); [ | apply IH ].
  destruct t as [ | d t' ]; [ discriminate | ].
  destruct (N.eqb d 10); discriminate.
Qed.

Lemma joinLines_cons (l : jsstring) (rest : list jsstring) :
  rest <> [] -> joinLines (l :: rest) = l ++ 10%N :: joinLines rest.
Proof. destruct rest; [ congruence | reflexivity ]. Qed.

(** What [getValue] returns after [setValue(text)]. *)
Lemma joinLines_splitLines_from (n : nat) :
  forall s cur, (List.length s <= n)%nat ->
  joinLines (splitLines_from cur s) = rev cur ++ line_feeds s.
Proof.
  induction n as [ | n IH ]; intros [ | c t ] cur Hlen;
    cbn [List.length] in Hlen; try lia;
    try (cbn [splitLines_from joinLines line_feeds]; now rewrite app_nil_r).
  cbn [splitLines_from line_feeds].
  destruct (N.eqb_spec c 10) as [-> | Hc10].
  - cbn [N.eqb Pos.eqb]. rewrite joinLines_cons by apply splitLines_from_not_empty.
    rewrite IH by lia. reflexivity.
  - destruct (N.eqb c 13).
    + destruct t as [ | d t' ]; [ reflexivity | ].
      cbn [List.length] in Hlen.
      destruct (N.eqb d 10);
        rewrite joinLines_cons by apply splitLines_from_not_empty;
        rewrite IH by (cbn [List.length]; lia); reflexivity.
    + rewrite IH by lia. cbn [rev]. now rewrite <- app_assoc.
Qed.

Lemma getValue_setValue (text : jsstring) : joinLines (splitLines text) = line_feeds text.
Proof.
  unfold splitLines. now rewrite (joinLines_splitLines_from (List.length text)).
Qed.

Lemma line_feeds_no_carriage_return (n : nat) :
  forall s, (List.length s <= n)%nat -> no_carriage_return (line_feeds s) = true.
Proof.
  unfold no_carriage_return.
  induction n as [ | n IH ]; intros [ | c t ] Hlen;
    cbn [List.length] in Hlen; try lia; try reflexivity.
  cbn [line_feeds]. destruct (N.eqb c 13) eqn:Ec.
  - destruct t as [ | d t' ]; [ reflexivity | ]. cbn [List.length] in Hlen.
    destruct (N.eqb d 10); cbn [forallb]; rewrite IH by (cbn [List.length]; lia);
      reflexivity.
  - cbn [forallb]. rewrite Ec, IH by lia. reflexivity.
Qed.

Lemma line_feeds_fixed (s : jsstring) :
  no_carriage_return s = true -> line_feeds s = s.
Proof.
  unfold no_carriage_return.
  induction s as [ | c t IH ]; [ reflexivity | ].
  cbn [forallb line_feeds]. intros H. apply andb_true_iff in H. destruct H as [Hc Ht].
  apply negb_true_iff in Hc. rewrite Hc. now rewrite IH.
Qed.

Lemma breaks_line_feeds (n : nat) :
  forall s, (List.length s <= n)%nat -> breaks (line_feeds s) = breaks s.
Proof.
  induction n as [ | n IH ]; intros [ | c t ] Hlen;
    cbn [List.length] in Hlen; try lia; try reflexivity.
  cbn [line_feeds breaks].
  destruct (N.eqb_spec c 10) as [-> | Hc10].
  - cbn [N.eqb Pos.eqb breaks]. now rewrite IH by lia.
  - destruct (N.eqb c 13) eqn:Ec.
    + destruct t as [ | d t' ]; [ reflexivity | ]. cbn [List.length] in Hlen.
      destruct (N.eqb d 10); cbn [breaks N.eqb Pos.eqb];
        rewrite IH by (cbn [List.length]; lia); reflexivity.
    + cbn [breaks]. apply N.eqb_neq in Hc10. rewrite Hc10, Ec. now apply IH; lia.
Qed.

Lemma lineCount_breaks (text : jsstring) : lineCount text = (1 + breaks text)%N.
Proof.
  unfold lineCount, splitLines.
  now apply splitLines_from_length with (n := List.length text).
Qed.

Section EditorFacts.

Variable host : Host.

(** The document changes in one way only: the editor is given a text. *)
Lemma perform_doc s a :
  doc (perform host s a) = doc s \/
  exists text, doc (perform host s a) = joinLines (splitLines text).
Proof.
  assert (Hv : doc (snd (validate host s)) = doc s) by apply validate_frame.
  assert (Hfmt : forall w, doc (formatJson host w s) = doc s \/
                 exists text, doc (formatJson host w s) = joinLines (splitLines text)).
  { intros w. unfold formatJson. destruct (jsonlint_parse host (doc s));
      [ right; eexists; reflexivity | now left ]. }
  assert (Hmin : doc (minifyJson host s) = doc s \/
                 exists text, doc (minifyJson host s) = joinLines (splitLines text)).
  { unfold minifyJson. destruct (jsonlint_parse host (doc s));
      [ right; eexists; reflexivity | now left ]. }
  assert (Hsort : doc (sortKeys host s) = doc s \/
                  exists text, doc (sortKeys host s) = joinLines (splitLines text)).
  { unfold sortKeys. destruct (jsonlint_parse host (doc s));
      [ right; eexists; reflexivity | now left ]. }
  destruct a as [e | | | | n | b | | | | w | url | answer | name result | ];
    cbn [perform]; auto; try (right; eexists; reflexivity); try (now left).
  - destruct e as [text caret | ms | | | | | ]; cbn [step]; auto.
    + right. now exists text.
    + left. destruct (timer s) as [r | ]; [ | reflexivity ].
      destruct (N.ltb ms r); [ reflexivity | ].
      apply (onTimeout_frame host (setTimer None s)).
  - left. now destruct w.
  - left. now destruct url as [[ | c u] | ].
  - unfold loadUrl_settled. destruct answer as [resp | shown]; [ | now left ].
    destruct (negb (Response.ok resp)); [ now left | ].
    destruct (includes _ _).
    + destruct (Response.json resp); [ right; eexists; reflexivity | now left ].
    + destruct (Response.text resp) as [text | ]; [ | now left ].
      destruct (JSON_parse host text); right; eexists; reflexivity.
Qed.

(** (X14: Line breaks.)  The editor keeps lines, not line breaks: after
    [setValue(text)] the document is [text] with every [\r\n] and every
    lone [\r] written as [\n].  The number of lines is that of [text], and
    giving the editor its own document changes nothing.  So once the
    document holds no carriage return it never holds one again, whatever
    is typed, pasted, formatted or loaded from a file or a URL; the size
    shown for a file with [\r\n] line ends is that of the document, one
    byte less per line break than the file. *)
Theorem document_line_breaks s acts text :
  no_carriage_return (doc s) = true ->
  no_carriage_return (doc (operate host s acts)) = true /\
  doc (setValue host text s) = line_feeds text /\
  lineCount (line_feeds text) = lineCount text /\
  doc (setValue host (doc (setValue host text s)) s) = doc (setValue host text s).
Proof.
  intros Hs. split; [ | split; [ | split ] ].
  - revert s Hs. induction acts as [ | a acts IH ]; intros s Hs; [ exact Hs | ].
    unfold operate in *. cbn [fold_left]. apply IH.
    destruct (perform_doc s a) as [-> | [t ->]]; [ exact Hs | ].
    rewrite getValue_setValue.
    now apply line_feeds_no_carriage_return with (n := List.length t).
  - apply getValue_setValue.
  - rewrite !lineCount_breaks. f_equal.
    now apply breaks_line_feeds with (n := List.length text).
  - change (doc (setValue host text s)) with (joinLines (splitLines text)).
    change (doc (setValue host (joinLines (splitLines text)) s))
      with (joinLines (splitLines (joinLines (splitLines text)))).
    rewrite !getValue_setValue. apply line_feeds_fixed.
    now apply line_feeds_no_carriage_return with (n := List.length text).
Qed.

(** (X15: Size and Download.)  The size shown counts the bytes of the UTF-8
    encoding of the document, which is what Download puts into data.json:
    the file has exactly as many bytes as the size metric says.  That is at
    least one byte and at most three for each UTF-16 code unit of the
    document (a code unit is below 65536).  Download changes the status
    and nothing else. *)
Theorem download_saves_what_size_shows s :
  kpis_current host s -> forallb (fun c => N.ltb c 65536) (doc s) = true ->
  N.of_nat (List.length (Blob_bytes (fst (download s)))) = size s /\
  (N.of_nat (List.length (doc s)) <= size s <= 3 * N.of_nat (List.length (doc s)))%N /\
  snd (download s) = setStatusType success (setStatus (js "Downloaded data.json") s).
Proof.
  intros [Hsize _] Hunits. cbn [download fst snd]. rewrite Hsize. split; [ | split ].
  - apply Blob_bytes_length with (n := List.length (doc s)); [ reflexivity | ].
    apply Forall_forall. intros c Hc. rewrite forallb_forall in Hunits.
    now apply N.ltb_lt, Hunits.
  - now apply byteSize_bounds_upto with (n := List.length (doc s)).
  - reflexivity.
Qed.

End EditorFacts.

(** ** More on [sortKeysDeep] *)

Lemma get_prop_map_values (f : JsonValue -> JsonValue) (k : jsstring) (props : object) :
  get_prop k (map (fun kv : jsstring * JsonValue => let '(k, v) := kv in (k, f v)) props) =
  option_map f (get_prop k props).
Proof.
  induction props as [ | [k' v] t IH ]; [ reflexivity | ].
  cbn [map get_prop]. destruct (str_eqb k k'); [ reflexivity | exact IH ].
Qed.

Lemma assign_all_ext (done done' : object) (ks : list jsstring) :
  (forall k, In k ks -> get_prop k done = get_prop k done') ->
  forall acc, fold_left (assign done) ks acc = fold_left (assign done') ks acc.
Proof.
  induction ks as [ | k ks IH ]; intros H acc; [ reflexivity | ].
  cbn [fold_left]. unfold assign at 2 4. rewrite (H k) by now left.
  apply IH. intros k' Hk'. apply H. now right.
Qed.

Section SortKeysMore.

Variable localeCompare : jsstring -> jsstring -> Z.

Local Abbreviation skd := (sortKeysDeep localeCompare).
Local Abbreviation le := (fun a b => cmp_le localeCompare a b = true).

(** Reading a key from the sorted object. *)
Lemma sorted_get (props : object) (k : jsstring) :
  get_prop k
    (assign_all
       (map (fun kv : jsstring * JsonValue => let '(k, v) := kv in (k, skd v)) props)
       (sort localeCompare (Object_keys props))) =
  if str_eqb k proto_key then None else option_map skd (get_prop k props).
Proof.
  unfold assign_all. rewrite assign_all_get. unfold has_prop.
  rewrite get_prop_map_values. cbn [get_prop].
  destruct (str_eqb k proto_key); [ now rewrite andb_false_r | ].
  rewrite andb_true_r.
  destruct (get_prop k props) as [x | ] eqn:E; cbn [option_map];
    [ | now rewrite andb_false_r ].
  assert (Hm : mem k (sort localeCompare (Object_keys props)) = true).
  { apply mem_In, sort_In. eapply get_prop_In; eauto. }
  now rewrite Hm.
Qed.

(** (X17: [sortKeysDeep], the members.)  Sorting the keys of an object keeps
    its members: every key reads the sorted form of the value it had, no
    key is added and none occurs twice.  The one exception is a member
    named [__proto__]: the assignment [sorted[k] = ...] reaches the
    accessor of [Object.prototype] instead of creating a property, so that
    member is dropped from the result. *)
Theorem sortKeysDeep_keeps_members props :
  nodupb (Object_keys props) = true ->
  exists sorted,
    sortKeysDeep localeCompare (JObject props) = JObject sorted /\
    (forall k,
       get_prop k sorted =
       if str_eqb k proto_key then None
       else option_map (sortKeysDeep localeCompare) (get_prop k props)) /\
    nodupb (Object_keys sorted) = true /\
    List.length (Object_keys sorted) =
    List.length (filter (fun k => negb (str_eqb k proto_key)) (Object_keys props)).
Proof.
  intros Hnd. apply nodupb_NoDup in Hnd. eexists. split; [ reflexivity | ].
  split; [ apply sorted_get | ].
  assert (HndR : NoDup (Object_keys
            (assign_all
               (map (fun kv : jsstring * JsonValue => let '(k, v) := kv in (k, skd v)) props)
               (sort localeCompare (Object_keys props)))))
    by apply rebuilt_NoDup.
  split; [ now apply nodupb_NoDup | ].
  assert (Hkeys : forall k,
            In k (Object_keys
                    (assign_all
                       (map (fun kv : jsstring * JsonValue =>
                               let '(k, v) := kv in (k, skd v)) props)
                       (sort localeCompare (Object_keys props)))) <->
            In k (filter (fun k => negb (str_eqb k proto_key)) (Object_keys props))).
  { intros k. rewrite <- has_prop_In. unfold has_prop. rewrite sorted_get.
    rewrite filter_In, <- has_prop_In. unfold has_prop.
    destruct (str_eqb k proto_key); cbn [negb].
    - split; [ discriminate | intros [_ H]; discriminate ].
    - destruct (get_prop k props); cbn [option_map]; tauto. }
  apply Nat.le_antisymm; apply NoDup_incl_length; auto.
  - intros k. apply Hkeys.
  - now apply NoDup_filter.
  - intros k. apply Hkeys.
Qed.

(** ** One result for every order of the members *)

Hypothesis Hcons : consistent localeCompare.
Hypothesis Hdisc : discerning localeCompare.

Lemma sorted_lists_equal (l l' : list jsstring) :
  StronglySorted le l -> StronglySorted le l' -> NoDup l -> NoDup l' ->
  (forall k, In k l <-> In k l') -> l = l'.
Proof.
  revert l'. induction l as [ | x t IH ]; intros [ | y t' ] Hs Hs' Hn Hn' Hin.
  - reflexivity.
  - exfalso. apply (proj2 (Hin y)). now left.
  - exfalso. apply (proj1 (Hin x)). now left.
  - inversion Hs as [ | ? ? Hst Hx ]; subst. inversion Hs' as [ | ? ? Hst' Hy ]; subst.
    inversion Hn as [ | ? ? Hxt Hnt ]; subst. inversion Hn' as [ | ? ? Hyt Hnt' ]; subst.
    rewrite Forall_forall in Hx, Hy.
    assert (x = y).
    { destruct (proj1 (Hin x) (or_introl eq_refl)) as [E | Hxin]; [ now symmetry | ].
      destruct (proj2 (Hin y) (or_introl eq_refl)) as [E | Hyin]; [ exact E | ].
      apply Hdisc; auto. }
    subst y. f_equal. apply IH; auto.
    intros k. split; intros Hk.
    + destruct (proj1 (Hin k) (or_intror Hk)) as [E | H]; [ subst; contradiction | exact H ].
    + destruct (proj2 (Hin k) (or_intror Hk)) as [E | H]; [ subst; contradiction | exact H ].
Qed.

Lemma same_members_object (props props' : object) :
  same_members (JObject props) (JObject props') ->
  List.length props = List.length props' /\
  forall k x, In (k, x) props ->
    exists x', get_prop k props' = Some x' /\ same_members x x'.
Proof.
  cbn [same_members]. intros [Hlen Heach]. split; [ exact Hlen | ].
  clear Hlen. revert Heach.
  induction props as [ | [k0 x0] t IH ]; intros Heach k x Hin; [ destruct Hin | ].
  destruct Heach as [H0 Ht]. destruct Hin as [E | Hin].
  - injection E as -> ->. destruct (get_prop k props') as [x' | ]; [ | contradiction ].
    now exists x'.
  - now apply IH.
Qed.

Lemma same_members_array (l l' : list JsonValue) :
  same_members (JArray l) (JArray l') -> Forall2 same_members l l'.
Proof.
  cbn [same_members]. revert l'.
  induction l as [ | x t IH ]; intros [ | x' t' ] H; try contradiction; constructor.
  - apply H.
  - apply IH, H.
Qed.

Lemma unique_keys_member (props : object) (k : jsstring) (x : JsonValue) :
  unique_keys (JObject props) = true -> In (k, x) props -> unique_keys x = true.
Proof.
  cbn [unique_keys]. intros H Hin. apply andb_true_iff in H. destruct H as [_ H].
  rewrite forallb_forall in H. now apply (H (k, x)).
Qed.


End SortKeysMore.

(** ** The values [sortKeysDeep] leaves alone *)

Section SortKeysFixed.

Variable localeCompare : jsstring -> jsstring -> Z.
Hypothesis Hcons : consistent localeCompare.

Local Abbreviation skd := (sortKeysDeep localeCompare).

(** The result has no member named [__proto__], at any depth. *)
Lemma sortKeysDeep_no_proto v : no_proto_deep (skd v) = true.
Proof.
  induction v as [ | b | n | s | l IH | o IH ] using JsonValue_induction;
    try reflexivity.
  - cbn [sortKeysDeep no_proto_deep]. rewrite forallb_map_comp.
    apply forallb_forall. now rewrite Forall_forall in IH.
  - cbn [sortKeysDeep no_proto_deep]. apply andb_true_iff. split.
    + apply negb_true_iff. destruct (mem proto_key _) eqn:E; [ | reflexivity ].
      apply mem_In in E. now apply rebuilt_no_proto in E.
    + apply forallb_forall. intros [k x] Hin. cbn [snd].
      apply rebuilt_values in Hin. destruct Hin as [v [Hin ->]].
      rewrite Forall_forall in IH. apply (IH (k, v) Hin).
Qed.

Lemma sortKeysDeep_sorted_fixed v :
  wf_value v = true ->
  keys_sorted_deep (cmp_le localeCompare) named v = true ->
  no_proto_deep v = true ->
  skd v = v.
Proof.
  induction v as [ | b | n | s | l IH | o IH ] using JsonValue_induction;
    try reflexivity; intros Hwf Hsorted Hproto.
  - cbn [sortKeysDeep]. f_equal. rewrite <- (map_id l) at 2. apply map_ext_in.
    intros x Hx. rewrite Forall_forall in IH.
    cbn [wf_value keys_sorted_deep no_proto_deep] in Hwf, Hsorted, Hproto.
    rewrite forallb_forall in Hwf, Hsorted, Hproto. auto.
  - cbn [wf_value keys_sorted_deep no_proto_deep] in Hwf, Hsorted, Hproto.
    apply andb_true_iff in Hwf. destruct Hwf as [Hkeys Hwf].
    apply andb_true_iff in Hkeys. destruct Hkeys as [Hnd Hord].
    apply andb_true_iff in Hsorted. destruct Hsorted as [Hs Hsorted].
    apply andb_true_iff in Hproto. destruct Hproto as [Hp Hproto].
    rewrite forallb_forall in Hwf, Hsorted, Hproto.
    cbn [sortKeysDeep]. f_equal.
    assert (Hdone : map (fun kv : jsstring * JsonValue => let '(k, v) := kv in (k, skd v)) o = o).
    { rewrite <- (map_id o) at 2. apply map_ext_in. intros [k x] Hin.
      f_equal. rewrite Forall_forall in IH. apply (IH (k, x) Hin).
      - apply (Hwf (k, x) Hin).
      - apply (Hsorted (k, x) Hin).
      - apply (Hproto (k, x) Hin). }
    rewrite Hdone. apply assign_all_rebuilt; auto.
    + now apply nodupb_NoDup.
    + intros Hin. apply mem_In in Hin. rewrite Hin in Hp. discriminate.
    + now apply sortedb_ssorted.
Qed.

End SortKeysFixed.

(** (X19: [sortKeysDeep], what it leaves alone.)  Sort Keys returns a value
    unchanged exactly when there is nothing to do: in every object, at
    every depth, the keys that are no array index are already in the
    order of [localeCompare] and none is named [__proto__].  (For values
    as the parser builds them, with distinct keys in enumeration order,
    and a consistent [localeCompare].) *)
Theorem sortKeysDeep_fixed_points localeCompare v :
  consistent localeCompare -> wf_value v = true ->
  (sortKeysDeep localeCompare v = v <->
   keys_sorted_deep (cmp_le localeCompare) named v = true /\ no_proto_deep v = true).
Proof.
  intros Hcons Hwf. split.
  - intros H. split.
    + rewrite <- H. now apply sortKeysDeep_named_sorted.
    + rewrite <- H. apply sortKeysDeep_no_proto.
  - intros [Hs Hp]. now apply sortKeysDeep_sorted_fixed.
Qed.

(** ** The further properties at work *)

Lemma codeunit_compare_discerning : discerning codeunit_compare.
Proof.
  intros a b Hab Hba. apply cmp_le_codeunit in Hab, Hba.
  rewrite (lex_compare_antisym a b) in Hba.
  revert b Hab Hba. induction a as [ | x a IH ]; intros [ | y b ];
    cbn [lex_compare CompOpp]; try congruence.
  destruct (N.compare_spec x y) as [-> | H | H]; cbn [CompOpp]; try congruence.
  intros Hab Hba. f_equal. now apply IH.
Qed.

Lemma kpis_follow_document_witness :
  kpis_current sample_host (operate sample_host mounted_state sample_session).
Proof.
  apply (kpis_follow_document sample_host mounted_state sample_session).
  vm_compute. repeat split.
Defined.

Lemma validate_ignores_outer_space_witness :
  fst (validate sample_host padded_state) = fst (validate sample_host trailing_comma_state) /\
  status (snd (validate sample_host padded_state)) =
    status (snd (validate sample_host trailing_comma_state)) /\
  statusType (snd (validate sample_host padded_state)) =
    statusType (snd (validate sample_host trailing_comma_state)) /\
  cursor (snd (validate sample_host padded_state)) =
    cursor (snd (validate sample_host trailing_comma_state)) /\
  doc padded_state <> doc trailing_comma_state.
Proof.
  destruct (validate_ignores_outer_space sample_host trailing_comma_state padded_state
              (js " " ++ [10%N]) (js "  "))
    as [_ [Hs [Hty Hline]]];
    [ reflexivity | reflexivity | vm_compute; reflexivity | reflexivity | ].
  destruct Hline as [Hf [_ Hc]].
  { intros e line He Hl. vm_compute in He. injection He as <-.
    vm_compute in Hl. injection Hl as <-.
    exists 0%Z. repeat split; vm_compute; reflexivity. }
  split; [ exact Hf | ]. split; [ exact Hs | ]. split; [ exact Hty | ]. split.
  - apply Hc. intros e He. vm_compute in He. injection He as <-.
    vm_compute. reflexivity.
  - vm_compute. discriminate.
Defined.

Lemma timeout_verdict_witness :
  let s' := step sample_host edited_state (Elapse 400) in
  status s' =
    match trim (doc edited_state) with
    | [] => js "Please enter JSON."
    | text =>
        match jsonlint_parse sample_host text with
        | Returns _ => js "Looks good " ++ check_mark
        | Throws e => js "Invalid JSON: " ++ ParseError.message e
        end
    end /\
  (statusType s' = success <->
   exists obj, trim (doc edited_state) <> [] /\
               jsonlint_parse sample_host (trim (doc edited_state)) = Returns obj) /\
  doc s' = doc edited_state /\
  timer s' = None /\
  step sample_host s' (Elapse 400) = s'.
Proof.
  apply (timeout_verdict sample_host edited_state 400 400).
  - vm_compute. reflexivity.
  - lia.
Defined.

Lemma clear_then_quiet_witness :
  let s1 := perform sample_host edited_state ClickClear in
  let s2 := perform sample_host s1 (Core (Elapse 400)) in
  document_replaced sample_host edited_state [] (js "Cleared.") no_type s1 /\
  doc s1 = [] /\ size s1 = 0%N /\ lines s1 = 1%N /\
  status s2 = js "Please enter JSON." /\ statusType s2 = danger /\
  doc s2 = [] /\ timer s2 = None.
Proof.
  apply (clear_then_quiet sample_host edited_state 400). lia.
Defined.

Lemma serializers_replace_document_witness :
  document_replaced sample_host trailing_comma_state
    (JSON_stringify sample_host example (Some 2%N))
    (js "Loaded sample JSON.") success (sample sample_host trailing_comma_state) /\
  document_replaced sample_host unsorted_state
    (JSON_stringify sample_host unsorted_value (Some 4%N))
    (js "Formatted with " ++ decimal 4 ++ js " spaces.") success
    (formatJson sample_host 4 unsorted_state) /\
  document_replaced sample_host unsorted_state
    (JSON_stringify sample_host unsorted_value None)
    (js "Minified JSON.") success (minifyJson sample_host unsorted_state) /\
  document_replaced sample_host unsorted_state
    (JSON_stringify sample_host
       (sortKeysDeep (localeCompare sample_host) unsorted_value) (Some 2%N))
    (js "Sorted keys recursively.") success (sortKeys sample_host unsorted_state).
Proof.
  split.
  - apply (serializers_replace_document sample_host trailing_comma_state 4).
  - apply (serializers_replace_document sample_host unsorted_state 4).
    vm_compute. reflexivity.
Defined.

Lemma file_loaded_then_validated_witness :
  let text := joinLines (splitLines (jsq "{'a':1,}" ++ [13; 10]%N)) in
  let s1 := perform sample_host mounted_state
              (FileRead (js "data.json") (jsq "{'a':1,}" ++ [13; 10]%N)) in
  let s2 := perform sample_host s1 (Core (Elapse 500)) in
  document_replaced sample_host mounted_state (jsq "{'a':1,}" ++ [13; 10]%N)
    (js "Loaded file: " ++ js "data.json") success s1 /\
  perform sample_host mounted_state FileUnreadable =
    setStatusType danger (setStatus (js "Failed to read file.") mounted_state) /\
  status s2 = js "Invalid JSON: " ++ ParseError.message trailing_comma_error /\
  statusType s2 = danger /\
  doc s2 = text.
Proof.
  intros text s1 s2.
  destruct (file_loaded_then_validated sample_host mounted_state (js "data.json")
              (jsq "{'a':1,}" ++ [13; 10]%N)) as [Hloaded [Hfailed Hlater]].
  split; [ exact Hloaded | ]. split; [ exact Hfailed | ].
  apply (Hlater trailing_comma_error 500%N).
  - vm_compute. discriminate.
  - vm_compute. reflexivity.
  - lia.
Defined.

Lemma indent_read_by_format_button_only_witness :
  apart_from_indent (operate sample_host mounted_state keyboard_session) =
  apart_from_indent
    (operate sample_host mounted_state
       (filter (fun a => negb (is_select a)) keyboard_session)).
Proof.
  apply (indent_read_by_format_button_only sample_host mounted_state keyboard_session).
  reflexivity.
Defined.

Lemma extractLineCol_reads_line_witness :
  fst (extractLineCol
         (js "Parse error on " ++ js "LINE" ++ [32; 9]%N ++ decimal 12 ++
          js ":" ++ 10%N :: js "Expecting string")) = Some (Finite 11) /\
  fst (extractLineCol (js "Parse error on ")) = None.
Proof.
  destruct (extractLineCol_reads_line (js "Parse error on ") (js "LINE") [32; 9]%N 12
              (js ":" ++ 10%N :: js "Expecting string"))
    as [_ [Hsmall [Hnone _]]];
    [ reflexivity | reflexivity | discriminate | reflexivity | reflexivity | ].
  split; [ | exact Hnone ].
  apply Hsmall. vm_compute. discriminate.
Defined.

Lemma preferences_round_trip_witness :
  load_preferences (save_preferences sample_preferences (fun _ => None)) false =
    sample_preferences /\
  load_preferences
    (save_preferences (toggleTheme sample_preferences) (fun _ => None)) false =
    toggleTheme sample_preferences.
Proof.
  apply (preferences_round_trip sample_preferences (fun _ => None) false).
  cbn. lia.
Defined.

Lemma document_line_breaks_witness :
  no_carriage_return (doc (operate sample_host mounted_state sample_session)) = true /\
  doc (setValue sample_host mixed_line_ends mounted_state) = line_feeds mixed_line_ends /\
  lineCount (line_feeds mixed_line_ends) = lineCount mixed_line_ends /\
  doc (setValue sample_host (doc (setValue sample_host mixed_line_ends mounted_state))
         mounted_state) =
    doc (setValue sample_host mixed_line_ends mounted_state).
Proof.
  apply (document_line_breaks sample_host mounted_state sample_session mixed_line_ends).
  reflexivity.
Defined.

Lemma download_saves_what_size_shows_witness :
  N.of_nat (List.length (Blob_bytes (fst (download accented_state)))) =
    size accented_state /\
  (N.of_nat (List.length (doc accented_state)) <= size accented_state <=
   3 * N.of_nat (List.length (doc accented_state)))%N /\
  snd (download accented_state) =
    setStatusType success (setStatus (js "Downloaded data.json") accented_state).
Proof.
  apply (download_saves_what_size_shows sample_host accented_state).
  - vm_compute. repeat split.
  - vm_compute. reflexivity.
Defined.

Lemma sortKeysDeep_keeps_members_witness :
  exists sorted,
    sortKeysDeep codeunit_compare (JObject proto_members) = JObject sorted /\
    (forall k,
       get_prop k sorted =
       if str_eqb k proto_key then None
       else option_map (sortKeysDeep codeunit_compare) (get_prop k proto_members)) /\
    nodupb (Object_keys sorted) = true /\
    List.length (Object_keys sorted) =
    List.length (filter (fun k => negb (str_eqb k proto_key)) (Object_keys proto_members)).
Proof.
  apply (sortKeysDeep_keeps_members codeunit_compare proto_members). reflexivity.
Defined.


Lemma sortKeysDeep_fixed_points_witness :
  sortKeysDeep codeunit_compare example = example <->
  keys_sorted_deep (cmp_le codeunit_compare) named example = true /\
  no_proto_deep example = true.
Proof.
  apply (sortKeysDeep_fixed_points codeunit_compare example).
  - exact codeunit_compare_consistent.
  - reflexivity.
Defined.

Lemma serializers_compose_witness :
  formatJson sample_host 4 (formatJson sample_host 4 unsorted_state) =
    formatJson sample_host 4 unsorted_state /\
  formatJson sample_host 4 (minifyJson sample_host unsorted_state) =
    formatJson sample_host 4 unsorted_state /\
  minifyJson sample_host (formatJson sample_host 4 unsorted_state) =
    minifyJson sample_host unsorted_state /\
  minifyJson sample_host (minifyJson sample_host unsorted_state) =
    minifyJson sample_host unsorted_state /\
  sortKeys sample_host (sortKeys sample_host unsorted_state) =
    sortKeys sample_host unsorted_state.
Proof.
  apply (serializers_compose sample_host unsorted_state 4 unsorted_value).
  - vm_compute. reflexivity.
  - vm_compute. reflexivity.
  - vm_compute. reflexivity.
  - vm_compute. reflexivity.
  - exact codeunit_compare_consistent.
  - reflexivity.
Defined.

Lemma pending_validation_within_window_witness :
  timer_in_window (operate sample_host mounted_state sample_session) = true /\
  step sample_host (step sample_host edited_state (Elapse 150)) (Elapse 250) =
    step sample_host edited_state (Elapse (150 + 250)).
Proof.
  split.
  - apply (pending_validation_within_window sample_host mounted_state sample_session 0 0).
    reflexivity.
  - apply (pending_validation_within_window sample_host edited_state [] 150 250).
    reflexivity.
Defined.
